(** * Organic Maps: the drape read manager and the feature decoder

    A shallow embedding of
    - [ReadManager] (drape_frontend/read_manager.cpp): [UpdateCoverage],
      [GetTileKeys], [MustDropAllTiles] and the task/tile helpers;
    - [FeatureType] (indexer/feature.cpp): [GetScaleIndex], [ReadOffsets],
      [BitSource], the staged parser ([ParseTypes] ... [ParseTriangles]),
      [ResetGeometry] and [GetLayer].

    C++ [int]/[uint32_t] values are [Z]; containers are lists; objects held
    through [shared_ptr] live in an explicit store and are named by their
    index in it. *)

From Stdlib Require Import ZArith Lia Bool.
From stdpp Require Import base tactics option list list_numbers sorting sets.

Local Open Scope Z_scope.

(** ** Ordered containers of the standard library *)

Module Stl.
Section OrderedSet.
Context {A : Type} (lt : A -> A -> bool).

(** [std::set::insert]: the element is placed by the comparator; an
    equivalent element already present wins. *)
Fixpoint set_insert (x : A) (s : list A) : list A :=
  match s with
  | [] => [x]
  | y :: s' =>
      if lt x y then x :: s
      else if lt y x then y :: set_insert x s'
      else s
  end.

(** [std::set::erase] by value: removes the element equivalent to [x]. *)
Fixpoint set_erase (x : A) (s : list A) : list A :=
  match s with
  | [] => []
  | y :: s' =>
      if lt x y then s
      else if lt y x then y :: set_erase x s'
      else s'
  end.
End OrderedSet.

Section SetDifference.
Context {A B : Type} (lt_ab : A -> B -> bool) (lt_ba : B -> A -> bool).

(** [std::set_difference] over two sorted ranges with a heterogeneous
    comparator: while range 1 is not exhausted, copy the rest of range 1
    if range 2 is exhausted; emit and advance the head of range 1 if it
    is less than the head of range 2; otherwise advance range 2, and
    range 1 too unless the head of range 2 is less than that of
    range 1. *)
Fixpoint set_difference (l1 : list A) : list B -> list A :=
  fix inner (l2 : list B) : list A :=
    match l1 with
    | [] => []
    | a :: l1' =>
        match l2 with
        | [] => l1
        | b :: l2' =>
            if lt_ab a b then a :: set_difference l1' l2
            else if lt_ba b a then inner l2'
            else set_difference l1' l2'
        end
    end.
End SetDifference.
End Stl.

(** ** The read manager *)

Module Df.
Import Stl.

(** [TileKey(x, y, zoomLevel)]. *)
Record TileKey := mkTileKey { m_x : Z; m_y : Z; m_zoomLevel : Z }.

#[global] Instance TileKey_eq_dec : EqDecision TileKey.
Proof. solve_decision. Defined.

(** Modelled from the spec: [TileKey::operator<] is declared in
    tile_info.hpp; the keys are totally ordered lexicographically
    by (z, x, y). *)
Definition TileKey_ltb (l r : TileKey) : bool :=
  if decide (m_zoomLevel l = m_zoomLevel r) then
    if decide (m_x l = m_x r) then bool_decide (m_y l < m_y r)
    else bool_decide (m_x l < m_x r)
  else bool_decide (m_zoomLevel l < m_zoomLevel r).

Definition TileKey_lt (l r : TileKey) : Prop := TileKey_ltb l r = true.

(** A list of keys in [std::set] order. *)
Definition sorted_keys (l : list TileKey) : Prop := StronglySorted TileKey_lt l.

(** The comparator of a container ordered through the key of its elements. *)
Definition key_lt {A : Type} (key : A -> TileKey) (a b : A) : bool :=
  TileKey_ltb (key a) (key b).

(** Modelled from the spec: [TileInfo] (tile_info.hpp) has an immutable key
    and a monotonic cancellation flag; [Cancel] raises the flag. *)
Record TileInfo := mkTileInfo { ti_key : TileKey; ti_isCancelled : bool }.

Definition TileInfo_Cancel (t : TileInfo) : TileInfo :=
  {| ti_key := ti_key t; ti_isCancelled := true |}.

(** [tileinfo_ptr] is [shared_ptr<TileInfo>]: an index into the store. *)
Notation tileinfo_ptr := nat (only parsing).

(** [ReadMWMTask(tileInfo, memIndex, model, context)]: the task keeps the
    shared tile; the other three are the manager's own members. *)
Record ReadMWMTask := mkReadMWMTask { task_tileInfo : tileinfo_ptr }.

(** Modelled from the spec: [CoverageUpdateDescriptor] (declared in
    coverage_update_descriptor.hpp) has two operations only, drop_all()
    and drop_tiles(keys); it is the record of the calls it received. *)
Inductive DescriptorCall :=
| CallDropAll
| CallDropTiles (keys : list TileKey).

Definition CoverageUpdateDescriptor := list DescriptorCall.

Definition DropAll (d : CoverageUpdateDescriptor) : CoverageUpdateDescriptor :=
  d ++ [CallDropAll].
Definition DropTiles (keys : list TileKey) (d : CoverageUpdateDescriptor)
  : CoverageUpdateDescriptor :=
  d ++ [CallDropTiles keys].

(** What the manager asks of a [ScreenBase] and of the [ScalesProcessor].
    The floating-point computations of [GetTileKeys] (the division of the
    clip rectangle by the tile size, [floor], [ceil], and the rotated
    rectangle intersection) are taken as given. *)
Class ScreenOps (ScreenBase : Type) := {
  ScreenBase_eq_dec :: EqDecision ScreenBase;
  (** [ScreenBase()] *)
  ScreenBase_default : ScreenBase;
  (** [ScalesProcessor::GetTileScaleBase(screen)] *)
  GetTileScaleBase : ScreenBase -> Z;
  (** [a.GlobalRect().IsIntersect(b.GlobalRect())] *)
  IsIntersect : ScreenBase -> ScreenBase -> bool;
  (** [static_cast<int>(floor(clipRect.minX() / rectSize))] and the three
      others, for [rectSize = range / (1 << tileScale)] *)
  ClipMinTileX : ScreenBase -> Z -> Z;
  ClipMaxTileX : ScreenBase -> Z -> Z;
  ClipMinTileY : ScreenBase -> Z -> Z;
  ClipMaxTileY : ScreenBase -> Z -> Z;
  (** [globalRect.IsIntersect(AnyRectD(currentTileRect))] for the tile
      [(tileX, tileY)] at [tileScale] *)
  TileIsIntersect : ScreenBase -> Z -> Z -> Z -> bool
}.

Section Manager.
Context {ScreenBase : Type} `{ScreenOps ScreenBase}.

Record ReadManager := mkReadManager {
  m_currentViewport : ScreenBase;
  (** [std::set<tileinfo_ptr, LessByTileKey>], in iteration order *)
  m_tileInfos : list tileinfo_ptr;
  (** the pending routines of [m_pool]; the head is the front *)
  m_pool : list ReadMWMTask;
  (** the [TileInfo] objects the shared pointers refer to *)
  m_store : list TileInfo
}.

(** The manager as constructed: no viewport processed, no tile. *)
Definition ReadManager_init : ReadManager :=
  {| m_currentViewport := ScreenBase_default; m_tileInfos := [];
     m_pool := []; m_store := [] |}.

(** [p->GetTileKey()] *)
Definition GetTileKey (store : list TileInfo) (p : tileinfo_ptr) : TileKey :=
  from_option ti_key (mkTileKey 0 0 0) (store !! p).

(** [LessByTileKey]: the order of [m_tileInfos]. *)
Definition LessByTileKey (store : list TileInfo) (l r : tileinfo_ptr) : bool :=
  TileKey_ltb (GetTileKey store l) (GetTileKey store r).

(** [LessCoverageCell]: the two mixed comparisons. *)
Definition LessCoverageCell_ik (store : list TileInfo)
    (l : tileinfo_ptr) (r : TileKey) : bool :=
  TileKey_ltb (GetTileKey store l) r.
Definition LessCoverageCell_ki (store : list TileInfo)
    (l : TileKey) (r : tileinfo_ptr) : bool :=
  TileKey_ltb l (GetTileKey store r).

Definition TileInfoPtrToTileKey := GetTileKey.

(** [ReadManager::GetTileKeys] *)
Definition GetTileKeys (screen : ScreenBase) : list TileKey :=
  let tileScale := GetTileScaleBase screen in
  let minTileX := ClipMinTileX screen tileScale in
  let maxTileX := ClipMaxTileX screen tileScale in
  let minTileY := ClipMinTileY screen tileScale in
  let maxTileY := ClipMaxTileY screen tileScale in
  foldl (fun out tileY =>
           foldl (fun out tileX =>
                    if TileIsIntersect screen tileX tileY tileScale
                    then set_insert TileKey_ltb (mkTileKey tileX tileY tileScale) out
                    else out)
                 out (seqZ minTileX (maxTileX - minTileX)))
        [] (seqZ minTileY (maxTileY - minTileY)).

(** [ReadManager::MustDropAllTiles] *)
Definition MustDropAllTiles (rm : ReadManager) (screen : ScreenBase) : bool :=
  let oldScale := GetTileScaleBase (m_currentViewport rm) in
  let newScale := GetTileScaleBase screen in
  negb (bool_decide (oldScale = newScale))
  || negb (IsIntersect (m_currentViewport rm) screen).

(** [ReadManager::PushTaskBackForTileKey] *)
Definition PushTaskBackForTileKey (rm : ReadManager) (tileKey : TileKey)
  : ReadManager :=
  let tileInfo := length (m_store rm) in
  let store := m_store rm ++ [mkTileInfo tileKey false] in
  {| m_currentViewport := m_currentViewport rm;
     m_tileInfos := set_insert (LessByTileKey store) tileInfo (m_tileInfos rm);
     m_pool := m_pool rm ++ [mkReadMWMTask tileInfo];
     m_store := store |}.

(** [ReadManager::PushTaskFront] *)
Definition PushTaskFront (rm : ReadManager) (tileToReread : tileinfo_ptr)
  : ReadManager :=
  {| m_currentViewport := m_currentViewport rm;
     m_tileInfos := m_tileInfos rm;
     m_pool := mkReadMWMTask tileToReread :: m_pool rm;
     m_store := m_store rm |}.

(** [ReadManager::CancelTileInfo] *)
Definition CancelTileInfo (rm : ReadManager) (tileToCancel : tileinfo_ptr)
  : ReadManager :=
  {| m_currentViewport := m_currentViewport rm;
     m_tileInfos := m_tileInfos rm;
     m_pool := m_pool rm;
     m_store := alter TileInfo_Cancel tileToCancel (m_store rm) |}.

(** [ReadManager::ClearTileInfo] *)
Definition ClearTileInfo (rm : ReadManager) (tileToClear : tileinfo_ptr)
  : ReadManager :=
  let rm := CancelTileInfo rm tileToClear in
  {| m_currentViewport := m_currentViewport rm;
     m_tileInfos := set_erase (LessByTileKey (m_store rm)) tileToClear (m_tileInfos rm);
     m_pool := m_pool rm;
     m_store := m_store rm |}.

Definition clear_tileInfos (rm : ReadManager) : ReadManager :=
  {| m_currentViewport := m_currentViewport rm; m_tileInfos := [];
     m_pool := m_pool rm; m_store := m_store rm |}.

Definition set_currentViewport (rm : ReadManager) (screen : ScreenBase)
  : ReadManager :=
  {| m_currentViewport := screen; m_tileInfos := m_tileInfos rm;
     m_pool := m_pool rm; m_store := m_store rm |}.

(** [ReadManager::UpdateCoverage] *)
Definition UpdateCoverage (screen : ScreenBase) (rm : ReadManager)
    (updateDescr : CoverageUpdateDescriptor)
  : ReadManager * CoverageUpdateDescriptor :=
  if decide (screen = m_currentViewport rm) then (rm, updateDescr)
  else
    let tiles := GetTileKeys screen in
    if MustDropAllTiles rm screen then
      let rm := foldl CancelTileInfo rm (m_tileInfos rm) in
      let rm := clear_tileInfos rm in
      let rm := foldl PushTaskBackForTileKey rm tiles in
      let updateDescr := DropAll updateDescr in
      (set_currentViewport rm screen, updateDescr)
    else
      (* Find rects that go out from viewport *)
      let outdatedTiles :=
        set_difference (LessCoverageCell_ik (m_store rm))
                       (LessCoverageCell_ki (m_store rm))
                       (m_tileInfos rm) tiles in
      (* Find rects that go in into viewport *)
      let inputRects :=
        set_difference (LessCoverageCell_ki (m_store rm))
                       (LessCoverageCell_ik (m_store rm))
                       tiles (m_tileInfos rm) in
      let rm := foldl ClearTileInfo rm outdatedTiles in
      let outdatedTileKeys :=
        TileInfoPtrToTileKey (m_store rm) <$> outdatedTiles in
      let updateDescr := DropTiles outdatedTileKeys updateDescr in
      let rm := foldl PushTaskFront rm (m_tileInfos rm) in
      let rm := foldl PushTaskBackForTileKey rm inputRects in
      (set_currentViewport rm screen, updateDescr).

(** [ReadManager::Stop]: every live tile is cancelled and the live set is
    cleared; [m_pool->Stop()] and [m_pool.Destroy()] leave no pool, hence no
    pending routine. *)
Definition Stop (rm : ReadManager) : ReadManager :=
  let rm := foldl CancelTileInfo rm (m_tileInfos rm) in
  let rm := clear_tileInfos rm in
  {| m_currentViewport := m_currentViewport rm; m_tileInfos := m_tileInfos rm;
     m_pool := []; m_store := m_store rm |}.

(** *** Vocabulary of the properties *)

(** The keys of the live tiles, in the order of [m_tileInfos]. *)
Definition live_keys (rm : ReadManager) : list TileKey :=
  GetTileKey (m_store rm) <$> m_tileInfos rm.

(** [m_tileInfos] is a [std::set] ordered by key whose pointers are valid. *)
Definition wf (rm : ReadManager) : Prop :=
  Forall (fun p => (p < length (m_store rm))%nat) (m_tileInfos rm)
  /\ sorted_keys (live_keys rm).

(** The store after [Cancel] on every tile of [l]. *)
Definition cancel_all (l : list tileinfo_ptr) (store : list TileInfo)
  : list TileInfo :=
  foldl (fun st p => alter TileInfo_Cancel p st) store l.

(** Every [TileInfo] of [old] is still in [new], at the same place and with
    the same key, and still cancelled if it was. *)
Definition store_extends (old new : list TileInfo) : Prop :=
  forall p t, old !! p = Some t ->
    exists t', new !! p = Some t'
      /\ ti_key t' = ti_key t
      /\ (ti_isCancelled t = true -> ti_isCancelled t' = true).

(** The manager [rm'] has all the tiles and all the tasks of [rm]. *)
Definition keeps (rm rm' : ReadManager) : Prop :=
  store_extends (m_store rm) (m_store rm')
  /\ exists front back, m_pool rm' = front ++ m_pool rm ++ back.

(** The states the manager goes through: the constructed manager, then
    any number of [UpdateCoverage] calls. *)
Inductive reachable : ReadManager -> Prop :=
| reachable_init : reachable ReadManager_init
| reachable_update rm screen d :
    reachable rm -> reachable (UpdateCoverage screen rm d).1.

End Manager.

Arguments ReadManager : clear implicits.

End Df.

(** ** Viewports for the examples *)

Module DfExamples.
Import Df.

(** A viewport given by its tile scale and the box of tile indices its clip
    rectangle covers.  Two viewports intersect when their boxes overlap, and
    the unrotated viewport meets every tile of its box. *)
Record GridScreen := mkGridScreen {
  gs_scale : Z; gs_minX : Z; gs_maxX : Z; gs_minY : Z; gs_maxY : Z }.

#[global] Instance GridScreen_eq_dec : EqDecision GridScreen.
Proof. solve_decision. Defined.

Definition GridScreen_intersect (a b : GridScreen) : bool :=
  (gs_minX a <? gs_maxX b) && (gs_minX b <? gs_maxX a)
  && (gs_minY a <? gs_maxY b) && (gs_minY b <? gs_maxY a).

#[global] Instance GridScreen_ops : ScreenOps GridScreen := {|
  ScreenBase_default := mkGridScreen 0 0 0 0 0;
  GetTileScaleBase := gs_scale;
  IsIntersect := GridScreen_intersect;
  ClipMinTileX := fun s _ => gs_minX s;
  ClipMaxTileX := fun s _ => gs_maxX s;
  ClipMinTileY := fun s _ => gs_minY s;
  ClipMaxTileY := fun s _ => gs_maxY s;
  TileIsIntersect := fun _ _ _ _ => true
|}.

(** Covers the tiles (0,0,10) and (1,0,10). *)
Definition viewA : GridScreen := mkGridScreen 10 0 2 0 1.
(** [viewA] panned by one tile: covers (1,0,10) and (2,0,10). *)
Definition viewB : GridScreen := mkGridScreen 10 1 3 0 1.
(** One tile at the next zoom level. *)
Definition viewC : GridScreen := mkGridScreen 11 2 3 0 1.

(** The manager after its first update, to [viewA]. *)
Definition managerA : ReadManager GridScreen :=
  (UpdateCoverage viewA ReadManager_init []).1.

End DfExamples.

(** ** The feature decoder *)

Module Feature.

(** *** Aborting code

    [CHECK] aborts the program; reading outside a buffer or a vector is
    undefined, and so is a call through a null pointer; an exception that
    no handler of the decoder catches leaves it.  Each is a result of its
    own.  [ASSERT] is compiled out of release builds and is not
    modelled. *)
Inductive Failure := CheckFailed | OutOfRange | NullPointer | Thrown.

(** How a call of the metadata deserializer ends: it returns, it throws
    [Reader::OpenException], or it throws something else. *)
Inductive Outcome := Returned | OpenException | OtherException.

Inductive result (A : Type) : Type :=
| Ok (a : A)
| Fail (e : Failure).
Arguments Ok {A} a.
Arguments Fail {A} e.

#[global] Instance result_bind : MBind result :=
  fun A B k m => match m with Ok a => k a | Fail e => Fail e end.
#[global] Instance result_ret : MRet result := fun A a => Ok a.
#[global] Instance result_fmap : FMap result :=
  fun A B g m => match m with Ok a => Ok (g a) | Fail e => Fail e end.

(** [kInvalidOffset = numeric_limits<uint32_t>::max()] *)
Definition kInvalidOffset : Z := 4294967295.

(** [FeatureType::BEST_GEOMETRY] and [FeatureType::WORST_GEOMETRY], with the
    values the comment above [GetScaleIndex] gives them. *)
Definition BEST_GEOMETRY : Z := -1.
Definition WORST_GEOMETRY : Z := -2.

(** [static_cast<uint32_t>] *)
Definition to_uint32 (z : Z) : Z := z mod 4294967296.
(** [static_cast<uint8_t>] *)
Definition to_uint8 (z : Z) : Z := z mod 256.

Inductive GeomType := Undefined | Point | Line | Area.

#[global] Instance GeomType_eq_dec : EqDecision GeomType.
Proof. solve_decision. Defined.

(** [FeatureType::ParsedFlags m_parsed] *)
Module Parsed.
Record t := mk {
  m_types : bool; m_common : bool; m_header2 : bool; m_points : bool;
  m_triangles : bool; m_metadata : bool; m_metaIds : bool }.
Definition init : t := mk false false false false false false false.
Definition set_m_types (v : bool) (r : t) : t :=
  {| m_types := v; m_common := m_common r; m_header2 := m_header2 r;
     m_points := m_points r; m_triangles := m_triangles r;
     m_metadata := m_metadata r; m_metaIds := m_metaIds r |}.
Definition set_m_common (v : bool) (r : t) : t :=
  {| m_types := m_types r; m_common := v; m_header2 := m_header2 r;
     m_points := m_points r; m_triangles := m_triangles r;
     m_metadata := m_metadata r; m_metaIds := m_metaIds r |}.
Definition set_m_header2 (v : bool) (r : t) : t :=
  {| m_types := m_types r; m_common := m_common r; m_header2 := v;
     m_points := m_points r; m_triangles := m_triangles r;
     m_metadata := m_metadata r; m_metaIds := m_metaIds r |}.
Definition set_m_points (v : bool) (r : t) : t :=
  {| m_types := m_types r; m_common := m_common r; m_header2 := m_header2 r;
     m_points := v; m_triangles := m_triangles r; m_metadata := m_metadata r;
     m_metaIds := m_metaIds r |}.
Definition set_m_triangles (v : bool) (r : t) : t :=
  {| m_types := m_types r; m_common := m_common r; m_header2 := m_header2 r;
     m_points := m_points r; m_triangles := v; m_metadata := m_metadata r;
     m_metaIds := m_metaIds r |}.
Definition set_m_metadata (v : bool) (r : t) : t :=
  {| m_types := m_types r; m_common := m_common r; m_header2 := m_header2 r;
     m_points := m_points r; m_triangles := m_triangles r; m_metadata := v;
     m_metaIds := m_metaIds r |}.
Definition set_m_metaIds (v : bool) (r : t) : t :=
  {| m_types := m_types r; m_common := m_common r; m_header2 := m_header2 r;
     m_points := m_points r; m_triangles := m_triangles r;
     m_metadata := m_metadata r; m_metaIds := v |}.
End Parsed.

(** [FeatureType::Offsets m_offsets]: positions in [m_data], and the outer
    geometry offset tables. *)
Module Offsets.
Record t := mk {
  m_common : nat; m_header2 : nat; m_pts : list Z; m_trg : list Z }.
Definition init : t := mk 0%nat 0%nat [] [].
Definition set_m_common (v : nat) (r : t) : t :=
  {| m_common := v; m_header2 := m_header2 r; m_pts := m_pts r;
     m_trg := m_trg r |}.
Definition set_m_header2 (v : nat) (r : t) : t :=
  {| m_common := m_common r; m_header2 := v; m_pts := m_pts r;
     m_trg := m_trg r |}.
Definition set_m_pts (v : list Z) (r : t) : t :=
  {| m_common := m_common r; m_header2 := m_header2 r; m_pts := v;
     m_trg := m_trg r |}.
Definition set_m_trg (v : list Z) (r : t) : t :=
  {| m_common := m_common r; m_header2 := m_header2 r; m_pts := m_pts r;
     m_trg := v |}.
End Offsets.

(** [FeatureType::InnerGeomStat m_innerStats] *)
Module InnerGeomStat.
Record t := mk { m_points : Z; m_strips : Z; m_size : Z }.
Definition init : t := mk 0 0 0.
Definition set_m_points (v : Z) (r : t) : t :=
  {| m_points := v; m_strips := m_strips r; m_size := m_size r |}.
Definition set_m_strips (v : Z) (r : t) : t :=
  {| m_points := m_points r; m_strips := v; m_size := m_size r |}.
Definition set_m_size (v : Z) (r : t) : t :=
  {| m_points := m_points r; m_strips := m_strips r; m_size := v |}.
End InnerGeomStat.

(** [FeatureType::GeomStat(sz, count)] *)
Module GeomStat.
Record t := mk { m_size : Z; m_count : nat }.
End GeomStat.

(** [FeatureParamsBase m_params], over the types of its strings. *)
Record FeatureParamsBase (Name House Ref : Type) := mkFeatureParamsBase {
  name : Name;
  house : House;
  ref : Ref;
  layer : Z;
  rank : Z
}.
Arguments mkFeatureParamsBase {Name House Ref}.
Arguments name {Name House Ref}.
Arguments house {Name House Ref}.
Arguments ref {Name House Ref}.
Arguments layer {Name House Ref}.
Arguments rank {Name House Ref}.

(** What the decoder uses and this file does not define: the geometry
    types, the header layout, the classificator, the byte-level readers of
    coding/ and serial::, and the metadata deserializer.  A reader of
    [m_data] takes the buffer and a position and returns the position it
    stopped at. *)
Class Externals := {
  PointD : Type;
  (** [m2::PointD()] *)
  PointD_inhabited :: Inhabited PointD;
  RectD : Type;
  (** [m2::RectD()], also [MakeEmpty] *)
  RectD_empty : RectD;
  (** [rect.Add(p)] *)
  RectD_Add : RectD -> PointD -> RectD;
  (** [CalcRect(points, rect)] *)
  CalcRect : list PointD -> RectD -> RectD;
  StringUtf8Multilang : Type;
  StringUtf8Multilang_empty : StringUtf8Multilang;
  HouseNumber : Type;
  HouseNumber_empty : HouseNumber;
  RoadNumber : Type;
  RoadNumber_empty : RoadNumber;
  Metadata : Type;
  Metadata_empty : Metadata;
  MetaIds : Type;
  MetaIds_empty : MetaIds;
  GeometryCodingParams : Type;
  (** [cp.SetBasePoint(p)] *)
  SetBasePoint : GeometryCodingParams -> PointD -> GeometryCodingParams;
  (** a [FilesContainerR::TReader] *)
  Reader : Type;
  (** the header byte: [HEADER_MASK_GEOMTYPE], [HEADER_MASK_HAS_LAYER],
      [HeaderGeomType::Line], [HeaderGeomType::Area], and
      [FeatureType::GetTypesCount] as a function of the header *)
  HEADER_MASK_GEOMTYPE : Z;
  HEADER_MASK_HAS_LAYER : Z;
  HeaderGeomType_Point : Z;
  HeaderGeomType_Line : Z;
  HeaderGeomType_Area : Z;
  GetTypesCount : Z -> nat;
  kMaxTypesCount : nat;
  (** [CalculateHeader(typesCount, headerGeomType, params)] *)
  CalculateHeader :
    nat -> Z -> FeatureParamsBase StringUtf8Multilang HouseNumber RoadNumber -> Z;
  (** [params.Read(source, header)] *)
  Params_Read :
    FeatureParamsBase StringUtf8Multilang HouseNumber RoadNumber ->
    list Z -> nat -> Z ->
    FeatureParamsBase StringUtf8Multilang HouseNumber RoadNumber * nat;
  (** [classif().GetTypeForIndex(index)] and [classif().GetStubType()] *)
  GetTypeForIndex : Z -> Z;
  GetStubType : Z;
  (** [ReadVarUint<uint32_t>(source)] *)
  ReadVarUint32 : list Z -> nat -> Z * nat;
  (** [serial::LoadPoint(source, cp)] *)
  LoadPoint : list Z -> nat -> GeometryCodingParams -> PointD * nat;
  (** [serial::LoadInnerPath(start, count, cp, points)]: the decoded points,
      which the call appends to [points] *)
  LoadInnerPath : list Z -> nat -> Z -> GeometryCodingParams -> list PointD * nat;
  (** [serial::LoadInnerTriangles(start, count, cp, triangles)] *)
  LoadInnerTriangles : list Z -> nat -> Z -> GeometryCodingParams -> list PointD * nat;
  (** [serial::LoadOuterPath(src, cp, points)] on a reader source skipped to
      an offset: the points it appends, and [src.Pos()] afterwards *)
  LoadOuterPath : Reader -> Z -> GeometryCodingParams -> list PointD * Z;
  (** [serial::LoadOuterTriangles(src, cp, triangles)] *)
  LoadOuterTriangles : Reader -> Z -> GeometryCodingParams -> list PointD * Z;
  (** an [indexer::MetadataDeserializer] *)
  MetadataDeserializer : Type;
  (** [deserializer->Get(index, meta)] and [GetIds(index, ids)]: how the
      call ends, and [meta] (passed by reference) as the call leaves it,
      whether it returns or throws *)
  Deserializer_Get : MetadataDeserializer -> Z -> Metadata -> Outcome * Metadata;
  Deserializer_GetIds : MetadataDeserializer -> Z -> MetaIds -> Outcome * MetaIds
}.

Section Decoder.
Context `{Externals}.

(** [feature::SharedLoadInfo], as far as the decoder reads it. *)
Record SharedLoadInfo := mkSharedLoadInfo {
  GetScalesCount : Z;
  GetLastScale : Z;
  GetScale : Z -> Z;
  GetDefGeometryCodingParams : GeometryCodingParams;
  GetGeometryCodingParams : Z -> GeometryCodingParams;
  GetGeometryReader : Z -> Reader;
  GetTrianglesReader : Z -> Reader
}.

Record FeatureType := mkFeatureType {
  (** [SharedLoadInfo const *]; null for a feature made from a MapObject *)
  m_loadInfo : option SharedLoadInfo;
  m_data : list Z;
  (** [indexer::MetadataDeserializer *]; null for a feature made from a
      MapObject *)
  m_metadataDeserializer : option MetadataDeserializer;
  m_header : Z;
  m_types : list Z;
  m_params : FeatureParamsBase StringUtf8Multilang HouseNumber RoadNumber;
  m_center : PointD;
  m_limitRect : RectD;
  m_points : list PointD;
  m_triangles : list PointD;
  m_metadata : Metadata;
  m_metaIds : MetaIds;
  (** [m_id.m_index] *)
  m_id : Z;
  m_parsed : Parsed.t;
  m_offsets : Offsets.t;
  m_ptsSimpMask : Z;
  m_innerStats : InnerGeomStat.t
}.

Definition set_m_types (v : list Z) (f : FeatureType) : FeatureType :=
  {| m_loadInfo := m_loadInfo f; m_data := m_data f;
     m_metadataDeserializer := m_metadataDeserializer f; m_header := m_header f;
     m_types := v; m_params := m_params f; m_center := m_center f;
     m_limitRect := m_limitRect f; m_points := m_points f;
     m_triangles := m_triangles f; m_metadata := m_metadata f;
     m_metaIds := m_metaIds f; m_id := m_id f; m_parsed := m_parsed f;
     m_offsets := m_offsets f; m_ptsSimpMask := m_ptsSimpMask f;
     m_innerStats := m_innerStats f |}.
Definition set_m_params
    (v : FeatureParamsBase StringUtf8Multilang HouseNumber RoadNumber) (f : FeatureType) : FeatureType :=
  {| m_loadInfo := m_loadInfo f; m_data := m_data f;
     m_metadataDeserializer := m_metadataDeserializer f; m_header := m_header f;
     m_types := m_types f; m_params := v; m_center := m_center f;
     m_limitRect := m_limitRect f; m_points := m_points f;
     m_triangles := m_triangles f; m_metadata := m_metadata f;
     m_metaIds := m_metaIds f; m_id := m_id f; m_parsed := m_parsed f;
     m_offsets := m_offsets f; m_ptsSimpMask := m_ptsSimpMask f;
     m_innerStats := m_innerStats f |}.
Definition set_m_center (v : PointD) (f : FeatureType) : FeatureType :=
  {| m_loadInfo := m_loadInfo f; m_data := m_data f;
     m_metadataDeserializer := m_metadataDeserializer f; m_header := m_header f;
     m_types := m_types f; m_params := m_params f; m_center := v;
     m_limitRect := m_limitRect f; m_points := m_points f;
     m_triangles := m_triangles f; m_metadata := m_metadata f;
     m_metaIds := m_metaIds f; m_id := m_id f; m_parsed := m_parsed f;
     m_offsets := m_offsets f; m_ptsSimpMask := m_ptsSimpMask f;
     m_innerStats := m_innerStats f |}.
Definition set_m_limitRect (v : RectD) (f : FeatureType) : FeatureType :=
  {| m_loadInfo := m_loadInfo f; m_data := m_data f;
     m_metadataDeserializer := m_metadataDeserializer f; m_header := m_header f;
     m_types := m_types f; m_params := m_params f; m_center := m_center f;
     m_limitRect := v; m_points := m_points f; m_triangles := m_triangles f;
     m_metadata := m_metadata f; m_metaIds := m_metaIds f; m_id := m_id f;
     m_parsed := m_parsed f; m_offsets := m_offsets f;
     m_ptsSimpMask := m_ptsSimpMask f; m_innerStats := m_innerStats f |}.
Definition set_m_points (v : list PointD) (f : FeatureType) : FeatureType :=
  {| m_loadInfo := m_loadInfo f; m_data := m_data f;
     m_metadataDeserializer := m_metadataDeserializer f; m_header := m_header f;
     m_types := m_types f; m_params := m_params f; m_center := m_center f;
     m_limitRect := m_limitRect f; m_points := v;
     m_triangles := m_triangles f; m_metadata := m_metadata f;
     m_metaIds := m_metaIds f; m_id := m_id f; m_parsed := m_parsed f;
     m_offsets := m_offsets f; m_ptsSimpMask := m_ptsSimpMask f;
     m_innerStats := m_innerStats f |}.
Definition set_m_triangles (v : list PointD) (f : FeatureType) : FeatureType :=
  {| m_loadInfo := m_loadInfo f; m_data := m_data f;
     m_metadataDeserializer := m_metadataDeserializer f; m_header := m_header f;
     m_types := m_types f; m_params := m_params f; m_center := m_center f;
     m_limitRect := m_limitRect f; m_points := m_points f; m_triangles := v;
     m_metadata := m_metadata f; m_metaIds := m_metaIds f; m_id := m_id f;
     m_parsed := m_parsed f; m_offsets := m_offsets f;
     m_ptsSimpMask := m_ptsSimpMask f; m_innerStats := m_innerStats f |}.
Definition set_m_metadata (v : Metadata) (f : FeatureType) : FeatureType :=
  {| m_loadInfo := m_loadInfo f; m_data := m_data f;
     m_metadataDeserializer := m_metadataDeserializer f; m_header := m_header f;
     m_types := m_types f; m_params := m_params f; m_center := m_center f;
     m_limitRect := m_limitRect f; m_points := m_points f;
     m_triangles := m_triangles f; m_metadata := v; m_metaIds := m_metaIds f;
     m_id := m_id f; m_parsed := m_parsed f; m_offsets := m_offsets f;
     m_ptsSimpMask := m_ptsSimpMask f; m_innerStats := m_innerStats f |}.
Definition set_m_metaIds (v : MetaIds) (f : FeatureType) : FeatureType :=
  {| m_loadInfo := m_loadInfo f; m_data := m_data f;
     m_metadataDeserializer := m_metadataDeserializer f; m_header := m_header f;
     m_types := m_types f; m_params := m_params f; m_center := m_center f;
     m_limitRect := m_limitRect f; m_points := m_points f;
     m_triangles := m_triangles f; m_metadata := m_metadata f;
     m_metaIds := v; m_id := m_id f; m_parsed := m_parsed f;
     m_offsets := m_offsets f; m_ptsSimpMask := m_ptsSimpMask f;
     m_innerStats := m_innerStats f |}.
Definition set_m_parsed (v : Parsed.t) (f : FeatureType) : FeatureType :=
  {| m_loadInfo := m_loadInfo f; m_data := m_data f;
     m_metadataDeserializer := m_metadataDeserializer f; m_header := m_header f;
     m_types := m_types f; m_params := m_params f; m_center := m_center f;
     m_limitRect := m_limitRect f; m_points := m_points f;
     m_triangles := m_triangles f; m_metadata := m_metadata f;
     m_metaIds := m_metaIds f; m_id := m_id f; m_parsed := v;
     m_offsets := m_offsets f; m_ptsSimpMask := m_ptsSimpMask f;
     m_innerStats := m_innerStats f |}.
Definition set_m_offsets (v : Offsets.t) (f : FeatureType) : FeatureType :=
  {| m_loadInfo := m_loadInfo f; m_data := m_data f;
     m_metadataDeserializer := m_metadataDeserializer f; m_header := m_header f;
     m_types := m_types f; m_params := m_params f; m_center := m_center f;
     m_limitRect := m_limitRect f; m_points := m_points f;
     m_triangles := m_triangles f; m_metadata := m_metadata f;
     m_metaIds := m_metaIds f; m_id := m_id f; m_parsed := m_parsed f;
     m_offsets := v; m_ptsSimpMask := m_ptsSimpMask f;
     m_innerStats := m_innerStats f |}.
Definition set_m_ptsSimpMask (v : Z) (f : FeatureType) : FeatureType :=
  {| m_loadInfo := m_loadInfo f; m_data := m_data f;
     m_metadataDeserializer := m_metadataDeserializer f; m_header := m_header f;
     m_types := m_types f; m_params := m_params f; m_center := m_center f;
     m_limitRect := m_limitRect f; m_points := m_points f;
     m_triangles := m_triangles f; m_metadata := m_metadata f;
     m_metaIds := m_metaIds f; m_id := m_id f; m_parsed := m_parsed f;
     m_offsets := m_offsets f; m_ptsSimpMask := v;
     m_innerStats := m_innerStats f |}.
Definition set_m_innerStats (v : InnerGeomStat.t) (f : FeatureType) : FeatureType :=
  {| m_loadInfo := m_loadInfo f; m_data := m_data f;
     m_metadataDeserializer := m_metadataDeserializer f; m_header := m_header f;
     m_types := m_types f; m_params := m_params f; m_center := m_center f;
     m_limitRect := m_limitRect f; m_points := m_points f;
     m_triangles := m_triangles f; m_metadata := m_metadata f;
     m_metaIds := m_metaIds f; m_id := m_id f; m_parsed := m_parsed f;
     m_offsets := m_offsets f; m_ptsSimpMask := m_ptsSimpMask f;
     m_innerStats := v |}.

(** *** [GetScaleIndex] *)

(** [for (int i = 0; i < count; ++i) if (scale <= loadInfo.GetScale(i)) return i;]
    with [fuel] iterations left; [None] when the loop runs out. *)
Fixpoint GetScaleIndexNoOffsets_for (li : SharedLoadInfo) (scale : Z)
    (fuel : nat) (i : Z) : option Z :=
  match fuel with
  | O => None
  | S fuel' =>
      if scale <=? GetScale li i then Some i
      else GetScaleIndexNoOffsets_for li scale fuel' (i + 1)
  end.

(** [GetScaleIndex(loadInfo, scale)], the overload without an offset table. *)
Definition GetScaleIndexNoOffsets (li : SharedLoadInfo) (scale : Z) : Z :=
  let count := GetScalesCount li in
  (* In case of WorldCoasts we should get correct last geometry. *)
  let lastScale := GetLastScale li in
  let scale := if scale >? lastScale then lastScale else scale in
  if scale =? WORST_GEOMETRY then 0
  else if scale =? BEST_GEOMETRY then count - 1
  else
    match GetScaleIndexNoOffsets_for li scale (Z.to_nat count) 0 with
    | Some i => i
    | None => -1
    end.

(** [ind = count - 1; while (ind >= 0 && offsets[ind] == kInvalidOffset) --ind;]
    at [ind = k - 1]. *)
Fixpoint GetScaleIndex_best (offsets : list Z) (k : nat) : Z :=
  match k with
  | O => -1
  | S k' =>
      if offsets !!! k' =? kInvalidOffset then GetScaleIndex_best offsets k'
      else Z.of_nat k'
  end.

(** [ind = 0; while (ind < count && offsets[ind] == kInvalidOffset) ++ind;]
    with [fuel = count - ind]. *)
Fixpoint GetScaleIndex_worst (offsets : list Z) (fuel : nat) (ind : nat) : Z :=
  match fuel with
  | O => Z.of_nat ind
  | S fuel' =>
      if offsets !!! ind =? kInvalidOffset
      then GetScaleIndex_worst offsets fuel' (S ind)
      else Z.of_nat ind
  end.

(** The [default:] loop: the first [i] with [scale <= GetScale(i)] decides,
    [offsets[i] != kInvalidOffset ? i : -1]; [None] when the loop runs out. *)
Fixpoint GetScaleIndex_for (li : SharedLoadInfo) (scale : Z) (offsets : list Z)
    (fuel : nat) (i : Z) : option (result Z) :=
  match fuel with
  | O => None
  | S fuel' =>
      if scale <=? GetScale li i then
        Some (match offsets !! Z.to_nat i with
              | Some o => Ok (if o =? kInvalidOffset then -1 else i)
              | None => Fail OutOfRange
              end)
      else GetScaleIndex_for li scale offsets fuel' (i + 1)
  end.

(** [GetScaleIndex(loadInfo, scale, offsets)] *)
Definition GetScaleIndex (li : SharedLoadInfo) (scale : Z) (offsets : list Z)
  : result Z :=
  let count := Z.of_nat (length offsets) in
  (* In case of WorldCoasts we should get correct last geometry. *)
  let lastScale := GetLastScale li in
  let scale := if scale >? lastScale then lastScale else scale in
  let after_switch (ind : Z) : result Z :=
    if (0 <=? ind) && (ind <? count) then Ok ind else Ok (-1) in
  if scale =? BEST_GEOMETRY then
    (* Choose the best existing geometry for the last visible scale. *)
    after_switch (GetScaleIndex_best offsets (length offsets))
  else if scale =? WORST_GEOMETRY then
    (* Choose the worst existing geometry for the first visible scale. *)
    after_switch (GetScaleIndex_worst offsets (length offsets) 0)
  else
    match GetScaleIndex_for li scale offsets (Z.to_nat (GetScalesCount li)) 0 with
    | Some r => r
    | None => after_switch (-1)
    end.

(** *** Byte-level helpers *)

(** [Header(data)]: [CHECK(!data.empty())], then [data[0]]. *)
Definition Header (data : list Z) : result Z :=
  match data with
  | [] => Fail CheckFailed
  | h :: _ => Ok h
  end.

(** A read through a raw pointer into [m_data]. *)
Definition deref (data : list Z) (p : nat) : result Z :=
  match data !! p with
  | Some b => Ok b
  | None => Fail OutOfRange
  end.

(** [vector::resize(n, x)] *)
Definition resize (n : nat) (x : Z) (l : list Z) : list Z :=
  take n l ++ replicate (n - length l) x.

(** The [while (mask > 0)] loop of [ReadOffsets]; [mask] is a [uint8_t], so
    eight iterations exhaust it. *)
Fixpoint ReadOffsets_while (data : list Z) (fuel : nat) (src : nat) (mask : Z)
    (ind : nat) (offsets : list Z) : result (nat * list Z) :=
  match fuel with
  | O => Ok (src, offsets)
  | S fuel' =>
      if mask >? 0 then
        '(src, offsets) ←
          (if Z.land mask 1 =? 0 then Ok (src, offsets)
           else
             let '(v, src') := ReadVarUint32 data src in
             if (ind <? length offsets)%nat then Ok (src', <[ind := v]> offsets)
             else Fail OutOfRange);
        ReadOffsets_while data fuel' src (Z.shiftr mask 1) (S ind) offsets
      else Ok (src, offsets)
  end.

(** [ReadOffsets(loadInfo, src, mask, offsets)] *)
Definition ReadOffsets (li : SharedLoadInfo) (data : list Z) (src : nat)
    (mask : Z) (offsets : list Z) : result (nat * list Z) :=
  let offsets := resize (Z.to_nat (GetScalesCount li)) kInvalidOffset offsets in
  ReadOffsets_while data 8 src mask 0 offsets.

(** [class BitSource] over [m_data]. *)
Record BitSource := mkBitSource { m_ptr : nat; m_pos : Z }.

(** [BitSource::Read(count)] *)
Definition BitSource_Read (data : list Z) (bs : BitSource) (count : Z)
  : result (Z * BitSource) :=
  v ← deref data (m_ptr bs);
  let v := Z.shiftr v (m_pos bs) in
  let v := Z.land v (Z.shiftl 1 count - 1) in
  let pos := to_uint8 (m_pos bs + count) in
  if pos >=? 8 then Ok (v, mkBitSource (S (m_ptr bs)) 0)
  else Ok (v, mkBitSource (m_ptr bs) pos).

(** [BitSource::RoundPtr()] *)
Definition BitSource_RoundPtr (bs : BitSource) : nat :=
  if m_pos bs >? 0 then S (m_ptr bs) else m_ptr bs.

(** [ReadByte(src)] *)
Definition ReadByte (data : list Z) (src : nat) : result (Z * nat) :=
  b ← deref data src; Ok (b, S src).

(** *** Construction *)

(** [FeatureType(loadInfo, buffer, metadataDeserializer)]: the members not
    named by the constructor take their default values. *)
Definition FeatureType_new (loadInfo : option SharedLoadInfo) (buffer : list Z)
    (metadataDeserializer : option MetadataDeserializer) (id : Z)
  : result FeatureType :=
  match loadInfo, metadataDeserializer with
  | Some _, Some _ =>
      h ← Header buffer;
      Ok {| m_loadInfo := loadInfo; m_data := buffer;
            m_metadataDeserializer := metadataDeserializer; m_header := h;
            m_types := replicate kMaxTypesCount 0;
            m_params := mkFeatureParamsBase StringUtf8Multilang_empty
                          HouseNumber_empty RoadNumber_empty 0 0;
            m_center := inhabitant; m_limitRect := RectD_empty;
            m_points := []; m_triangles := [];
            m_metadata := Metadata_empty; m_metaIds := MetaIds_empty;
            m_id := id; m_parsed := Parsed.init; m_offsets := Offsets.init;
            m_ptsSimpMask := 0; m_innerStats := InnerGeomStat.init |}
  | _, _ =>
      (* CHECK(m_loadInfo && m_metadataDeserializer, ()) *)
      Fail CheckFailed
  end.

(** [osm::MapObject], as far as the constructor reads it. *)
Record MapObject := mkMapObject {
  emo_GetGeomType : GeomType;
  emo_GetMercator : PointD;
  emo_GetPoints : list PointD;
  emo_GetTriangesAsPoints : list PointD;
  emo_GetNameMultilang : StringUtf8Multilang;
  (** [None] for an empty house number *)
  emo_GetHouseNumber : option HouseNumber;
  emo_GetMetadata : Metadata;
  emo_GetTypes : list Z;
  emo_GetID : Z
}.

(** [FeatureType(osm::MapObject const & emo)]: no load info, every stage
    marked parsed. *)
Definition FeatureType_ofMapObject (emo : MapObject) : result FeatureType :=
  let limitRect := RectD_empty in
  '(headerGeomType, center, points, triangles, limitRect) ←
    match emo_GetGeomType emo with
    | Undefined =>
        (* UNREACHABLE() *)
        Fail CheckFailed
    | Point =>
        Ok (HeaderGeomType_Point, emo_GetMercator emo, [], [],
            RectD_Add limitRect (emo_GetMercator emo))
    | Line =>
        Ok (HeaderGeomType_Line, inhabitant, emo_GetPoints emo, [],
            foldl RectD_Add limitRect (emo_GetPoints emo))
    | Area =>
        Ok (HeaderGeomType_Area, inhabitant, [], emo_GetTriangesAsPoints emo,
            foldl RectD_Add limitRect (emo_GetTriangesAsPoints emo))
    end;
  let params :=
    mkFeatureParamsBase (emo_GetNameMultilang emo)
      (default HouseNumber_empty (emo_GetHouseNumber emo)) RoadNumber_empty 0 0 in
  if (length (emo_GetTypes emo) <=? kMaxTypesCount)%nat then
    Ok {| m_loadInfo := None; m_data := []; m_metadataDeserializer := None;
          m_header := CalculateHeader (length (emo_GetTypes emo)) headerGeomType params;
          m_types := emo_GetTypes emo
                     ++ replicate (kMaxTypesCount - length (emo_GetTypes emo)) 0;
          m_params := params;
          m_center := center; m_limitRect := limitRect;
          m_points := points; m_triangles := triangles;
          m_metadata := emo_GetMetadata emo; m_metaIds := MetaIds_empty;
          m_id := emo_GetID emo;
          m_parsed := Parsed.mk true true true true true true true;
          m_offsets := Offsets.init;
          m_ptsSimpMask := 0; m_innerStats := InnerGeomStat.init |}
  else Fail CheckFailed.

(** [FeatureType::GetGeomType] *)
Definition GetGeomType (f : FeatureType) : GeomType :=
  let headerGeomType := Z.land (m_header f) HEADER_MASK_GEOMTYPE in
  if headerGeomType =? HeaderGeomType_Line then Line
  else if headerGeomType =? HeaderGeomType_Area then Area
  else Point.

(** [CHECK(m_loadInfo, ())] *)
Definition CHECK_loadInfo (f : FeatureType) : result SharedLoadInfo :=
  match m_loadInfo f with
  | Some li => Ok li
  | None => Fail CheckFailed
  end.

(** *** The parse stages *)

(** The loop of [ParseTypes] at index [i], [n] types left to read. *)
Fixpoint ParseTypes_for (data : list Z) (n : nat) (i : nat) (source : nat)
    (types : list Z) : result (nat * list Z) :=
  match n with
  | O => Ok (source, types)
  | S n' =>
      let '(index, source) := ReadVarUint32 data source in
      let type := GetTypeForIndex index in
      (* Possible for newer MWMs with added types. *)
      let v := if type >? 0 then type else GetStubType in
      if (i <? length types)%nat
      then ParseTypes_for data n' (S i) source (<[i := v]> types)
      else Fail OutOfRange
  end.

(** [FeatureType::ParseTypes] *)
Definition ParseTypes (f : FeatureType) : result FeatureType :=
  if Parsed.m_types (m_parsed f) then Ok f
  else
    let typesOffset := 1%nat in
    let count := GetTypesCount (m_header f) in
    '(source, types) ← ParseTypes_for (m_data f) count 0 typesOffset (m_types f);
    let f := set_m_types types f in
    let f := set_m_offsets (Offsets.set_m_common source (m_offsets f)) f in
    Ok (set_m_parsed (Parsed.set_m_types true (m_parsed f)) f).

(** [FeatureType::ParseCommon] *)
Definition ParseCommon (f : FeatureType) : result FeatureType :=
  if Parsed.m_common (m_parsed f) then Ok f
  else
    li ← CHECK_loadInfo f;
    f ← ParseTypes f;
    let source := Offsets.m_common (m_offsets f) in
    h ← Header (m_data f);
    let '(params, source) := Params_Read (m_params f) (m_data f) source h in
    let f := set_m_params params f in
    let '(f, source) :=
      if decide (GetGeomType f = Point) then
        let '(center, source) :=
          LoadPoint (m_data f) source (GetDefGeometryCodingParams li) in
        let f := set_m_center center f in
        (set_m_limitRect (RectD_Add (m_limitRect f) center) f, source)
      else (f, source) in
    let f := set_m_offsets (Offsets.set_m_header2 source (m_offsets f)) f in
    Ok (set_m_parsed (Parsed.set_m_common true (m_parsed f)) f).

(** [FeatureType::GetLayer] *)
Definition GetLayer (f : FeatureType) : result (Z * FeatureType) :=
  if Z.land (m_header f) HEADER_MASK_HAS_LAYER =? 0 then Ok (0, f)
  else
    f ← ParseCommon f;
    Ok (layer (m_params f), f).

(** The simplification-mask loop of [ParseHeader2]:
    [m_ptsSimpMask += (mask << (i << 3))] for [n] more bytes from byte [i]. *)
Fixpoint ParseHeader2_mask (data : list Z) (n : nat) (i : Z) (src : nat)
    (ptsSimpMask : Z) : result (nat * Z) :=
  match n with
  | O => Ok (src, ptsSimpMask)
  | S n' =>
      '(mask, src) ← ReadByte data src;
      let ptsSimpMask :=
        to_uint32 (ptsSimpMask + to_uint32 (Z.shiftl mask (Z.shiftl i 3))) in
      ParseHeader2_mask data n' (i + 1) src ptsSimpMask
  end.

(** [FeatureType::ParseHeader2] *)
Definition ParseHeader2 (f : FeatureType) : result FeatureType :=
  if Parsed.m_header2 (m_parsed f) then Ok f
  else
    li ← CHECK_loadInfo f;
    f ← ParseCommon f;
    let bitSource := mkBitSource (Offsets.m_header2 (m_offsets f)) 0 in
    h ← Header (m_data f);
    let headerGeomType := Z.land h HEADER_MASK_GEOMTYPE in
    '(ptsCount, ptsMask, trgCount, trgMask, bitSource) ←
      (if headerGeomType =? HeaderGeomType_Line then
         '(ptsCount, bitSource) ← BitSource_Read (m_data f) bitSource 4;
         if ptsCount =? 0 then
           (* A mask of outer geometry present. *)
           '(ptsMask, bitSource) ← BitSource_Read (m_data f) bitSource 4;
           Ok (ptsCount, ptsMask, 0, 0, bitSource)
         else Ok (ptsCount, 0, 0, 0, bitSource)
       else if headerGeomType =? HeaderGeomType_Area then
         '(trgCount, bitSource) ← BitSource_Read (m_data f) bitSource 4;
         if trgCount =? 0 then
           '(trgMask, bitSource) ← BitSource_Read (m_data f) bitSource 4;
           Ok (0, 0, trgCount, trgMask, bitSource)
         else Ok (0, 0, trgCount, 0, bitSource)
       else Ok (0, 0, 0, 0, bitSource));
    let src := BitSource_RoundPtr bitSource in
    let cp := GetDefGeometryCodingParams li in
    '(f, src) ←
      (if headerGeomType =? HeaderGeomType_Line then
         if ptsCount >? 0 then
           (* Inner geometry. *)
           let count := Z.quot ((ptsCount - 2) + 4 - 1) 4 in
           '(src, ptsSimpMask) ←
             ParseHeader2_mask (m_data f) (Z.to_nat count) 0 src (m_ptsSimpMask f);
           let f := set_m_ptsSimpMask ptsSimpMask f in
           let start := src in
           let '(pts, src) := LoadInnerPath (m_data f) start ptsCount cp in
           let f := set_m_points (m_points f ++ pts) f in
           let f :=
             set_m_innerStats
               (InnerGeomStat.set_m_points
                  (to_uint32 (Z.of_nat src - Z.of_nat start)) (m_innerStats f)) f in
           Ok (f, src)
         else
           (* Outer geometry: first point is stored in the header (coding params). *)
           let '(p, src) := LoadPoint (m_data f) src cp in
           let f := set_m_points (m_points f ++ [p]) f in
           '(src, pts) ←
             ReadOffsets li (m_data f) src ptsMask (Offsets.m_pts (m_offsets f));
           Ok (set_m_offsets (Offsets.set_m_pts pts (m_offsets f)) f, src)
       else if headerGeomType =? HeaderGeomType_Area then
         if trgCount >? 0 then
           let trgCount := to_uint8 (trgCount + 2) in
           let start := src in
           let '(trg, src) := LoadInnerTriangles (m_data f) start trgCount cp in
           let f := set_m_triangles (m_triangles f ++ trg) f in
           let f :=
             set_m_innerStats
               (InnerGeomStat.set_m_strips
                  (to_uint32 (Z.of_nat src - Z.of_nat start)) (m_innerStats f)) f in
           Ok (f, src)
         else
           '(src, trg) ←
             ReadOffsets li (m_data f) src trgMask (Offsets.m_trg (m_offsets f));
           Ok (set_m_offsets (Offsets.set_m_trg trg (m_offsets f)) f, src)
       else Ok (f, src));
    let f :=
      set_m_innerStats
        (InnerGeomStat.set_m_size (to_uint32 (Z.of_nat src)) (m_innerStats f)) f in
    Ok (set_m_parsed (Parsed.set_m_header2 true (m_parsed f)) f).

(** [FeatureType::ResetGeometry] *)
Definition ResetGeometry (f : FeatureType) : FeatureType :=
  match m_loadInfo f with
  | None =>
      (* Do not reset geometry for features created from MapObjects. *)
      f
  | Some _ =>
      let f := set_m_points [] f in
      let f := set_m_triangles [] f in
      let f :=
        if decide (GetGeomType f = Point) then f
        else set_m_limitRect RectD_empty f in
      let f :=
        set_m_parsed
          (Parsed.set_m_header2 false
             (Parsed.set_m_points false
                (Parsed.set_m_triangles false (m_parsed f)))) f in
      let f := set_m_offsets (Offsets.set_m_pts [] (m_offsets f)) f in
      let f := set_m_offsets (Offsets.set_m_trg [] (m_offsets f)) f in
      set_m_ptsSimpMask 0 f
  end.

(** The 2-bit marker of intermediate point [i] (1-based among all points):
    [(m_ptsSimpMask >> (2 * (i - 1))) & 0x3]. *)
Definition pointScaleAt (ptsSimpMask : Z) (i : nat) : Z :=
  Z.land (Z.shiftr ptsSimpMask (2 * (Z.of_nat i - 1))) 3.

(** The first loop of the inner-geometry filter, over [i = 1 .. count - 2]:
    the state is [(points, minScale)]. *)
Definition filterInner_step (stored : list PointD) (ptsSimpMask scaleIndex : Z)
    (st : list PointD * Z) (i : nat) : list PointD * Z :=
  let '(points, minScale) := st in
  (* Check for point visibility in needed scaleIndex. *)
  let pointScale := pointScaleAt ptsSimpMask i in
  if pointScale <=? scaleIndex then (points ++ [stored !!! i], minScale)
  else if (length points =? 1)%nat && (minScale >? pointScale)
       then (points, pointScale)
       else (points, minScale).

(** The fallback loop: every intermediate point at [minScale]. *)
Definition filterInner_fallback (stored : list PointD) (ptsSimpMask minScale : Z)
    (points : list PointD) (i : nat) : list PointD :=
  if pointScaleAt ptsSimpMask i =? minScale then points ++ [stored !!! i]
  else points.

(** The [else] branch of [ParseGeometry] for a line: filter inner geometry.
    [stored] is [m_points], of size [count >= 2]. *)
Definition filterInner (li : SharedLoadInfo) (scale : Z) (stored : list PointD)
    (ptsSimpMask : Z) : list PointD :=
  let count := length stored in
  let scaleIndex := GetScaleIndexNoOffsets li scale in
  let points := [stored !!! 0%nat] in
  let minScale := GetScalesCount li - 1 in
  let '(points, minScale) :=
    foldl (filterInner_step stored ptsSimpMask scaleIndex)
          (points, minScale) (seq 1 (count - 2)) in
  (* Fallback to a closest available geometry. *)
  let points :=
    if (length points =? 1)%nat
    then foldl (filterInner_fallback stored ptsSimpMask minScale)
               points (seq 1 (count - 2))
    else points in
  points ++ [stored !!! (count - 1)%nat].

(** [FeatureType::ParseGeometry]: the returned size and the feature. *)
Definition ParseGeometry (scale : Z) (f : FeatureType) : result (Z * FeatureType) :=
  if Parsed.m_points (m_parsed f) then Ok (0, f)
  else
    li ← CHECK_loadInfo f;
    f ← ParseHeader2 f;
    h ← Header (m_data f);
    let headerGeomType := Z.land h HEADER_MASK_GEOMTYPE in
    '(sz, f) ←
      (if headerGeomType =? HeaderGeomType_Line then
         let count := length (m_points f) in
         '(sz, f) ←
           (if (count <? 2)%nat then
              (* Outer geometry. *)
              ind ← GetScaleIndex li scale (Offsets.m_pts (m_offsets f));
              (* If there is no geometry for the requested scale, fallback to a
                 closest available one. *)
              ind ← (if ind =? -1
                     then GetScaleIndex li WORST_GEOMETRY (Offsets.m_pts (m_offsets f))
                     else Ok ind);
              if ind =? -1 then Ok (0, f)
              else
                let src := GetGeometryReader li ind in
                offset ← deref (Offsets.m_pts (m_offsets f)) (Z.to_nat ind);
                let cp := GetGeometryCodingParams li ind in
                p0 ← match m_points f with
                     | p :: _ => Ok p
                     | [] => Fail OutOfRange
                     end;
                let cp := SetBasePoint cp p0 in
                let '(pts, pos) := LoadOuterPath src offset cp in
                Ok (to_uint32 (pos - offset), set_m_points (m_points f ++ pts) f)
            else
              (* Filter inner geometry. *)
              Ok (0, set_m_points
                       (filterInner li scale (m_points f) (m_ptsSimpMask f)) f));
         Ok (sz, set_m_limitRect (CalcRect (m_points f) (m_limitRect f)) f)
       else Ok (0, f));
    Ok (sz, set_m_parsed (Parsed.set_m_points true (m_parsed f)) f).

(** [FeatureType::ParseTriangles] *)
Definition ParseTriangles (scale : Z) (f : FeatureType) : result (Z * FeatureType) :=
  if Parsed.m_triangles (m_parsed f) then Ok (0, f)
  else
    li ← CHECK_loadInfo f;
    f ← ParseHeader2 f;
    h ← Header (m_data f);
    let headerGeomType := Z.land h HEADER_MASK_GEOMTYPE in
    '(sz, f) ←
      (if headerGeomType =? HeaderGeomType_Area then
         '(sz, f) ←
           (match m_triangles f with
            | [] =>
                ind ← GetScaleIndex li scale (Offsets.m_trg (m_offsets f));
                if ind =? -1 then Ok (0, f)
                else
                  let src := GetTrianglesReader li ind in
                  offset ← deref (Offsets.m_trg (m_offsets f)) (Z.to_nat ind);
                  let '(trg, pos) :=
                    LoadOuterTriangles src offset (GetGeometryCodingParams li ind) in
                  Ok (to_uint32 (pos - offset),
                      set_m_triangles (m_triangles f ++ trg) f)
            | _ :: _ => Ok (0, f)
            end);
         Ok (sz, set_m_limitRect (CalcRect (m_triangles f) (m_limitRect f)) f)
       else Ok (0, f));
    Ok (sz, set_m_parsed (Parsed.set_m_triangles true (m_parsed f)) f).

(** [m_metadataDeserializer->]: a call through the pointer. *)
Definition deserializer (f : FeatureType) : result MetadataDeserializer :=
  match m_metadataDeserializer f with
  | Some d => Ok d
  | None => Fail NullPointer
  end.

(** [FeatureType::ParseMetadata]: [Get] writes to [m_metadata]; only
    [Reader::OpenException] is caught. *)
Definition ParseMetadata (f : FeatureType) : result FeatureType :=
  if Parsed.m_metadata (m_parsed f) then Ok f
  else
    _ ← CHECK_loadInfo f;
    d ← deserializer f;
    let '(outcome, meta) := Deserializer_Get d (m_id f) (m_metadata f) in
    let f := set_m_metadata meta f in
    match outcome with
    | Returned => Ok (set_m_parsed (Parsed.set_m_metadata true (m_parsed f)) f)
    | OpenException =>
        (* LOG(LERROR, "Error reading metadata") *)
        Ok (set_m_parsed (Parsed.set_m_metadata true (m_parsed f)) f)
    | OtherException => Fail Thrown
    end.

(** [FeatureType::ParseMetaIds]: as [ParseMetadata], with [GetIds] and
    [m_metaIds]. *)
Definition ParseMetaIds (f : FeatureType) : result FeatureType :=
  if Parsed.m_metaIds (m_parsed f) then Ok f
  else
    _ ← CHECK_loadInfo f;
    d ← deserializer f;
    let '(outcome, ids) := Deserializer_GetIds d (m_id f) (m_metaIds f) in
    let f := set_m_metaIds ids f in
    match outcome with
    | Returned => Ok (set_m_parsed (Parsed.set_m_metaIds true (m_parsed f)) f)
    | OpenException =>
        (* LOG(LERROR, "Error reading metadata") *)
        Ok (set_m_parsed (Parsed.set_m_metaIds true (m_parsed f)) f)
    | OtherException => Fail Thrown
    end.

(** [FeatureType::GetPointsCount] *)
Definition GetPointsCount (f : FeatureType) : nat := length (m_points f).

(** [FeatureType::GetPoint]: [m_points[i]]. *)
Definition GetPoint (i : nat) (f : FeatureType) : result PointD :=
  match m_points f !! i with
  | Some p => Ok p
  | None => Fail OutOfRange
  end.






(** [FeatureType::GetMetadata()] *)
Definition GetMetadata (f : FeatureType) : result (Metadata * FeatureType) :=
  f ← ParseMetadata f;
  Ok (m_metadata f, f).


(** [FeatureType::ParseGeometryAndTriangles] *)
Definition ParseGeometryAndTriangles (scale : Z) (f : FeatureType)
  : result FeatureType :=
  '(_, f) ← ParseGeometry scale f;
  '(_, f) ← ParseTriangles scale f;
  Ok f.

(** [FeatureType::IsEmptyGeometry] *)
Definition IsEmptyGeometry (scale : Z) (f : FeatureType)
  : result (bool * FeatureType) :=
  f ← ParseGeometryAndTriangles scale f;
  Ok (match GetGeomType f with
      | Area => match m_triangles f with [] => true | _ :: _ => false end
      | Line => match m_points f with [] => true | _ :: _ => false end
      | _ => false
      end, f).

(** [FeatureType::GetGeometrySize] *)
Definition GetGeometrySize (scale : Z) (f : FeatureType)
  : result (GeomStat.t * FeatureType) :=
  '(sz, f) ← ParseGeometry scale f;
  let sz :=
    if (sz =? 0) && negb (match m_points f with [] => true | _ :: _ => false end)
    then InnerGeomStat.m_points (m_innerStats f)
    else sz in
  Ok (GeomStat.mk sz (length (m_points f)), f).


(** *** Vocabulary of the properties *)

(** [offsets[i]] is present. *)
Definition populated (offsets : list Z) (i : Z) : Prop :=
  0 <= i /\ exists o, offsets !! Z.to_nat i = Some o /\ o <> kInvalidOffset.

(** The scale after [if (scale > lastScale) scale = lastScale]. *)
Definition clampScale (li : SharedLoadInfo) (scale : Z) : Z :=
  Z.min scale (GetLastScale li).

(** [i] is the smallest index of the container with [scale <= GetScale(i)]. *)
Definition first_covering (li : SharedLoadInfo) (scale i : Z) : Prop :=
  0 <= i < GetScalesCount li
  /\ scale <= GetScale li i
  /\ forall j, 0 <= j < i -> GetScale li j < scale.

(** The 2-bit markers of the intermediate points of [count] stored points,
    in order. *)
Definition markers (ptsSimpMask : Z) (count : nat) : list Z :=
  pointScaleAt ptsSimpMask <$> seq 1 (count - 2).

(** The intermediate points of a stored line. *)
Definition intermediates {A : Type} (stored : list A) : list A :=
  take (length stored - 2) (drop 1 stored).

(** The smallest element of a list of markers, [bound] when there is none
    below it. *)
Definition min_marker (bound : Z) (ms : list Z) : Z := foldr Z.min bound ms.

(** The inner-line filter in the words of the specification: the first and
    the last point are always emitted; an intermediate point is emitted iff
    its marker is at most [scaleIndex]; if that leaves only the two
    endpoints, every intermediate point whose marker equals the smallest
    marker is emitted. *)
Definition spec_filterInner (scaleIndex : Z) (first last : PointD)
    (mid : list (Z * PointD)) : list PointD :=
  let visible := filter (fun mp => mp.1 <= scaleIndex) mid in
  let kept :=
    match visible with
    | [] => filter (fun mp => mp.1 = min_marker 3 (fst <$> mid)) mid
    | _ :: _ => visible
    end in
  first :: (snd <$> kept) ++ [last].

(** The inner-line filter with the fallback the code has: when no
    intermediate point passes, the marker looked for is the smallest one
    that is at most [lastIndex], the last scale index of the container, so
    that nothing is re-included when every marker is above it. *)
Definition bounded_filterInner (lastIndex scaleIndex : Z) (first last : PointD)
    (mid : list (Z * PointD)) : list PointD :=
  let visible := filter (fun mp => mp.1 <= scaleIndex) mid in
  let kept :=
    match visible with
    | [] => filter (fun mp => mp.1 = min_marker lastIndex (fst <$> mid)) mid
    | _ :: _ => visible
    end in
  first :: (snd <$> kept) ++ [last].

(** The parsed flags respect the order of the stages: a stage is marked
    parsed only if the stage it starts with is. *)
Definition staged (f : FeatureType) : Prop :=
  (Parsed.m_common (m_parsed f) = true -> Parsed.m_types (m_parsed f) = true)
  /\ (Parsed.m_header2 (m_parsed f) = true -> Parsed.m_common (m_parsed f) = true)
  /\ (Parsed.m_points (m_parsed f) = true -> Parsed.m_header2 (m_parsed f) = true)
  /\ (Parsed.m_triangles (m_parsed f) = true ->
      Parsed.m_header2 (m_parsed f) = true).



End Decoder.
End Feature.

(** ** A container for the examples *)

Module FeatureExamples.
Import Feature.

(** Points are numbered; a rectangle is the list of the points added to it.
    Every reader of [m_data] decodes one byte per value; the outer path of
    level [r] has [r + 1] points.  The header byte
    has the geometry type in bits 0-1 (0 point, 1 line, 2 area) and the
    layer flag in bit 3; a feature has one type.  The metadata of feature
    [id] is [100 + id]; for the features 7 and 8 the deserializer adds one
    to the metadata it is given and throws, [Reader::OpenException] for 7
    and another exception for 8. *)
#[global] Instance toy : Externals := {|
  PointD := Z;
  PointD_inhabited := populate 0;
  RectD := list Z;
  RectD_empty := [];
  RectD_Add := fun r p => r ++ [p];
  CalcRect := fun pts r => r ++ pts;
  StringUtf8Multilang := unit;
  StringUtf8Multilang_empty := tt;
  HouseNumber := unit;
  HouseNumber_empty := tt;
  RoadNumber := unit;
  RoadNumber_empty := tt;
  Metadata := Z;
  Metadata_empty := 0;
  MetaIds := unit;
  MetaIds_empty := tt;
  GeometryCodingParams := Z;
  SetBasePoint := fun _ p => p;
  Reader := Z;
  HEADER_MASK_GEOMTYPE := 3;
  HEADER_MASK_HAS_LAYER := 8;
  HeaderGeomType_Point := 0;
  HeaderGeomType_Line := 1;
  HeaderGeomType_Area := 2;
  GetTypesCount := fun _ => 1%nat;
  kMaxTypesCount := 8%nat;
  CalculateHeader := fun _ g _ => g;
  Params_Read := fun p data pos h =>
    if Z.land h 8 =? 0 then (p, pos)
    else (mkFeatureParamsBase (name p) (house p) (ref p) (data !!! pos) (rank p),
          S pos);
  GetTypeForIndex := fun i => i;
  GetStubType := 1;
  ReadVarUint32 := fun data pos => (data !!! pos, S pos);
  LoadPoint := fun data pos _ => (data !!! pos, S pos);
  LoadInnerPath := fun data start count _ =>
    (take (Z.to_nat count) (drop start data), (start + Z.to_nat count)%nat);
  LoadInnerTriangles := fun data start count _ =>
    (take (Z.to_nat count) (drop start data), (start + Z.to_nat count)%nat);
  LoadOuterPath := fun r offset _ =>
    ((fun k => 100 * r + offset + k) <$> seqZ 0 (r + 1), offset + r + 1);
  LoadOuterTriangles := fun r offset _ =>
    ([100 * r + offset; 100 * r + offset + 1; 100 * r + offset + 2], offset + 3);
  MetadataDeserializer := unit;
  Deserializer_Get := fun _ id m =>
    if id =? 7 then (OpenException, m + 1)
    else if id =? 8 then (OtherException, m + 1)
    else (Returned, 100 + id);
  Deserializer_GetIds := fun _ _ ids => (Returned, ids)
|}.

(** Four geometry levels, for the scales 10, 12, 14 and 17. *)
Definition loadInfo4 : SharedLoadInfo := {|
  GetScalesCount := 4;
  GetLastScale := 17;
  GetScale := fun i => [10; 12; 14; 17] !!! Z.to_nat i;
  GetDefGeometryCodingParams := 0;
  GetGeometryCodingParams := fun i => i;
  GetGeometryReader := fun i => i;
  GetTrianglesReader := fun i => i
|}.

(** A line with inner geometry: header 1 (line), type 5, [ptsCount = 4], one
    mask byte with the markers 0 and 1, and the points 10, 11, 12, 13. *)
Definition innerLineData : list Z := [1; 5; 4; 4; 10; 11; 12; 13].

(** The same line with the markers 1 and 2. *)
Definition innerLineData12 : list Z := [1; 5; 4; 9; 10; 11; 12; 13].

(** A line with outer geometry: header 1, type 5, [ptsCount = 0] and the
    mask 0b0110 in one byte, the first point 10, and the offsets 7 and 9 of
    the levels 1 and 2. *)
Definition outerLineData : list Z := [1; 5; 96; 10; 7; 9].

(** A point with a layer: header 8, type 5, layer 2, the point 10. *)
Definition layeredPointData : list Z := [8; 5; 2; 10].

(** Two geometry levels, for the scales 10 and 17. *)
Definition loadInfo2 : SharedLoadInfo := {|
  GetScalesCount := 2;
  GetLastScale := 17;
  GetScale := fun i => [10; 17] !!! Z.to_nat i;
  GetDefGeometryCodingParams := 0;
  GetGeometryCodingParams := fun i => i;
  GetGeometryReader := fun i => i;
  GetTrianglesReader := fun i => i
|}.

(** The inner line with the markers 2 and 2. *)
Definition innerLineData22 : list Z := [1; 5; 4; 10; 10; 11; 12; 13].

(** The feature [FeatureType_new] makes of a non-empty buffer, a container
    and an index. *)
Definition loaded_in (li : SharedLoadInfo) (id : Z) (data : list Z)
  : FeatureType := {|
  m_loadInfo := Some li; m_data := data; m_metadataDeserializer := Some tt;
  m_header := default 0 (head data);
  m_types := replicate 8 0;
  m_params := mkFeatureParamsBase tt tt tt 0 0;
  m_center := 0; m_limitRect := []; m_points := []; m_triangles := [];
  m_metadata := 0; m_metaIds := tt; m_id := id;
  m_parsed := Parsed.init; m_offsets := Offsets.init;
  m_ptsSimpMask := 0; m_innerStats := InnerGeomStat.init
|}.

(** The feature 0 of the container with four levels. *)
Definition loaded (data : list Z) : FeatureType := loaded_in loadInfo4 0 data.

(** The points a parse of geometry leaves. *)
Definition points_of (r : result (Z * FeatureType)) : result (list Z) :=
  (fun x => m_points x.2) <$> r.

(** The offset table of [outerLineData]: levels 1 and 2 are present. *)
Definition offsets12 : list Z := [kInvalidOffset; 7; 9; kInvalidOffset].

(** A line edited by the user: no load info. *)
Definition editedLine : MapObject := {|
  emo_GetGeomType := Line;
  emo_GetMercator := 0;
  emo_GetPoints := [10; 11; 12];
  emo_GetTriangesAsPoints := [];
  emo_GetNameMultilang := tt;
  emo_GetHouseNumber := None;
  emo_GetMetadata := 0;
  emo_GetTypes := [5];
  emo_GetID := 1
|}.

(** An area with outer geometry: header 2 (area), type 5, [trgCount = 0] and
    the mask 0b0110 in one byte, and the offsets 7 and 9 of the levels 1
    and 2. *)
Definition outerAreaData : list Z := [2; 5; 96; 7; 9].

(** The triangles a parse leaves. *)
Definition triangles_of (r : result (Z * FeatureType)) : result (list Z) :=
  (fun x => m_triangles x.2) <$> r.

End FeatureExamples.

(** * Properties of the read manager *)

Module DfFacts.
Import Stl Df.

(** ** The order of tile keys *)

Lemma TileKey_ltb_irrefl k : TileKey_ltb k k = false.
Proof.
  unfold TileKey_ltb.
  repeat (case_decide || case_bool_decide); (done || lia).
Qed.

Lemma TileKey_ltb_trans a b c :
  TileKey_ltb a b = true -> TileKey_ltb b c = true -> TileKey_ltb a c = true.
Proof.
  unfold TileKey_ltb.
  repeat (case_decide || case_bool_decide); intros; (done || lia).
Qed.

Lemma TileKey_ltb_total a b :
  TileKey_ltb a b = false -> TileKey_ltb b a = false -> a = b.
Proof.
  unfold TileKey_ltb. destruct a, b; simpl.
  repeat (case_decide || case_bool_decide); intros; subst;
    try done; try lia; f_equal; lia.
Qed.

Lemma TileKey_ltb_asym a b : TileKey_ltb a b = true -> TileKey_ltb b a = false.
Proof.
  intros Hab. destruct (TileKey_ltb b a) eqn:Hba; [|done].
  pose proof (TileKey_ltb_trans _ _ _ Hab Hba) as Haa.
  by rewrite TileKey_ltb_irrefl in Haa.
Qed.

#[local] Instance TileKey_lt_trans : Transitive TileKey_lt.
Proof. intros a b c. apply TileKey_ltb_trans. Qed.

Lemma TileKey_lt_neq a b : TileKey_lt a b -> a <> b.
Proof. intros Hlt ->. red in Hlt. by rewrite TileKey_ltb_irrefl in Hlt. Qed.

Lemma sorted_keys_cons k l :
  sorted_keys (k :: l) <-> Forall (TileKey_lt k) l /\ sorted_keys l.
Proof.
  split.
  - intros Hs. apply StronglySorted_inv in Hs. tauto.
  - intros [??]. by constructor.
Qed.

Lemma sorted_keys_head_notin k l : sorted_keys (k :: l) -> k ∉ l.
Proof.
  intros [Hk _]%sorted_keys_cons Hin.
  rewrite Forall_forall in Hk. by apply (TileKey_lt_neq k k); [apply Hk|].
Qed.

Lemma sorted_keys_NoDup l : sorted_keys l -> NoDup l.
Proof.
  induction l as [|k l IH]; [constructor|].
  intros Hs. constructor; [by apply sorted_keys_head_notin|].
  apply IH. by apply sorted_keys_cons in Hs as [_ ?].
Qed.

(** Two sets with the same members iterate in the same order. *)
Lemma sorted_keys_ext l1 l2 :
  sorted_keys l1 -> sorted_keys l2 -> (forall k, k ∈ l1 <-> k ∈ l2) -> l1 = l2.
Proof.
  revert l2. induction l1 as [|a l1 IH]; intros [|b l2] H1 H2 Hext.
  - done.
  - exfalso. eapply not_elem_of_nil, Hext. left.
  - exfalso. eapply not_elem_of_nil, Hext. left.
  - pose proof H1 as [Ha H1']%sorted_keys_cons.
    pose proof H2 as [Hb H2']%sorted_keys_cons.
    rewrite Forall_forall in Ha, Hb.
    assert (a = b) as ->.
    { assert (a ∈ b :: l2) as Hab by (apply Hext; left).
      assert (b ∈ a :: l1) as Hba by (apply Hext; left).
      apply elem_of_cons in Hab as [?|Hab]; [done|].
      apply elem_of_cons in Hba as [?|Hba]; [done|].
      apply Hb in Hab. apply Ha in Hba.
      apply TileKey_ltb_asym in Hab. red in Hba. congruence. }
    f_equal. apply IH; [done..|].
    intros k. split; intros Hk.
    + assert (k ∈ b :: l2) as [->|?]%elem_of_cons by (apply Hext; by right);
        [|done].
      by apply sorted_keys_head_notin in H1.
    + assert (k ∈ b :: l1) as [->|?]%elem_of_cons by (apply Hext; by right);
        [|done].
      by apply sorted_keys_head_notin in H2.
Qed.

Lemma sorted_keys_filter (P : TileKey -> Prop) `{!forall k, Decision (P k)} l :
  sorted_keys l -> sorted_keys (filter P l).
Proof.
  induction l as [|k l IH]; [done|].
  intros [Hk Hl]%sorted_keys_cons. rewrite filter_cons.
  case_decide; [|by apply IH].
  apply sorted_keys_cons. split; [|by apply IH].
  rewrite Forall_forall in Hk. apply Forall_forall.
  intros x [_ ?]%list_elem_of_filter. by apply Hk.
Qed.

Lemma filter_all {A} (P : A -> Prop) `{!forall x, Decision (P x)} (l : list A) :
  Forall P l -> filter P l = l.
Proof.
  induction 1 as [|x l HP _ IH]; [done|].
  by rewrite filter_cons_True, IH.
Qed.

(** ** [std::set] over keys *)

Lemma set_insert_elem_of k x s :
  x ∈ set_insert TileKey_ltb k s <-> x = k \/ x ∈ s.
Proof.
  induction s as [|y s IH]; simpl.
  - set_solver.
  - destruct (TileKey_ltb k y) eqn:Hky; [set_solver|].
    destruct (TileKey_ltb y k) eqn:Hyk.
    + rewrite elem_of_cons, IH. set_solver.
    + pose proof (TileKey_ltb_total _ _ Hky Hyk). set_solver.
Qed.

Lemma set_insert_sorted k s :
  sorted_keys s -> sorted_keys (set_insert TileKey_ltb k s).
Proof.
  induction s as [|y s IH]; simpl; intros Hs.
  - repeat constructor.
  - pose proof Hs as [Hy Hs']%sorted_keys_cons.
    destruct (TileKey_ltb k y) eqn:Hky.
    + apply sorted_keys_cons. split; [|done].
      constructor; [done|].
      eapply Forall_impl; [exact Hy|]. intros z Hz. by etrans.
    + destruct (TileKey_ltb y k) eqn:Hyk; [|done].
      apply sorted_keys_cons. split; [|by apply IH].
      apply Forall_forall. intros z [->|Hz]%set_insert_elem_of; [done|].
      rewrite Forall_forall in Hy. by apply Hy.
Qed.

(** Inserting a key the set has leaves it as it is. *)
Lemma set_insert_present k s :
  sorted_keys s -> k ∈ s -> set_insert TileKey_ltb k s = s.
Proof.
  intros Hs Hk. apply sorted_keys_ext; [by apply set_insert_sorted|done|].
  intros x. rewrite set_insert_elem_of. set_solver.
Qed.

(** ** Sets and ranges ordered through a key *)

Lemma filter_ext_in {A} (P Q : A -> Prop)
    `{!forall x, Decision (P x), !forall x, Decision (Q x)} (l : list A) :
  (forall x, x ∈ l -> (P x <-> Q x)) -> filter P l = filter Q l.
Proof.
  induction l as [|a l IH]; intros Hext; [done|].
  rewrite !filter_cons.
  rewrite IH by (intros x Hx; apply Hext; by right).
  destruct (decide (P a)) as [HP|HP], (decide (Q a)) as [HQ|HQ]; try done;
    exfalso; apply (Hext a) in HP || apply (Hext a) in HQ; try done; by left.
Qed.

Lemma fmap_filter_key {A} (key : A -> TileKey) (P : TileKey -> Prop)
    (Q : A -> Prop) `{!forall k, Decision (P k), !forall a, Decision (Q a)}
    (l : list A) :
  (forall a, Q a <-> P (key a)) ->
  key <$> filter Q l = filter P (key <$> l).
Proof.
  intros HQP. induction l as [|a l IH]; [done|].
  rewrite fmap_cons, !filter_cons.
  destruct (decide (Q a)) as [HQ|HQ], (decide (P (key a))) as [HP|HP].
  - by rewrite fmap_cons, IH.
  - by apply HQP in HQ.
  - by apply HQP in HP.
  - done.
Qed.

(** [std::set::insert] adds at most the element given. *)
Lemma set_insert_subseteq {A} (lt : A -> A -> bool) x s y :
  y ∈ set_insert lt x s -> y = x \/ y ∈ s.
Proof.
  induction s as [|z s IH]; simpl.
  - set_solver.
  - destruct (lt x z); [set_solver|].
    destruct (lt z x); [|set_solver].
    rewrite elem_of_cons. intros [->|Hy]; [set_solver|].
    apply IH in Hy. set_solver.
Qed.

Lemma foldl_set_insert_spec ks s :
  sorted_keys s ->
  sorted_keys (foldl (fun s k => set_insert TileKey_ltb k s) s ks)
  /\ (forall x, x ∈ foldl (fun s k => set_insert TileKey_ltb k s) s ks
                <-> x ∈ s \/ x ∈ ks).
Proof.
  revert s. induction ks as [|k ks IH]; intros s Hs; simpl.
  - split; [done|]. set_solver.
  - destruct (IH (set_insert TileKey_ltb k s)) as [Hsort Hmem];
      [by apply set_insert_sorted|].
    split; [done|]. intros x. rewrite Hmem, set_insert_elem_of. set_solver.
Qed.

Lemma sorted_keys_fmap_cons {A} (key : A -> TileKey) a l :
  sorted_keys (key <$> a :: l) ->
  (forall x, x ∈ l -> TileKey_ltb (key a) (key x) = true)
  /\ sorted_keys (key <$> l).
Proof.
  rewrite fmap_cons. intros [Ha Hl]%sorted_keys_cons. split; [|done].
  rewrite Forall_fmap, Forall_forall in Ha. exact Ha.
Qed.

Lemma sorted_keys_fmap_filter {A} (key : A -> TileKey) (Q : A -> Prop)
    `{!forall a, Decision (Q a)} (l : list A) :
  sorted_keys (key <$> l) -> sorted_keys (key <$> filter Q l).
Proof.
  induction l as [|a l IH]; [done|].
  intros [Ha Hl]%sorted_keys_fmap_cons. rewrite filter_cons.
  case_decide; [|by apply IH].
  rewrite fmap_cons. apply sorted_keys_cons. split; [|by apply IH].
  rewrite Forall_fmap. apply Forall_forall.
  intros x [_ Hx]%list_elem_of_filter. by apply Ha.
Qed.

Section Keyed.
Context {A : Type} (key : A -> TileKey).

Lemma set_insert_keys x s :
  key <$> set_insert (key_lt key) x s = set_insert TileKey_ltb (key x) (key <$> s).
Proof.
  induction s as [|y s IH]; [done|].
  simpl. unfold key_lt at 1 2.
  destruct (TileKey_ltb (key x) (key y)); [done|].
  destruct (TileKey_ltb (key y) (key x)); [|done].
  by rewrite fmap_cons, IH.
Qed.

(** A tile whose key is new to the set is inserted. *)
Lemma set_insert_fresh x s :
  key x ∉ key <$> s -> set_insert (key_lt key) x s ≡ₚ x :: s.
Proof.
  induction s as [|y s IH]; [done|].
  rewrite fmap_cons, not_elem_of_cons. intros [Hne Hnin].
  simpl. unfold key_lt at 1 2.
  destruct (TileKey_ltb (key x) (key y)) eqn:Hxy; [done|].
  destruct (TileKey_ltb (key y) (key x)) eqn:Hyx.
  - rewrite IH by done. apply Permutation_swap.
  - by pose proof (TileKey_ltb_total _ _ Hxy Hyx).
Qed.

Lemma set_erase_filter x s :
  sorted_keys (key <$> s) ->
  set_erase (key_lt key) x s = filter (fun y => key y <> key x) s.
Proof.
  induction s as [|y s IH]; [done|].
  rewrite fmap_cons. intros Hs. cbn [set_erase].
  pose proof Hs as [Hy Hs']%sorted_keys_cons.
  rewrite Forall_fmap, Forall_forall in Hy.
  rewrite filter_cons. unfold key_lt at 1 2.
  destruct (TileKey_ltb (key x) (key y)) eqn:Hxy.
  - rewrite decide_True
      by (intros Heq; rewrite Heq, TileKey_ltb_irrefl in Hxy; done).
    f_equal. symmetry. apply filter_all, Forall_forall.
    intros z Hz Heq. apply Hy in Hz. simpl in Hz. red in Hz.
    rewrite Heq in Hz. apply TileKey_ltb_asym in Hz. congruence.
  - destruct (TileKey_ltb (key y) (key x)) eqn:Hyx.
    + rewrite decide_True
        by (intros Heq; rewrite Heq, TileKey_ltb_irrefl in Hyx; done).
      by rewrite IH.
    + pose proof (TileKey_ltb_total _ _ Hxy Hyx) as Heq.
      rewrite decide_False by (intros Hne; by apply Hne).
      symmetry. apply filter_all, Forall_forall.
      intros z Hz Hzx. apply Hy in Hz. simpl in Hz.
      apply TileKey_lt_neq in Hz. congruence.
Qed.
End Keyed.

(** [std::set_difference] on two ranges sorted by key is the difference by
    key. *)
Lemma set_difference_filter {A B} (ka : A -> TileKey) (kb : B -> TileKey)
    (l1 : list A) (l2 : list B) :
  sorted_keys (ka <$> l1) -> sorted_keys (kb <$> l2) ->
  set_difference (fun a b => TileKey_ltb (ka a) (kb b))
                 (fun b a => TileKey_ltb (kb b) (ka a)) l1 l2
  = filter (fun a => ka a ∉ kb <$> l2) l1.
Proof.
  revert l2. induction l1 as [|a l1 IH1]; intros l2 H1 H2.
  { by destruct l2. }
  pose proof H1 as [Ha H1']%sorted_keys_fmap_cons.
  induction l2 as [|b l2 IH2].
  { simpl. symmetry. apply filter_all, Forall_forall. intros x _. set_solver. }
  pose proof H2 as [Hb H2']%sorted_keys_fmap_cons.
  cbn [set_difference].
  destruct (TileKey_ltb (ka a) (kb b)) eqn:Hab.
  - rewrite IH1 by done. rewrite filter_cons_True; [done|].
    rewrite fmap_cons. intros [Heq|(y & Heq & Hy)%list_elem_of_fmap]%elem_of_cons.
    + rewrite Heq, TileKey_ltb_irrefl in Hab. done.
    + apply Hb in Hy. simpl in Hy. rewrite <- Heq in Hy.
      apply TileKey_ltb_asym in Hy. congruence.
  - destruct (TileKey_ltb (kb b) (ka a)) eqn:Hba.
    + change (set_difference (fun a b => TileKey_ltb (ka a) (kb b))
                (fun b a => TileKey_ltb (kb b) (ka a)) (a :: l1) l2
              = filter (fun a0 => ka a0 ∉ kb <$> b :: l2) (a :: l1)).
      rewrite IH2 by done. apply filter_ext_in.
      intros x Hx. rewrite fmap_cons, not_elem_of_cons.
      assert (ka x <> kb b); [|tauto].
      intros Heq. apply elem_of_cons in Hx as [->|Hx].
      * rewrite Heq, TileKey_ltb_irrefl in Hba. done.
      * apply Ha in Hx. simpl in Hx. rewrite Heq in Hx.
        apply TileKey_ltb_asym in Hx. congruence.
    + pose proof (TileKey_ltb_total _ _ Hab Hba) as Heq.
      rewrite IH1 by done.
      rewrite filter_cons_False by (rewrite fmap_cons, Heq; set_solver).
      apply filter_ext_in. intros x Hx.
      rewrite fmap_cons, not_elem_of_cons.
      assert (ka x <> kb b); [|tauto].
      apply Ha in Hx. simpl in Hx. apply TileKey_lt_neq in Hx. congruence.
Qed.

(** ** The manager's state *)

Section ManagerFacts.
Context {ScreenBase : Type} `{ScreenOps ScreenBase}.

Lemma GetTileKey_alter store p q :
  GetTileKey (alter TileInfo_Cancel p store) q = GetTileKey store q.
Proof.
  unfold GetTileKey. destruct (decide (p = q)) as [->|Hne].
  - rewrite list_lookup_alter_eq. by destruct (store !! q).
  - by rewrite list_lookup_alter_ne.
Qed.

Lemma GetTileKey_app store ext q :
  (q < length store)%nat -> GetTileKey (store ++ ext) q = GetTileKey store q.
Proof. intros Hq. unfold GetTileKey. by rewrite lookup_app_l. Qed.

Lemma GetTileKey_new store k ext :
  GetTileKey (store ++ mkTileInfo k false :: ext) (length store) = k.
Proof.
  unfold GetTileKey. rewrite lookup_app_r by lia.
  by rewrite Nat.sub_diag.
Qed.

Lemma cancel_all_length l store : length (cancel_all l store) = length store.
Proof.
  revert store. induction l as [|p l IH]; intros store; [done|].
  unfold cancel_all in *. simpl. by rewrite IH, length_alter.
Qed.

Lemma cancel_all_key l store q :
  GetTileKey (cancel_all l store) q = GetTileKey store q.
Proof.
  revert store. induction l as [|p l IH]; intros store; [done|].
  unfold cancel_all in *. simpl. by rewrite IH, GetTileKey_alter.
Qed.

(** Exactly the tiles of [l] are cancelled; a flag once raised stays. *)
Lemma cancel_all_lookup l store q :
  cancel_all l store !! q
  = (fun t => if bool_decide (q ∈ l) then TileInfo_Cancel t else t) <$> store !! q.
Proof.
  revert store. induction l as [|p l IH]; intros store.
  - simpl. by destruct (store !! q).
  - unfold cancel_all in *. simpl. rewrite IH.
    destruct (decide (p = q)) as [->|Hne].
    + rewrite list_lookup_alter_eq.
      destruct (store !! q) as [t|]; simpl; [|done].
      rewrite (bool_decide_eq_true_2 (q ∈ q :: l)) by left.
      by case_bool_decide.
    + rewrite list_lookup_alter_ne by done.
      destruct (store !! q); simpl; [|done].
      repeat case_bool_decide; set_solver.
Qed.

Lemma live_keys_ext (store1 store2 : list TileInfo) (l : list tileinfo_ptr) :
  (forall p, p ∈ l -> GetTileKey store1 p = GetTileKey store2 p) ->
  GetTileKey store1 <$> l = GetTileKey store2 <$> l.
Proof.
  intros Hext. apply list_fmap_ext. intros i p Hp.
  apply Hext. by eapply list_elem_of_lookup_2.
Qed.

(** *** [GetTileKeys] builds a set *)

Lemma foldl_set_insert_if_sorted {X} (cond : X -> bool) (mk : X -> TileKey) l out :
  sorted_keys out ->
  sorted_keys
    (foldl (fun out x => if cond x then set_insert TileKey_ltb (mk x) out else out)
           out l).
Proof.
  revert out. induction l as [|x l IH]; intros out Hs; [done|].
  simpl. apply IH. destruct (cond x); [by apply set_insert_sorted|done].
Qed.

Lemma GetTileKeys_sorted screen : sorted_keys (GetTileKeys screen).
Proof.
  unfold GetTileKeys.
  generalize (seqZ (ClipMinTileY screen (GetTileScaleBase screen))
                (ClipMaxTileY screen (GetTileScaleBase screen)
                 - ClipMinTileY screen (GetTileScaleBase screen))).
  intros ys.
  assert (sorted_keys []) as Hnil by constructor.
  revert Hnil. generalize (@nil TileKey).
  induction ys as [|y ys IH]; intros out Hs; [done|].
  simpl. apply IH.
  by apply (foldl_set_insert_if_sorted
              (fun tileX => TileIsIntersect screen tileX y (GetTileScaleBase screen))
              (fun tileX => mkTileKey tileX y (GetTileScaleBase screen))).
Qed.

(** *** The loops of [UpdateCoverage] *)

Lemma foldl_CancelTileInfo l (rm : ReadManager ScreenBase) :
  foldl CancelTileInfo rm l
  = {| m_currentViewport := m_currentViewport rm;
       m_tileInfos := m_tileInfos rm;
       m_pool := m_pool rm;
       m_store := cancel_all l (m_store rm) |}.
Proof.
  revert rm. induction l as [|p l IH]; intros rm; [by destruct rm|].
  simpl. by rewrite IH.
Qed.

Lemma foldl_PushTaskFront l (rm : ReadManager ScreenBase) :
  foldl PushTaskFront rm l
  = {| m_currentViewport := m_currentViewport rm;
       m_tileInfos := m_tileInfos rm;
       m_pool := reverse (mkReadMWMTask <$> l) ++ m_pool rm;
       m_store := m_store rm |}.
Proof.
  revert rm. induction l as [|p l IH]; intros rm; [by destruct rm|].
  simpl. rewrite IH. simpl. f_equal.
  rewrite reverse_cons, <- app_assoc. done.
Qed.

Lemma foldl_ClearTileInfo l (rm : ReadManager ScreenBase) :
  wf rm ->
  foldl ClearTileInfo rm l
  = {| m_currentViewport := m_currentViewport rm;
       m_tileInfos :=
         filter (fun q => GetTileKey (m_store rm) q
                          ∉ GetTileKey (m_store rm) <$> l) (m_tileInfos rm);
       m_pool := m_pool rm;
       m_store := cancel_all l (m_store rm) |}.
Proof.
  revert rm. induction l as [|p l IH]; intros rm [Hval Hsort].
  - simpl. destruct rm; simpl. f_equal. symmetry. apply filter_all.
    apply Forall_forall. intros x _. set_solver.
  - simpl.
    assert (m_tileInfos (ClearTileInfo rm p)
            = filter (fun q => GetTileKey (m_store rm) q <> GetTileKey (m_store rm) p)
                     (m_tileInfos rm)) as Herase.
    { unfold ClearTileInfo, CancelTileInfo. simpl.
      change (LessByTileKey ?st) with (key_lt (GetTileKey st)).
      rewrite set_erase_filter.
      - apply list_filter_iff. intros q. by rewrite !GetTileKey_alter.
      - unfold live_keys in Hsort.
        erewrite live_keys_ext; [exact Hsort|].
        intros q _. apply GetTileKey_alter. }
    assert (m_store (ClearTileInfo rm p) = alter TileInfo_Cancel p (m_store rm))
      as Hstore by done.
    rewrite IH.
    + rewrite Herase, Hstore. simpl. f_equal.
      rewrite list_filter_filter. apply list_filter_iff. intros q.
      rewrite GetTileKey_alter, not_elem_of_cons.
      rewrite (live_keys_ext (alter TileInfo_Cancel p (m_store rm)) (m_store rm) l)
        by (intros ??; apply GetTileKey_alter).
      split; intros [??]; split; done.
    + split.
      * rewrite Herase, Hstore, length_alter.
        rewrite Forall_forall in Hval. apply Forall_forall.
        intros q [_ Hq]%list_elem_of_filter. by apply Hval.
      * unfold live_keys. rewrite Herase, Hstore.
        erewrite live_keys_ext by (intros ??; apply GetTileKey_alter).
        by apply sorted_keys_fmap_filter.
Qed.

Lemma PushTaskBackForTileKey_step k (rm : ReadManager ScreenBase) :
  Forall (fun p => (p < length (m_store rm))%nat) (m_tileInfos rm) ->
  live_keys (PushTaskBackForTileKey rm k)
  = set_insert TileKey_ltb k (live_keys rm)
  /\ Forall (fun p => (p < length (m_store (PushTaskBackForTileKey rm k)))%nat)
            (m_tileInfos (PushTaskBackForTileKey rm k))
  /\ (k ∉ live_keys rm ->
      m_tileInfos (PushTaskBackForTileKey rm k)
      ≡ₚ length (m_store rm) :: m_tileInfos rm).
Proof.
  intros Hval. rewrite Forall_forall in Hval.
  assert (GetTileKey (m_store rm ++ [mkTileInfo k false]) <$> m_tileInfos rm
          = live_keys rm) as Hkeys.
  { apply live_keys_ext. intros p Hp. apply GetTileKey_app. by apply Hval. }
  unfold live_keys, PushTaskBackForTileKey. simpl.
  change (LessByTileKey ?st) with (key_lt (GetTileKey st)).
  split_and!.
  - by rewrite set_insert_keys, GetTileKey_new, Hkeys.
  - apply Forall_forall. intros p [->|Hp]%set_insert_subseteq.
    + rewrite length_app. simpl. lia.
    + rewrite length_app. apply Hval in Hp. lia.
  - intros Hk. apply set_insert_fresh.
    by rewrite GetTileKey_new, Hkeys.
Qed.

Lemma foldl_PushTaskBackForTileKey ks (rm : ReadManager ScreenBase) :
  Forall (fun p => (p < length (m_store rm))%nat) (m_tileInfos rm) ->
  m_currentViewport (foldl PushTaskBackForTileKey rm ks) = m_currentViewport rm
  /\ m_store (foldl PushTaskBackForTileKey rm ks)
     = m_store rm ++ ((fun k => mkTileInfo k false) <$> ks)
  /\ m_pool (foldl PushTaskBackForTileKey rm ks)
     = m_pool rm ++ (mkReadMWMTask <$> seq (length (m_store rm)) (length ks))
  /\ live_keys (foldl PushTaskBackForTileKey rm ks)
     = foldl (fun s k => set_insert TileKey_ltb k s) (live_keys rm) ks
  /\ Forall (fun p => (p < length (m_store (foldl PushTaskBackForTileKey rm ks)))%nat)
            (m_tileInfos (foldl PushTaskBackForTileKey rm ks))
  /\ (NoDup ks -> (forall k, k ∈ ks -> k ∉ live_keys rm) ->
      m_tileInfos (foldl PushTaskBackForTileKey rm ks)
      ≡ₚ m_tileInfos rm ++ seq (length (m_store rm)) (length ks)).
Proof.
  revert rm. induction ks as [|k ks IH]; intros rm Hval.
  { simpl. rewrite !app_nil_r. done. }
  destruct (PushTaskBackForTileKey_step k rm Hval) as (Hk1 & Hv1 & Hp1).
  cbn [foldl].
  destruct (IH _ Hv1) as (IHv & IHs & IHp & IHk & IHval & IHperm).
  split_and!.
  - by rewrite IHv.
  - rewrite IHs. simpl. by rewrite <- app_assoc.
  - rewrite IHp. simpl. rewrite length_app, <- app_assoc. simpl.
    by rewrite Nat.add_1_r.
  - by rewrite IHk, Hk1.
  - done.
  - intros [Hk Hnd]%NoDup_cons Hfresh.
    rewrite IHperm.
    + rewrite Hp1 by (apply Hfresh; left).
      simpl. rewrite length_app. simpl. rewrite Nat.add_1_r.
      by rewrite Permutation_middle.
    + done.
    + intros k' Hk'. rewrite Hk1, set_insert_elem_of.
      intros [->|Hin]; [done|]. eapply Hfresh; [|done]. by right.
Qed.

(** *** The two set differences of the incremental branch *)

Lemma outdatedTiles_filter store (live : list tileinfo_ptr) (tiles : list TileKey) :
  sorted_keys (GetTileKey store <$> live) -> sorted_keys tiles ->
  set_difference (LessCoverageCell_ik store) (LessCoverageCell_ki store) live tiles
  = filter (fun p => GetTileKey store p ∉ tiles) live.
Proof.
  intros H1 H2. rewrite <- (list_fmap_id tiles) in H2.
  etrans; [exact (set_difference_filter (GetTileKey store) id live tiles H1 H2)|].
  apply list_filter_iff. intros p. by rewrite list_fmap_id.
Qed.

Lemma inputRects_filter store (live : list tileinfo_ptr) (tiles : list TileKey) :
  sorted_keys (GetTileKey store <$> live) -> sorted_keys tiles ->
  set_difference (LessCoverageCell_ki store) (LessCoverageCell_ik store) tiles live
  = filter (fun k => k ∉ GetTileKey store <$> live) tiles.
Proof.
  intros H1 H2. rewrite <- (list_fmap_id tiles) in H2.
  exact (set_difference_filter id (GetTileKey store) tiles live H2 H1).
Qed.

(** *** [UpdateCoverage], branch by branch *)

Lemma UpdateCoverage_same screen (rm : ReadManager ScreenBase) d :
  screen = m_currentViewport rm -> UpdateCoverage screen rm d = (rm, d).
Proof. intros ->. unfold UpdateCoverage. by rewrite decide_True. Qed.

Lemma UpdateCoverage_reset screen (rm : ReadManager ScreenBase) d :
  screen <> m_currentViewport rm ->
  MustDropAllTiles rm screen = true ->
  exists rm',
    UpdateCoverage screen rm d = (rm', DropAll d)
    /\ m_currentViewport rm' = screen
    /\ m_store rm'
       = cancel_all (m_tileInfos rm) (m_store rm)
         ++ ((fun k => mkTileInfo k false) <$> GetTileKeys screen)
    /\ m_pool rm'
       = m_pool rm
         ++ (mkReadMWMTask
               <$> seq (length (m_store rm)) (length (GetTileKeys screen)))
    /\ m_tileInfos rm'
       ≡ₚ seq (length (m_store rm)) (length (GetTileKeys screen))
    /\ live_keys rm' = GetTileKeys screen
    /\ wf rm'.
Proof.
  intros Hne Hmust. unfold UpdateCoverage.
  rewrite decide_False, Hmust by done.
  eexists. split; [reflexivity|].
  rewrite foldl_CancelTileInfo.
  set (rmA := clear_tileInfos _).
  assert (Forall (fun p => (p < length (m_store rmA))%nat) (m_tileInfos rmA))
    as HvalA by constructor.
  destruct (foldl_PushTaskBackForTileKey (GetTileKeys screen) rmA HvalA)
    as (Hv & Hs & Hp & Hk & Hval & Hperm).
  assert (live_keys (foldl PushTaskBackForTileKey rmA (GetTileKeys screen))
          = GetTileKeys screen) as Hkeys.
  { rewrite Hk.
    destruct (foldl_set_insert_spec (GetTileKeys screen) (live_keys rmA))
      as [Hsort Hmem]; [constructor|].
    apply sorted_keys_ext; [done|apply GetTileKeys_sorted|].
    intros x. rewrite Hmem. unfold live_keys, rmA. simpl. set_solver. }
  simpl. rewrite Hs, Hp. subst rmA. simpl. rewrite cancel_all_length.
  split_and!; try done.
  - rewrite Hperm; simpl.
    + by rewrite cancel_all_length.
    + apply sorted_keys_NoDup, GetTileKeys_sorted.
    + intros k _. unfold live_keys. simpl. set_solver.
  - split; simpl; [done|]. unfold live_keys in *. simpl in *.
    rewrite Hkeys. apply GetTileKeys_sorted.
Qed.

Lemma UpdateCoverage_incremental screen (rm : ReadManager ScreenBase) d :
  wf rm ->
  screen <> m_currentViewport rm ->
  MustDropAllTiles rm screen = false ->
  let tiles := GetTileKeys screen in
  let outdated :=
    filter (fun p => GetTileKey (m_store rm) p ∉ tiles) (m_tileInfos rm) in
  let survivors :=
    filter (fun p => GetTileKey (m_store rm) p ∈ tiles) (m_tileInfos rm) in
  let incoming := filter (fun k => k ∉ live_keys rm) tiles in
  let fresh := seq (length (m_store rm)) (length incoming) in
  exists rm',
    UpdateCoverage screen rm d
    = (rm', DropTiles (GetTileKey (m_store rm) <$> outdated) d)
    /\ m_currentViewport rm' = screen
    /\ m_store rm'
       = cancel_all outdated (m_store rm)
         ++ ((fun k => mkTileInfo k false) <$> incoming)
    /\ m_pool rm'
       = reverse (mkReadMWMTask <$> survivors) ++ m_pool rm
         ++ (mkReadMWMTask <$> fresh)
    /\ m_tileInfos rm' ≡ₚ survivors ++ fresh
    /\ live_keys rm' = tiles
    /\ wf rm'.
Proof.
  intros [Hval Hsort] Hne Hmust tiles outdated survivors incoming fresh.
  pose proof (GetTileKeys_sorted screen) as Htiles. fold tiles in Htiles.
  unfold UpdateCoverage. rewrite decide_False, Hmust by done.
  fold tiles.
  rewrite outdatedTiles_filter, inputRects_filter by done.
  fold outdated. fold (live_keys rm). fold incoming.
  rewrite foldl_ClearTileInfo by done.
  cbn [m_store m_tileInfos m_pool m_currentViewport].
  assert (filter (fun q => GetTileKey (m_store rm) q
                           ∉ GetTileKey (m_store rm) <$> outdated)
                 (m_tileInfos rm) = survivors) as ->.
  { apply filter_ext_in. intros q Hq. split.
    - intros Hnin. destruct (decide (GetTileKey (m_store rm) q ∈ tiles)); [done|].
      exfalso. apply Hnin. apply list_elem_of_fmap_2.
      by apply list_elem_of_filter.
    - intros Hin (q' & Heq & [Hq' _]%list_elem_of_filter)%list_elem_of_fmap.
      by rewrite Heq in Hin. }
  rewrite foldl_PushTaskFront.
  cbn [m_store m_tileInfos m_pool m_currentViewport].
  unfold TileInfoPtrToTileKey.
  rewrite (live_keys_ext (cancel_all outdated (m_store rm)) (m_store rm) outdated)
    by (intros ??; apply cancel_all_key).
  eexists. split; [reflexivity|].
  set (rmB := mkReadManager _ _ _ _).
  assert (Forall (fun p => (p < length (m_store rmB))%nat) (m_tileInfos rmB))
    as HvalB.
  { subst rmB. simpl. rewrite cancel_all_length.
    rewrite Forall_forall in Hval. apply Forall_forall.
    intros q [_ Hq]%list_elem_of_filter. by apply Hval. }
  assert (live_keys rmB = filter (fun k => k ∈ tiles) (live_keys rm)) as HkeysB.
  { unfold live_keys at 1. subst rmB. simpl.
    rewrite (live_keys_ext (cancel_all outdated (m_store rm)) (m_store rm))
      by (intros ??; apply cancel_all_key).
    by apply fmap_filter_key. }
  destruct (foldl_PushTaskBackForTileKey incoming rmB HvalB)
    as (Hv & Hs & Hp & Hk & Hval' & Hperm).
  assert (live_keys (foldl PushTaskBackForTileKey rmB incoming) = tiles) as Hkeys.
  { rewrite Hk.
    destruct (foldl_set_insert_spec incoming (live_keys rmB)) as [Hsort' Hmem].
    { rewrite HkeysB. by apply sorted_keys_filter. }
    apply sorted_keys_ext; [done..|].
    intros x. rewrite Hmem, HkeysB. subst incoming.
    rewrite !list_elem_of_filter.
    destruct (decide (x ∈ live_keys rm)); tauto. }
  simpl. rewrite Hs, Hp. subst rmB. simpl. rewrite cancel_all_length.
  split_and!; try done.
  - by rewrite <- app_assoc.
  - rewrite Hperm; simpl.
    + by rewrite cancel_all_length.
    + subst incoming. by apply NoDup_filter, sorted_keys_NoDup.
    + intros k Hk'. rewrite HkeysB. subst incoming.
      apply list_elem_of_filter in Hk' as [Hk' _].
      rewrite list_elem_of_filter. tauto.
  - split; simpl; [done|]. unfold live_keys in *. simpl in *.
    by rewrite Hkeys.
Qed.

(** After a processed update the live set is the set of the viewport's
    tiles. *)
Lemma UpdateCoverage_live_keys screen (rm : ReadManager ScreenBase) d :
  wf rm ->
  screen <> m_currentViewport rm ->
  live_keys (UpdateCoverage screen rm d).1 = GetTileKeys screen
  /\ wf (UpdateCoverage screen rm d).1
  /\ m_currentViewport (UpdateCoverage screen rm d).1 = screen.
Proof.
  intros Hwf Hne. destruct (MustDropAllTiles rm screen) eqn:Hmust.
  - destruct (UpdateCoverage_reset screen rm d Hne Hmust)
      as (rm' & -> & ? & _ & _ & _ & ? & ?). done.
  - destruct (UpdateCoverage_incremental screen rm d Hwf Hne Hmust)
      as (rm' & -> & ? & _ & _ & _ & ? & ?). done.
Qed.

Lemma reachable_wf (rm : ReadManager ScreenBase) :
  reachable rm ->
  wf rm /\ (forall k, k ∈ live_keys rm -> k ∈ GetTileKeys (m_currentViewport rm)).
Proof.
  induction 1 as [|rm screen d _ [IHwf IHsub]].
  - split; [split; constructor|]. unfold live_keys. simpl. set_solver.
  - destruct (decide (screen = m_currentViewport rm)) as [Heq|Hne].
    + rewrite UpdateCoverage_same by done. simpl. done.
    + destruct (UpdateCoverage_live_keys screen rm d IHwf Hne) as (Hk & Hwf & Hv).
      split; [done|]. intros k. by rewrite Hk, Hv.
Qed.

(** ** The claims about [UpdateCoverage] *)

(** C1, as amended.  Two consecutive updates [V1] then [V2] that are both
    processed ([V1] differs from the viewport current before it, [V2] differs
    from [V1]) and do not reset: the live tiles before the second update are
    those of [V1]; the second update cancels exactly the live tiles whose key
    is in [enumerate V1 \ enumerate V2] and leaves the flag of every other
    tile as it was, reports exactly those keys to [DropTiles], constructs a
    [TileInfo] for exactly the keys of [enumerate V2 \ enumerate V1] and
    pushes their tasks to the back, pushes a task for every surviving tile
    to the front, and keeps the survivors and the new tiles as its live
    set. *)
Theorem UpdateCoverage_consecutive (rm0 : ReadManager ScreenBase)
    (d0 : CoverageUpdateDescriptor) (V1 V2 : ScreenBase) :
  wf rm0 ->
  V1 <> m_currentViewport rm0 ->
  V2 <> V1 ->
  let rm1 := (UpdateCoverage V1 rm0 d0).1 in
  let d1 := (UpdateCoverage V1 rm0 d0).2 in
  let rm2 := (UpdateCoverage V2 rm1 d1).1 in
  let d2 := (UpdateCoverage V2 rm1 d1).2 in
  MustDropAllTiles rm1 V2 = false ->
  let E1 := GetTileKeys V1 in
  let E2 := GetTileKeys V2 in
  let outdated :=
    filter (fun p => GetTileKey (m_store rm1) p ∉ E2) (m_tileInfos rm1) in
  let survivors :=
    filter (fun p => GetTileKey (m_store rm1) p ∈ E2) (m_tileInfos rm1) in
  let incoming := filter (fun k => k ∉ E1) E2 in
  let fresh := seq (length (m_store rm1)) (length incoming) in
  live_keys rm1 = E1
  /\ GetTileKey (m_store rm1) <$> outdated = filter (fun k => k ∉ E2) E1
  /\ GetTileKey (m_store rm1) <$> survivors = filter (fun k => k ∈ E2) E1
  /\ (forall p t, m_store rm1 !! p = Some t ->
        m_store rm2 !! p
        = Some (if bool_decide (p ∈ outdated) then TileInfo_Cancel t else t))
  /\ d2 = DropTiles (filter (fun k => k ∉ E2) E1) d1
  /\ drop (length (m_store rm1)) (m_store rm2)
     = (fun k => mkTileInfo k false) <$> incoming
  /\ m_pool rm2
     = reverse (mkReadMWMTask <$> survivors) ++ m_pool rm1
       ++ (mkReadMWMTask <$> fresh)
  /\ m_tileInfos rm2 ≡ₚ survivors ++ fresh
  /\ live_keys rm2 = E2.
Proof.
  intros Hwf0 Hne1 Hne2 rm1 d1 rm2 d2 Hmust E1 E2 outdated survivors incoming fresh.
  destruct (UpdateCoverage_live_keys V1 rm0 d0 Hwf0 Hne1) as (Hk1 & Hwf1 & Hv1).
  fold rm1 in Hk1, Hwf1, Hv1.
  assert (V2 <> m_currentViewport rm1) as Hne by (by rewrite Hv1).
  destruct (UpdateCoverage_incremental V2 rm1 d1 Hwf1 Hne Hmust)
    as (rm' & Hupd & Hv & Hs & Hp & Hperm & Hk & Hwf).
  subst rm2 d2. rewrite Hupd. simpl. fold E2 in Hs, Hp, Hperm, Hk |- *.
  rewrite Hk1 in Hs, Hp, Hperm. fold E1 in Hs, Hp, Hperm.
  fold outdated in Hs. fold survivors in Hp, Hperm.
  fold incoming in Hs, Hp, Hperm. fold fresh in Hp, Hperm.
  assert (GetTileKey (m_store rm1) <$> outdated = filter (fun k => k ∉ E2) E1)
    as Hout.
  { unfold E1. rewrite <- Hk1. by apply fmap_filter_key. }
  split_and!; try done.
  - unfold E1. rewrite <- Hk1. by apply fmap_filter_key.
  - intros p t Hpt. rewrite Hs.
    rewrite lookup_app_l
      by (rewrite cancel_all_length; by eapply lookup_lt_Some).
    by rewrite cancel_all_lookup, Hpt.
  - fold outdated. by rewrite Hout.
  - rewrite Hs, drop_app_length'; [done|]. by rewrite cancel_all_length.
Qed.

(** C2.  The full-reset predicate holds exactly when the tile scales differ
    or the two viewports do not intersect; an update that reaches it (the
    new viewport differs from the current one) and finds it true cancels
    every live [TileInfo] and no other, replaces the live set by one new
    tile per key of the new viewport, pushes their tasks to the back in key
    order, and calls [DropAll]. *)
Theorem MustDropAllTiles_reset (rm : ReadManager ScreenBase)
    (screen : ScreenBase) (d : CoverageUpdateDescriptor) :
  (MustDropAllTiles rm screen = true <->
     GetTileScaleBase (m_currentViewport rm) <> GetTileScaleBase screen
     \/ IsIntersect (m_currentViewport rm) screen = false)
  /\ (screen <> m_currentViewport rm ->
      MustDropAllTiles rm screen = true ->
      let rm' := (UpdateCoverage screen rm d).1 in
      let tiles := GetTileKeys screen in
      let fresh := seq (length (m_store rm)) (length tiles) in
      (UpdateCoverage screen rm d).2 = DropAll d
      /\ (forall p t, m_store rm !! p = Some t ->
            m_store rm' !! p
            = Some (if bool_decide (p ∈ m_tileInfos rm)
                    then TileInfo_Cancel t else t))
      /\ drop (length (m_store rm)) (m_store rm')
         = (fun k => mkTileInfo k false) <$> tiles
      /\ m_tileInfos rm' ≡ₚ fresh
      /\ live_keys rm' = tiles
      /\ m_pool rm' = m_pool rm ++ (mkReadMWMTask <$> fresh)
      /\ m_currentViewport rm' = screen).
Proof.
  split.
  - unfold MustDropAllTiles. rewrite orb_true_iff, !negb_true_iff.
    rewrite bool_decide_eq_false. done.
  - intros Hne Hmust rm' tiles fresh.
    destruct (UpdateCoverage_reset screen rm d Hne Hmust)
      as (rm1 & Hupd & Hv & Hs & Hp & Hperm & Hk & Hwf).
    subst rm'. rewrite Hupd. simpl. split_and!; try done.
    + intros p t Hpt. rewrite Hs.
      rewrite lookup_app_l
        by (rewrite cancel_all_length; by eapply lookup_lt_Some).
      by rewrite cancel_all_lookup, Hpt.
    + rewrite Hs, drop_app_length'; [done|]. by rewrite cancel_all_length.
Qed.

(** C6.  Whatever viewport [V] a manager is updated to, every key of its
    live set afterwards is a tile of [V]; when the update is processed the
    live keys are exactly the tiles of [V]. *)
Theorem UpdateCoverage_live_subset (rm : ReadManager ScreenBase)
    (V : ScreenBase) (d : CoverageUpdateDescriptor) :
  reachable rm ->
  (forall k, k ∈ live_keys (UpdateCoverage V rm d).1 -> k ∈ GetTileKeys V)
  /\ (V <> m_currentViewport rm ->
      live_keys (UpdateCoverage V rm d).1 = GetTileKeys V).
Proof.
  intros Hreach. destruct (reachable_wf rm Hreach) as [Hwf Hsub]. split.
  - destruct (decide (V = m_currentViewport rm)) as [->|Hne].
    + by rewrite UpdateCoverage_same.
    + destruct (UpdateCoverage_live_keys V rm d Hwf Hne) as (-> & _). done.
  - intros Hne. by destruct (UpdateCoverage_live_keys V rm d Hwf Hne) as (-> & _).
Qed.

End ManagerFacts.

(** ** The claims at concrete viewports *)

Section ManagerExamples.
Import DfExamples.

Lemma UpdateCoverage_consecutive_witness :
  wf (@ReadManager_init GridScreen _)
  /\ viewA <> m_currentViewport (@ReadManager_init GridScreen _)
  /\ viewB <> viewA
  /\ MustDropAllTiles managerA viewB = false
  /\ (UpdateCoverage viewB managerA [CallDropAll]).2
     = [CallDropAll; CallDropTiles [mkTileKey 0 0 10]]
  /\ m_pool (UpdateCoverage viewB managerA [CallDropAll]).1
     = [mkReadMWMTask 1; mkReadMWMTask 0; mkReadMWMTask 1; mkReadMWMTask 2]
  /\ live_keys (UpdateCoverage viewB managerA [CallDropAll]).1
     = [mkTileKey 1 0 10; mkTileKey 2 0 10].
Proof.
  assert (wf (@ReadManager_init GridScreen _)) as Hwf by (split; constructor).
  assert (viewA <> m_currentViewport (@ReadManager_init GridScreen _)) as Hne1
    by discriminate.
  assert (viewB <> viewA) as Hne2 by discriminate.
  assert (MustDropAllTiles managerA viewB = false) as Hmust by reflexivity.
  destruct (UpdateCoverage_consecutive ReadManager_init [] viewA viewB
              Hwf Hne1 Hne2 Hmust)
    as (_ & _ & _ & _ & Hd & _ & Hpool & _ & Hkeys).
  split_and!; [done..| | |].
  - etrans; [exact Hd|]. reflexivity.
  - etrans; [exact Hpool|]. reflexivity.
  - etrans; [exact Hkeys|]. reflexivity.
Defined.

(** C1 as stated fails when the second update repeats the viewport: the
    reset predicate is false and both tiles survive, yet the update returns
    at once, so no task is pushed for them and the descriptor is not
    called. *)
Lemma UpdateCoverage_repeated_counterexample :
  MustDropAllTiles managerA viewA = false
  /\ live_keys managerA = [mkTileKey 0 0 10; mkTileKey 1 0 10]
  /\ filter (fun p => GetTileKey (m_store managerA) p ∈ GetTileKeys viewA)
            (m_tileInfos managerA) = [0; 1]%nat
  /\ UpdateCoverage viewA managerA [CallDropAll] = (managerA, [CallDropAll])
  /\ m_pool (UpdateCoverage viewA managerA [CallDropAll]).1
     <> reverse (mkReadMWMTask <$> [0; 1]%nat) ++ m_pool managerA.
Proof. split_and!; try reflexivity. discriminate. Qed.

Lemma MustDropAllTiles_reset_witness :
  viewC <> m_currentViewport managerA
  /\ MustDropAllTiles managerA viewC = true
  /\ (UpdateCoverage viewC managerA [CallDropAll]).2 = [CallDropAll; CallDropAll]
  /\ m_store (UpdateCoverage viewC managerA [CallDropAll]).1
     = [mkTileInfo (mkTileKey 0 0 10) true; mkTileInfo (mkTileKey 1 0 10) true;
        mkTileInfo (mkTileKey 2 0 11) false]
  /\ live_keys (UpdateCoverage viewC managerA [CallDropAll]).1
     = [mkTileKey 2 0 11].
Proof.
  assert (viewC <> m_currentViewport managerA) as Hne by discriminate.
  assert (MustDropAllTiles managerA viewC = true) as Hmust by reflexivity.
  destruct (MustDropAllTiles_reset managerA viewC [CallDropAll]) as [_ Hreset].
  destruct (Hreset Hne Hmust) as (Hd & _ & _ & _ & Hkeys & _).
  split_and!; [done..| | |].
  - etrans; [exact Hd|]. reflexivity.
  - reflexivity.
  - etrans; [exact Hkeys|]. reflexivity.
Defined.

Lemma UpdateCoverage_live_subset_witness :
  reachable managerA
  /\ live_keys (UpdateCoverage viewB managerA []).1
     = [mkTileKey 1 0 10; mkTileKey 2 0 10].
Proof.
  assert (reachable managerA) as Hreach by (apply reachable_update, reachable_init).
  split; [done|].
  destruct (UpdateCoverage_live_subset managerA viewB [] Hreach) as [_ Heq].
  etrans; [apply Heq; discriminate|]. reflexivity.
Defined.

End ManagerExamples.

(** ** What every update keeps *)

Section ManagerInvariants.
Context {ScreenBase : Type} `{ScreenOps ScreenBase}.

(** *** The tiles [GetTileKeys] enumerates *)

Lemma foldl_set_insert_if_elem_of {X} (cond : X -> bool) (mk : X -> TileKey)
    (l : list X) (out : list TileKey) (k : TileKey) :
  k ∈ foldl (fun out x => if cond x then set_insert TileKey_ltb (mk x) out else out)
            out l
  <-> k ∈ out \/ exists x, x ∈ l /\ cond x = true /\ k = mk x.
Proof.
  revert out. induction l as [|x l IH]; intros out; simpl.
  - split; [by left|]. intros [?|(x & Hx & _)]; [done|].
    by apply elem_of_nil in Hx.
  - rewrite IH. destruct (cond x) eqn:Hc.
    + rewrite set_insert_elem_of. split.
      * intros [[->|?]|(y & ? & ? & ?)].
        -- right. exists x. split; [left|done].
        -- by left.
        -- right. exists y. split; [by right|done].
      * intros [?|(y & [->|?]%elem_of_cons & ? & ?)].
        -- left. by right.
        -- left. by left.
        -- right. by exists y.
    + split.
      * intros [?|(y & ? & ? & ?)]; [by left|].
        right. exists y. split; [by right|done].
      * intros [?|(y & [->|?]%elem_of_cons & ? & ?)]; [by left|congruence|].
        right. by exists y.
Qed.

Lemma foldl_rows_elem_of (cond : Z -> Z -> bool) (mk : Z -> Z -> TileKey)
    (xs ys : list Z) (out : list TileKey) (k : TileKey) :
  k ∈ foldl (fun out y =>
               foldl (fun out x =>
                        if cond x y then set_insert TileKey_ltb (mk x y) out
                        else out) out xs) out ys
  <-> k ∈ out
      \/ exists x y, x ∈ xs /\ y ∈ ys /\ cond x y = true /\ k = mk x y.
Proof.
  revert out. induction ys as [|y ys IH]; intros out; simpl.
  - split; [by left|]. intros [?|(x & y & _ & Hy & _)]; [done|].
    by apply elem_of_nil in Hy.
  - rewrite IH.
    rewrite (foldl_set_insert_if_elem_of (fun x => cond x y) (fun x => mk x y)).
    split.
    + intros [[?|(x & ? & ? & ?)]|(x & y' & ? & ? & ? & ?)].
      * by left.
      * right. exists x, y. split_and!; [done|left|done|done].
      * right. exists x, y'. split_and!; [done|by right|done|done].
    + intros [?|(x & y' & ? & [->|?]%elem_of_cons & ? & ?)].
      * left. by left.
      * left. right. by exists x.
      * right. by exists x, y'.
Qed.

(** X1.  [GetTileKeys] builds a set in key order that holds exactly the
    tiles of the clip box which the viewport's rectangle meets, every one at
    the viewport's tile scale. *)
Theorem GetTileKeys_elem_of (screen : ScreenBase) :
  sorted_keys (GetTileKeys screen)
  /\ NoDup (GetTileKeys screen)
  /\ forall k,
       k ∈ GetTileKeys screen <->
         m_zoomLevel k = GetTileScaleBase screen
         /\ ClipMinTileX screen (GetTileScaleBase screen) <= m_x k
             < ClipMaxTileX screen (GetTileScaleBase screen)
         /\ ClipMinTileY screen (GetTileScaleBase screen) <= m_y k
             < ClipMaxTileY screen (GetTileScaleBase screen)
         /\ TileIsIntersect screen (m_x k) (m_y k) (GetTileScaleBase screen) = true.
Proof.
  set (tileScale := GetTileScaleBase screen).
  split; [apply GetTileKeys_sorted|].
  split; [apply sorted_keys_NoDup, GetTileKeys_sorted|].
  intros k. unfold GetTileKeys. fold tileScale.
  rewrite (foldl_rows_elem_of
             (fun x y => TileIsIntersect screen x y tileScale)
             (fun x y => mkTileKey x y tileScale)).
  split.
  - intros [Hnil|(x & y & Hx & Hy & Hi & ->)]; [by apply elem_of_nil in Hnil|].
    apply elem_of_seqZ in Hx, Hy. simpl. split_and!; (done || lia).
  - intros (Hz & Hx & Hy & Hi). right. exists (m_x k), (m_y k).
    rewrite !elem_of_seqZ. split_and!; try (done || lia).
    destruct k; simpl in *. by rewrite Hz.
Qed.

(** *** Nothing is forgotten *)

Lemma store_extends_refl st : store_extends st st.
Proof. intros p t Hp. by exists t. Qed.

Lemma store_extends_trans st1 st2 st3 :
  store_extends st1 st2 -> store_extends st2 st3 -> store_extends st1 st3.
Proof.
  intros H12 H23 p t Hp.
  destruct (H12 p t Hp) as (t2 & Hp2 & Hk2 & Hc2).
  destruct (H23 p t2 Hp2) as (t3 & Hp3 & Hk3 & Hc3).
  exists t3. split; [done|]. split; [congruence|]. auto.
Qed.

Lemma store_extends_alter st q :
  store_extends st (alter TileInfo_Cancel q st).
Proof.
  intros p t Hp. destruct (decide (q = p)) as [->|Hne].
  - exists (TileInfo_Cancel t). rewrite list_lookup_alter_eq, Hp. done.
  - exists t. by rewrite list_lookup_alter_ne.
Qed.

Lemma store_extends_app st ext : store_extends st (st ++ ext).
Proof.
  intros p t Hp. exists t. split; [|done].
  by apply lookup_app_l_Some.
Qed.

Lemma keeps_refl (rm : ReadManager ScreenBase) : keeps rm rm.
Proof.
  split; [apply store_extends_refl|]. exists [], []. by rewrite app_nil_r.
Qed.

Lemma keeps_trans (rm1 rm2 rm3 : ReadManager ScreenBase) :
  keeps rm1 rm2 -> keeps rm2 rm3 -> keeps rm1 rm3.
Proof.
  intros [Hs12 (f1 & b1 & Hp12)] [Hs23 (f2 & b2 & Hp23)].
  split; [by eapply store_extends_trans|].
  exists (f2 ++ f1), (b1 ++ b2). rewrite Hp23, Hp12.
  by rewrite <- !app_assoc.
Qed.

Lemma keeps_foldl {X} (step : ReadManager ScreenBase -> X -> ReadManager ScreenBase)
    (l : list X) rm :
  (forall rm x, keeps rm (step rm x)) -> keeps rm (foldl step rm l).
Proof.
  intros Hstep. revert rm. induction l as [|x l IH]; intros rm; simpl.
  - apply keeps_refl.
  - eapply keeps_trans; [apply Hstep|apply IH].
Qed.

Lemma keeps_CancelTileInfo (rm : ReadManager ScreenBase) p :
  keeps rm (CancelTileInfo rm p).
Proof.
  split; [apply store_extends_alter|]. exists [], []. by rewrite app_nil_r.
Qed.

Lemma keeps_ClearTileInfo (rm : ReadManager ScreenBase) p :
  keeps rm (ClearTileInfo rm p).
Proof.
  split; [apply store_extends_alter|]. exists [], []. by rewrite app_nil_r.
Qed.

Lemma keeps_PushTaskFront (rm : ReadManager ScreenBase) p :
  keeps rm (PushTaskFront rm p).
Proof.
  split; [apply store_extends_refl|].
  exists [mkReadMWMTask p], []. by rewrite app_nil_r.
Qed.

Lemma keeps_PushTaskBackForTileKey (rm : ReadManager ScreenBase) k :
  keeps rm (PushTaskBackForTileKey rm k).
Proof.
  split; [apply store_extends_app|].
  by exists [], [mkReadMWMTask (length (m_store rm))].
Qed.

Lemma keeps_same (rm rm1 rm2 : ReadManager ScreenBase) :
  m_store rm2 = m_store rm1 -> m_pool rm2 = m_pool rm1 ->
  keeps rm rm1 -> keeps rm rm2.
Proof. unfold keeps. by intros -> ->. Qed.

(** X3.  [UpdateCoverage] forgets nothing, whatever the manager and the
    viewport: every [TileInfo] stays in place with its key and, once
    cancelled, stays cancelled; the pending tasks stay in the queue in their
    order, new ones go before or behind them; the descriptor keeps the calls
    it had and receives at most one more. *)
Theorem UpdateCoverage_keeps (screen : ScreenBase) (rm : ReadManager ScreenBase)
    (d : CoverageUpdateDescriptor) :
  store_extends (m_store rm) (m_store (UpdateCoverage screen rm d).1)
  /\ (exists front back,
        m_pool (UpdateCoverage screen rm d).1 = front ++ m_pool rm ++ back)
  /\ (exists calls,
        (UpdateCoverage screen rm d).2 = d ++ calls /\ (length calls <= 1)%nat).
Proof.
  assert (keeps rm (UpdateCoverage screen rm d).1) as [Hstore Hpool].
  { unfold UpdateCoverage. destruct (decide _); [apply keeps_refl|].
    destruct (MustDropAllTiles rm screen); simpl.
    - eapply keeps_same; [reflexivity..|].
      eapply keeps_trans;
        [|apply (keeps_foldl PushTaskBackForTileKey), keeps_PushTaskBackForTileKey].
      eapply keeps_same; [reflexivity..|].
      apply (keeps_foldl CancelTileInfo), keeps_CancelTileInfo.
    - eapply keeps_same; [reflexivity..|].
      eapply keeps_trans;
        [|apply (keeps_foldl PushTaskBackForTileKey), keeps_PushTaskBackForTileKey].
      eapply keeps_trans;
        [|apply (keeps_foldl PushTaskFront), keeps_PushTaskFront].
      apply (keeps_foldl ClearTileInfo), keeps_ClearTileInfo. }
  split; [done|]. split; [done|].
  unfold UpdateCoverage. destruct (decide _).
  - exists []. simpl. rewrite app_nil_r. split; [done|lia].
  - destruct (MustDropAllTiles rm screen); simpl; eexists; (split; [reflexivity|]);
      simpl; lia.
Qed.

(** X5.  After an update the current viewport is the one given, so giving
    the same viewport again changes nothing: no tile is touched, no task is
    pushed and the descriptor is not called. *)
Theorem UpdateCoverage_idempotent (screen : ScreenBase)
    (rm : ReadManager ScreenBase) (d d' : CoverageUpdateDescriptor) :
  m_currentViewport (UpdateCoverage screen rm d).1 = screen
  /\ UpdateCoverage screen (UpdateCoverage screen rm d).1 d'
     = ((UpdateCoverage screen rm d).1, d').
Proof.
  assert (m_currentViewport (UpdateCoverage screen rm d).1 = screen) as Hv.
  { unfold UpdateCoverage. destruct (decide _) as [->|]; [done|].
    by destruct (MustDropAllTiles rm screen). }
  split; [done|]. by apply UpdateCoverage_same.
Qed.

(** *** Live tiles and cancelled tiles *)

Lemma wf_NoDup (rm : ReadManager ScreenBase) : wf rm -> NoDup (m_tileInfos rm).
Proof.
  intros [_ Hs]. apply sorted_keys_NoDup in Hs.
  unfold live_keys in Hs. by apply NoDup_fmap_1 in Hs.
Qed.

(** X2.  In every state the manager reaches, the live set iterates in key
    order, no two live tiles have the same key, no tile is in it twice, and
    every live pointer refers to a [TileInfo] of the store. *)
Theorem reachable_live_set (rm : ReadManager ScreenBase) :
  reachable rm ->
  sorted_keys (live_keys rm)
  /\ NoDup (live_keys rm)
  /\ NoDup (m_tileInfos rm)
  /\ (forall p, p ∈ m_tileInfos rm ->
        exists t, m_store rm !! p = Some t /\ ti_key t ∈ live_keys rm).
Proof.
  intros Hreach. destruct (reachable_wf rm Hreach) as [Hwf _].
  pose proof Hwf as [Hval Hsort].
  split; [done|]. split; [by apply sorted_keys_NoDup|].
  split; [by apply wf_NoDup|].
  intros p Hp. rewrite Forall_forall in Hval.
  destruct (lookup_lt_is_Some_2 (m_store rm) p (Hval p Hp)) as [t Ht].
  exists t. split; [done|].
  apply list_elem_of_fmap. exists p. split; [|done].
  unfold GetTileKey. by rewrite Ht.
Qed.

(** A tile that is not live has been cancelled. *)
Lemma reachable_dead_cancelled (rm : ReadManager ScreenBase) :
  reachable rm ->
  forall p t, m_store rm !! p = Some t -> p ∉ m_tileInfos rm ->
    ti_isCancelled t = true.
Proof.
  induction 1 as [|rm screen d Hreach IH].
  - intros p t Hp. simpl in Hp. by rewrite lookup_nil in Hp.
  - destruct (reachable_wf rm Hreach) as [Hwf _].
    destruct (decide (screen = m_currentViewport rm)) as [Heq|Hne].
    { by rewrite UpdateCoverage_same. }
    assert (forall (rm' : ReadManager ScreenBase) X survivors n ext,
              m_store rm' = cancel_all X (m_store rm) ++ ext ->
              m_tileInfos rm' ≡ₚ survivors ++ seq (length (m_store rm)) n ->
              length ext = n ->
              (forall q, q ∈ m_tileInfos rm -> q ∈ X \/ q ∈ survivors) ->
              forall p t, m_store rm' !! p = Some t -> p ∉ m_tileInfos rm' ->
                ti_isCancelled t = true) as Hcase.
    { intros rm' X survivors n ext Hs Hperm Hn Hsplit p t Hp Hnin.
      rewrite Hperm, elem_of_app, elem_of_seq in Hnin.
      rewrite Hs in Hp.
      destruct (decide (p < length (m_store rm))%nat) as [Hlt|Hge].
      - rewrite lookup_app_l in Hp by (by rewrite cancel_all_length).
        rewrite cancel_all_lookup in Hp.
        destruct (m_store rm !! p) as [t0|] eqn:Hp0; [|done].
        simpl in Hp. injection Hp as <-.
        case_bool_decide as HX; [done|].
        apply (IH p t0 Hp0). intros Hlive.
        destruct (Hsplit p Hlive); [done|]. apply Hnin. by left.
      - exfalso. apply Hnin. right.
        apply lookup_lt_Some in Hp.
        rewrite length_app, cancel_all_length in Hp. lia. }
    destruct (MustDropAllTiles rm screen) eqn:Hmust.
    + destruct (UpdateCoverage_reset screen rm d Hne Hmust)
        as (rm' & -> & _ & Hs & _ & Hperm & _).
      simpl. eapply (Hcase rm' _ []); [exact Hs|exact Hperm| |].
      * by rewrite length_fmap.
      * intros q Hq. by left.
    + destruct (UpdateCoverage_incremental screen rm d Hwf Hne Hmust)
        as (rm' & -> & _ & Hs & _ & Hperm & _).
      simpl. eapply Hcase; [exact Hs|exact Hperm| |].
      * by rewrite length_fmap.
      * intros q Hq. rewrite !list_elem_of_filter.
        destruct (decide (GetTileKey (m_store rm) q ∈ GetTileKeys screen)); tauto.
Qed.

(** X4.  In every state the manager reaches, a tile of the store is live
    exactly when it has not been cancelled. *)
Theorem reachable_live_iff_not_cancelled (rm : ReadManager ScreenBase) :
  reachable rm ->
  forall p t, m_store rm !! p = Some t ->
    (p ∈ m_tileInfos rm <-> ti_isCancelled t = false).
Proof.
  intros Hreach p t Hp. split.
  - revert p t Hp. induction Hreach as [|rm screen d Hreach IH].
    { intros p t Hp. simpl in Hp. by rewrite lookup_nil in Hp. }
    destruct (reachable_wf rm Hreach) as [Hwf _].
    pose proof Hwf as [Hval _]. rewrite Forall_forall in Hval.
    destruct (decide (screen = m_currentViewport rm)) as [Heq|Hne].
    { by rewrite UpdateCoverage_same. }
    assert (forall (rm' : ReadManager ScreenBase) X survivors (ks : list TileKey),
              m_store rm'
              = cancel_all X (m_store rm) ++ ((fun k => mkTileInfo k false) <$> ks) ->
              m_tileInfos rm' ≡ₚ survivors ++ seq (length (m_store rm)) (length ks) ->
              (forall q, q ∈ survivors -> q ∈ m_tileInfos rm /\ q ∉ X) ->
              forall p t, m_store rm' !! p = Some t -> p ∈ m_tileInfos rm' ->
                ti_isCancelled t = false) as Hcase.
    { intros rm' X survivors ks Hs Hperm Hsurv p t Hp Hin.
      rewrite Hperm, elem_of_app, elem_of_seq in Hin. rewrite Hs in Hp.
      destruct Hin as [Hin|Hin].
      - destruct (Hsurv p Hin) as [Hlive HX].
        rewrite lookup_app_l in Hp by (rewrite cancel_all_length; by apply Hval).
        rewrite cancel_all_lookup in Hp.
        destruct (m_store rm !! p) as [t0|] eqn:Hp0; [|done].
        simpl in Hp. injection Hp as <-.
        rewrite bool_decide_eq_false_2 by done. by apply (IH p).
      - rewrite lookup_app_r in Hp by (rewrite cancel_all_length; lia).
        rewrite list_lookup_fmap in Hp.
        destruct (ks !! _); simpl in Hp; [|done]. by injection Hp as <-. }
    destruct (MustDropAllTiles rm screen) eqn:Hmust.
    + destruct (UpdateCoverage_reset screen rm d Hne Hmust)
        as (rm' & -> & _ & Hs & _ & Hperm & _).
      simpl. apply (Hcase rm' _ [] _ Hs Hperm).
      intros q Hq. by apply elem_of_nil in Hq.
    + destruct (UpdateCoverage_incremental screen rm d Hwf Hne Hmust)
        as (rm' & -> & _ & Hs & _ & Hperm & _).
      simpl. apply (Hcase rm' _ _ _ Hs Hperm).
      intros q. rewrite !list_elem_of_filter. tauto.
  - intros Hflag. destruct (decide (p ∈ m_tileInfos rm)) as [|Hnin]; [done|].
    pose proof (reachable_dead_cancelled rm Hreach p t Hp Hnin). congruence.
Qed.

(** X6.  A processed update queues exactly one task for every tile that is
    live after it: the tasks it adds, before and behind the pending ones,
    name the tiles of the new live set, each once. *)
Theorem UpdateCoverage_one_task_per_tile (screen : ScreenBase)
    (rm : ReadManager ScreenBase) (d : CoverageUpdateDescriptor) :
  reachable rm ->
  screen <> m_currentViewport rm ->
  exists front back,
    m_pool (UpdateCoverage screen rm d).1 = front ++ m_pool rm ++ back
    /\ task_tileInfo <$> (front ++ back)
       ≡ₚ m_tileInfos (UpdateCoverage screen rm d).1
    /\ NoDup (task_tileInfo <$> (front ++ back)).
Proof.
  intros Hreach Hne. destruct (reachable_wf rm Hreach) as [Hwf _].
  assert (forall l : list nat, task_tileInfo <$> (mkReadMWMTask <$> l) = l) as Hid.
  { intros l. rewrite <- list_fmap_compose. apply list_fmap_id. }
  destruct (UpdateCoverage_live_keys screen rm d Hwf Hne) as (_ & Hwf' & _).
  apply wf_NoDup in Hwf'.
  destruct (MustDropAllTiles rm screen) eqn:Hmust.
  - destruct (UpdateCoverage_reset screen rm d Hne Hmust)
      as (rm' & Hupd & _ & _ & Hp & Hperm & _).
    rewrite Hupd in Hwf' |- *. simpl in *.
    exists [], (mkReadMWMTask <$> seq (length (m_store rm))
                                   (length (GetTileKeys screen))).
    split; [done|]. simpl. rewrite Hid. split; [done|]. by rewrite <- Hperm.
  - destruct (UpdateCoverage_incremental screen rm d Hwf Hne Hmust)
      as (rm' & Hupd & _ & _ & Hp & Hperm & _).
    rewrite Hupd in Hwf' |- *. simpl in *.
    eexists (reverse (mkReadMWMTask <$> _)), (mkReadMWMTask <$> _).
    split; [exact Hp|].
    assert (forall a b : list nat,
              task_tileInfo <$> (reverse (mkReadMWMTask <$> a)
                                 ++ (mkReadMWMTask <$> b)) ≡ₚ a ++ b) as Hfmap.
    { intros a b. rewrite fmap_app, fmap_reverse, !Hid.
      by rewrite reverse_Permutation. }
    split.
    + by rewrite Hfmap, Hperm.
    + by rewrite Hfmap, <- Hperm.
Qed.

(** X7.  [Stop] leaves no live tile and no tile that is not cancelled: it
    cancels the live ones, the others were cancelled when they left the live
    set; the store keeps its tiles and their keys. *)
Theorem Stop_cancels_all (rm : ReadManager ScreenBase) :
  reachable rm ->
  m_tileInfos (Stop rm) = []
  /\ length (m_store (Stop rm)) = length (m_store rm)
  /\ (forall p, GetTileKey (m_store (Stop rm)) p = GetTileKey (m_store rm) p)
  /\ (forall p t, m_store (Stop rm) !! p = Some t -> ti_isCancelled t = true).
Proof.
  intros Hreach. unfold Stop. rewrite foldl_CancelTileInfo. simpl.
  split; [done|]. split; [apply cancel_all_length|].
  split; [intros p; apply cancel_all_key|].
  intros p t. rewrite cancel_all_lookup.
  destruct (m_store rm !! p) as [t0|] eqn:Hp0; [|done].
  simpl. intros [= <-]. case_bool_decide as Hlive; [done|].
  by apply (reachable_dead_cancelled rm Hreach p).
Qed.

End ManagerInvariants.

(** ** The invariants at concrete viewports *)

Section ManagerInvariantsExamples.
Import DfExamples.

Lemma GetTileKeys_elem_of_witness :
  GetTileKeys viewB = [mkTileKey 1 0 10; mkTileKey 2 0 10]
  /\ mkTileKey 2 0 10 ∈ GetTileKeys viewB.
Proof.
  split; [reflexivity|].
  destruct (GetTileKeys_elem_of viewB) as (_ & _ & Hmem).
  apply Hmem. simpl. split_and!; (reflexivity || lia).
Defined.

Lemma UpdateCoverage_keeps_witness :
  m_pool managerA = [mkReadMWMTask 0; mkReadMWMTask 1]
  /\ exists front back,
       m_pool (UpdateCoverage viewB managerA []).1 = front ++ m_pool managerA ++ back.
Proof.
  split; [reflexivity|].
  by destruct (UpdateCoverage_keeps viewB managerA []) as (_ & Hpool & _).
Defined.

Lemma UpdateCoverage_idempotent_witness :
  UpdateCoverage viewB (UpdateCoverage viewB managerA []).1 [CallDropTiles []]
  = ((UpdateCoverage viewB managerA []).1, [CallDropTiles []]).
Proof.
  by destruct (UpdateCoverage_idempotent viewB managerA [] [CallDropTiles []])
    as [_ Hagain].
Defined.

Lemma reachable_live_set_witness :
  reachable managerA
  /\ live_keys managerA = [mkTileKey 0 0 10; mkTileKey 1 0 10]
  /\ NoDup (live_keys managerA)
  /\ NoDup (m_tileInfos managerA).
Proof.
  assert (reachable managerA) as Hreach by (apply reachable_update, reachable_init).
  destruct (reachable_live_set managerA Hreach) as (_ & Hkeys & Hptrs & _).
  split; [done|]. split; [reflexivity|]. by split.
Defined.

Lemma reachable_live_iff_not_cancelled_witness :
  reachable (UpdateCoverage viewB managerA []).1
  /\ m_store (UpdateCoverage viewB managerA []).1
     = [mkTileInfo (mkTileKey 0 0 10) true; mkTileInfo (mkTileKey 1 0 10) false;
        mkTileInfo (mkTileKey 2 0 10) false]
  /\ (0%nat ∈ m_tileInfos (UpdateCoverage viewB managerA []).1 <-> true = false)
  /\ (1%nat ∈ m_tileInfos (UpdateCoverage viewB managerA []).1 <-> false = false).
Proof.
  assert (reachable (UpdateCoverage viewB managerA []).1) as Hreach
    by (do 2 apply reachable_update; apply reachable_init).
  split; [done|]. split; [reflexivity|]. split.
  - exact (reachable_live_iff_not_cancelled _ Hreach 0%nat
             (mkTileInfo (mkTileKey 0 0 10) true) eq_refl).
  - exact (reachable_live_iff_not_cancelled _ Hreach 1%nat
             (mkTileInfo (mkTileKey 1 0 10) false) eq_refl).
Defined.

Lemma UpdateCoverage_one_task_per_tile_witness :
  reachable managerA
  /\ viewB <> m_currentViewport managerA
  /\ exists front back,
       m_pool (UpdateCoverage viewB managerA []).1 = front ++ m_pool managerA ++ back
       /\ task_tileInfo <$> (front ++ back)
          ≡ₚ m_tileInfos (UpdateCoverage viewB managerA []).1
       /\ NoDup (task_tileInfo <$> (front ++ back)).
Proof.
  assert (reachable managerA) as Hreach by (apply reachable_update, reachable_init).
  assert (viewB <> m_currentViewport managerA) as Hne by discriminate.
  split; [done|]. split; [done|].
  exact (UpdateCoverage_one_task_per_tile viewB managerA [] Hreach Hne).
Defined.

Lemma Stop_cancels_all_witness :
  reachable managerA
  /\ m_store (Stop managerA)
     = [mkTileInfo (mkTileKey 0 0 10) true; mkTileInfo (mkTileKey 1 0 10) true]
  /\ m_tileInfos (Stop managerA) = []
  /\ forall p t, m_store (Stop managerA) !! p = Some t -> ti_isCancelled t = true.
Proof.
  assert (reachable managerA) as Hreach by (apply reachable_update, reachable_init).
  destruct (Stop_cancels_all managerA Hreach) as (Hlive & _ & _ & Hall).
  split; [done|]. split; [reflexivity|]. by split.
Defined.

End ManagerInvariantsExamples.

End DfFacts.

(** * Properties of the feature decoder *)

Module FeatureFacts.
Import Feature.

Section DecoderFacts.
Context `{Externals}.

(** ** [GetScaleIndex] *)

Lemma GetScaleIndex_for_first li scale offsets fuel i0 i :
  i0 <= i < i0 + Z.of_nat fuel ->
  scale <= GetScale li i ->
  (forall j, i0 <= j < i -> GetScale li j < scale) ->
  GetScaleIndex_for li scale offsets fuel i0
  = Some (match offsets !! Z.to_nat i with
          | Some o => Ok (if o =? kInvalidOffset then -1 else i)
          | None => Fail OutOfRange
          end).
Proof.
  revert i0. induction fuel as [|fuel IH]; intros i0 Hi Hcover Hbelow; [lia|].
  simpl. destruct (decide (i0 = i)) as [->|Hne].
  - by rewrite (proj2 (Z.leb_le _ _)) by done.
  - rewrite (proj2 (Z.leb_gt _ _)) by (apply Hbelow; lia).
    apply IH; [lia|done|]. intros j Hj. apply Hbelow. lia.
Qed.

Lemma GetScaleIndex_for_none li scale offsets fuel i0 :
  (forall j, i0 <= j < i0 + Z.of_nat fuel -> GetScale li j < scale) ->
  GetScaleIndex_for li scale offsets fuel i0 = None.
Proof.
  revert i0. induction fuel as [|fuel IH]; intros i0 Hbelow; [done|].
  simpl. rewrite (proj2 (Z.leb_gt _ _)) by (apply Hbelow; lia).
  apply IH. intros j Hj. apply Hbelow. lia.
Qed.

Lemma populated_lookup_total offsets (i : nat) :
  (i < length offsets)%nat ->
  populated offsets (Z.of_nat i) <-> (offsets !!! i =? kInvalidOffset) = false.
Proof.
  intros Hi. unfold populated. rewrite Nat2Z.id, Z.eqb_neq.
  destruct (lookup_lt_is_Some_2 offsets i Hi) as [o Ho].
  rewrite (list_lookup_total_correct _ _ _ Ho), Ho. split.
  - intros (_ & o' & [= <-] & ?). done.
  - intros. split; [lia|]. by exists o.
Qed.

Lemma populated_lt offsets i : populated offsets i -> 0 <= i < Z.of_nat (length offsets).
Proof.
  intros (Hi & o & Ho & _). apply lookup_lt_Some in Ho. lia.
Qed.

Lemma GetScaleIndex_best_spec offsets (k : nat) :
  (k <= length offsets)%nat ->
  (GetScaleIndex_best offsets k = -1
   /\ forall j, 0 <= j < Z.of_nat k -> ~ populated offsets j)
  \/ (0 <= GetScaleIndex_best offsets k < Z.of_nat k
      /\ populated offsets (GetScaleIndex_best offsets k)
      /\ forall j, GetScaleIndex_best offsets k < j < Z.of_nat k ->
                   ~ populated offsets j).
Proof.
  induction k as [|k IH]; intros Hk; simpl.
  - left. split; [done|]. lia.
  - destruct (offsets !!! k =? kInvalidOffset) eqn:Hinv.
    + assert (~ populated offsets (Z.of_nat k)) as Hk'.
      { rewrite populated_lookup_total by lia. by rewrite Hinv. }
      destruct IH as [[-> Hnone]|(Hr & Hpop & Hnone)]; [lia| |].
      * left. split; [done|]. intros j Hj.
        destruct (decide (j = Z.of_nat k)) as [->|]; [done|]. apply Hnone. lia.
      * right. split; [lia|]. split; [done|]. intros j Hj.
        destruct (decide (j = Z.of_nat k)) as [->|]; [done|]. apply Hnone. lia.
    + right. split; [lia|]. split; [|lia].
      apply populated_lookup_total; [lia|done].
Qed.

Lemma GetScaleIndex_worst_spec offsets (fuel ind : nat) :
  (ind + fuel = length offsets)%nat ->
  (GetScaleIndex_worst offsets fuel ind = Z.of_nat (length offsets)
   /\ forall j, Z.of_nat ind <= j < Z.of_nat (length offsets) ->
                ~ populated offsets j)
  \/ (Z.of_nat ind <= GetScaleIndex_worst offsets fuel ind
        < Z.of_nat (length offsets)
      /\ populated offsets (GetScaleIndex_worst offsets fuel ind)
      /\ forall j, Z.of_nat ind <= j < GetScaleIndex_worst offsets fuel ind ->
                   ~ populated offsets j).
Proof.
  revert ind. induction fuel as [|fuel IH]; intros ind Hlen; simpl.
  - left. split; [f_equal; lia|]. lia.
  - destruct (offsets !!! ind =? kInvalidOffset) eqn:Hinv.
    + assert (~ populated offsets (Z.of_nat ind)) as Hind.
      { rewrite populated_lookup_total by lia. by rewrite Hinv. }
      destruct (IH (S ind)) as [[-> Hnone]|(Hr & Hpop & Hnone)]; [lia| |].
      * left. split; [done|]. intros j Hj.
        destruct (decide (j = Z.of_nat ind)) as [->|]; [done|]. apply Hnone. lia.
      * right. split; [lia|]. split; [done|]. intros j Hj.
        destruct (decide (j = Z.of_nat ind)) as [->|]; [done|]. apply Hnone. lia.
    + right. split; [lia|]. split; [|lia].
      apply populated_lookup_total; [lia|done].
Qed.

Lemma clampScale_eq li scale :
  (if scale >? GetLastScale li then GetLastScale li else scale)
  = clampScale li scale.
Proof. unfold clampScale. destruct (Z.gtb_spec scale (GetLastScale li)); lia. Qed.

(** The lookup of the worst geometry: the lowest populated index. *)
Lemma GetScaleIndex_lowest li scale offsets :
  clampScale li scale = WORST_GEOMETRY ->
  (forall i, populated offsets i ->
     (forall j, j < i -> ~ populated offsets j) ->
     GetScaleIndex li scale offsets = Ok i)
  /\ ((forall j, ~ populated offsets j) ->
      GetScaleIndex li scale offsets = Ok (-1)).
Proof.
  unfold GetScaleIndex. rewrite clampScale_eq. intros ->. simpl.
  destruct (GetScaleIndex_worst_spec offsets (length offsets) 0)
    as [[Hr Hnone]|(Hr & Hpop & Hnone)]; [done| |].
  - rewrite Hr.
    rewrite (proj2 (Z.ltb_ge _ _)), andb_false_r by lia.
    split; [|done].
    intros i Hi _. exfalso. apply (Hnone i); [|done].
    pose proof (populated_lt _ _ Hi). lia.
  - rewrite (proj2 (Z.leb_le _ _)), (proj2 (Z.ltb_lt _ _)) by lia. simpl.
    split.
    + intros i Hi Hbelow. f_equal.
      pose proof (populated_lt _ _ Hi).
      destruct (Z.lt_trichotomy
                  (GetScaleIndex_worst offsets (length offsets) 0) i)
        as [Hlt|[Heq|Hgt]]; [|done|].
      * exfalso. by apply (Hbelow _ Hlt).
      * exfalso. apply (Hnone i); [lia|done].
    + intros Hno. exfalso. by apply (Hno _ Hpop).
Qed.

(** C3, as amended.  With [s] the scale clamped to the container's last
    scale: when [s] is not a sentinel, the mapping looks at the smallest
    index [i] with [s <= container.scale(i)] only, and returns [i] if
    [offset[i]] is present and "not found" (-1) if it is absent or if no
    index covers [s]; when [s] is [BEST_GEOMETRY] it returns the highest
    populated index, when [s] is [WORST_GEOMETRY] the lowest one, and "not
    found" if no offset is present. *)
Theorem GetScaleIndex_spec (li : SharedLoadInfo) (scale : Z) (offsets : list Z) :
  let s := clampScale li scale in
  (s <> BEST_GEOMETRY -> s <> WORST_GEOMETRY ->
   GetScalesCount li <= Z.of_nat (length offsets) ->
   (forall i, first_covering li s i ->
      (populated offsets i -> GetScaleIndex li scale offsets = Ok i)
      /\ (~ populated offsets i -> GetScaleIndex li scale offsets = Ok (-1)))
   /\ ((forall j, 0 <= j < GetScalesCount li -> GetScale li j < s) ->
       GetScaleIndex li scale offsets = Ok (-1)))
  /\ (s = BEST_GEOMETRY ->
      (forall i, populated offsets i ->
         (forall j, i < j -> ~ populated offsets j) ->
         GetScaleIndex li scale offsets = Ok i)
      /\ ((forall j, ~ populated offsets j) ->
          GetScaleIndex li scale offsets = Ok (-1)))
  /\ (s = WORST_GEOMETRY ->
      (forall i, populated offsets i ->
         (forall j, j < i -> ~ populated offsets j) ->
         GetScaleIndex li scale offsets = Ok i)
      /\ ((forall j, ~ populated offsets j) ->
          GetScaleIndex li scale offsets = Ok (-1))).
Proof.
  intros s.
  split; [|split; [|intros Hs; by apply GetScaleIndex_lowest]];
    unfold GetScaleIndex; rewrite clampScale_eq; fold s.
  - intros Hbest Hworst Hlen.
    rewrite (proj2 (Z.eqb_neq _ _) Hbest), (proj2 (Z.eqb_neq _ _) Hworst).
    split.
    + intros i (Hi & Hcover & Hbelow).
      rewrite (GetScaleIndex_for_first li s offsets _ 0 i); [|lia|done|done].
      destruct (lookup_lt_is_Some_2 offsets (Z.to_nat i)) as [o Ho]; [lia|].
      rewrite Ho. split.
      * intros (_ & o' & Ho' & Hvalid). rewrite Ho in Ho'. injection Ho' as <-.
        by rewrite (proj2 (Z.eqb_neq _ _) Hvalid).
      * intros Hnot. destruct (Z.eqb_spec o kInvalidOffset) as [|Hvalid]; [done|].
        exfalso. apply Hnot. split; [lia|]. by exists o.
    + intros Hbelow. rewrite GetScaleIndex_for_none; [done|].
      intros j Hj. apply Hbelow. lia.
  - intros ->. simpl.
    destruct (GetScaleIndex_best_spec offsets (length offsets))
      as [[Hr Hnone]|(Hr & Hpop & Hnone)]; [done| |].
    + rewrite Hr. simpl. split; [|done].
      intros i Hi _. exfalso. apply (Hnone i); [by apply populated_lt|done].
    + rewrite (proj2 (Z.leb_le _ _)), (proj2 (Z.ltb_lt _ _)) by lia. simpl.
      split.
      * intros i Hi Habove. f_equal.
        pose proof (populated_lt _ _ Hi).
        destruct (Z.lt_trichotomy (GetScaleIndex_best offsets (length offsets)) i)
          as [Hlt|[Heq|Hgt]]; [|done|].
        -- exfalso. apply (Hnone i); [lia|done].
        -- exfalso. by apply (Habove _ Hgt).
      * intros Hno. exfalso. by apply (Hno _ Hpop).
Qed.

(** ** The parse stages and their flags *)

Lemma bind_Ok {A B} (m : result A) (k : A -> result B) (y : B) :
  m ≫= k = Ok y -> exists x, m = Ok x /\ k x = Ok y.
Proof. destruct m as [x|e]; [|done]. intros Hk. by exists x. Qed.

Ltac inv_bind H :=
  let x := fresh "x" in
  let Hx := fresh "Hx" in
  apply bind_Ok in H as (x & Hx & H);
  repeat match type of H with
         | context [match ?y with (_, _) => _ end] => is_var y; destruct y
         end.

Lemma ParseTypes_parsed f f' :
  ParseTypes f = Ok f' -> Parsed.m_types (m_parsed f') = true.
Proof.
  unfold ParseTypes. destruct (Parsed.m_types (m_parsed f)) eqn:Hflag.
  - by intros [= <-].
  - intros Hp. inv_bind Hp. by injection Hp as <-.
Qed.

Lemma ParseCommon_parsed f f' :
  ParseCommon f = Ok f' -> Parsed.m_common (m_parsed f') = true.
Proof.
  unfold ParseCommon. destruct (Parsed.m_common (m_parsed f)) eqn:Hflag.
  - by intros [= <-].
  - intros Hp. do 3 inv_bind Hp.
    destruct (Params_Read _ _ _ _), (decide _); [destruct (LoadPoint _ _ _)|];
      by injection Hp as <-.
Qed.

Lemma ParseHeader2_parsed f f' :
  ParseHeader2 f = Ok f' -> Parsed.m_header2 (m_parsed f') = true.
Proof.
  unfold ParseHeader2. destruct (Parsed.m_header2 (m_parsed f)) eqn:Hflag.
  - by intros [= <-].
  - intros Hp. do 5 inv_bind Hp. by injection Hp as <-.
Qed.

Lemma ParseGeometry_parsed scale f sz f' :
  ParseGeometry scale f = Ok (sz, f') -> Parsed.m_points (m_parsed f') = true.
Proof.
  unfold ParseGeometry. destruct (Parsed.m_points (m_parsed f)) eqn:Hflag.
  - by intros [= _ <-].
  - intros Hp. do 4 inv_bind Hp. by injection Hp as _ <-.
Qed.

Lemma ParseTriangles_parsed scale f sz f' :
  ParseTriangles scale f = Ok (sz, f') -> Parsed.m_triangles (m_parsed f') = true.
Proof.
  unfold ParseTriangles. destruct (Parsed.m_triangles (m_parsed f)) eqn:Hflag.
  - by intros [= _ <-].
  - intros Hp. do 4 inv_bind Hp. by injection Hp as _ <-.
Qed.

Lemma ParseMetadata_parsed f f' :
  ParseMetadata f = Ok f' -> Parsed.m_metadata (m_parsed f') = true.
Proof.
  unfold ParseMetadata. destruct (Parsed.m_metadata (m_parsed f)) eqn:Hflag.
  - by intros [= <-].
  - intros Hp. do 2 inv_bind Hp.
    destruct (Deserializer_Get _ _ _) as [[] meta]; [..|done];
      by injection Hp as <-.
Qed.

Lemma ParseMetaIds_parsed f f' :
  ParseMetaIds f = Ok f' -> Parsed.m_metaIds (m_parsed f') = true.
Proof.
  unfold ParseMetaIds. destruct (Parsed.m_metaIds (m_parsed f)) eqn:Hflag.
  - by intros [= <-].
  - intros Hp. do 2 inv_bind Hp.
    destruct (Deserializer_GetIds _ _ _) as [[] ids]; [..|done];
      by injection Hp as <-.
Qed.

(** What a first [ParseMetadata] that returns has done. *)
Lemma ParseMetadata_Ok f f' :
  Parsed.m_metadata (m_parsed f) = false ->
  ParseMetadata f = Ok f' ->
  exists d outcome meta,
    m_loadInfo f <> None
    /\ m_metadataDeserializer f = Some d
    /\ Deserializer_Get d (m_id f) (m_metadata f) = (outcome, meta)
    /\ outcome <> OtherException
    /\ f' = set_m_parsed (Parsed.set_m_metadata true (m_parsed f))
              (set_m_metadata meta f).
Proof.
  unfold ParseMetadata, CHECK_loadInfo, deserializer. intros -> Hp.
  destruct (m_loadInfo f) as [li|]; [|done].
  destruct (m_metadataDeserializer f) as [d|]; [|done].
  cbn [mbind result_bind] in Hp.
  destruct (Deserializer_Get d (m_id f) (m_metadata f)) as [outcome meta]
    eqn:Hget.
  exists d, outcome, meta.
  destruct outcome; [..|done]; injection Hp as <-;
    split_and!; (done || reflexivity).
Qed.

Lemma ParseMetaIds_Ok f f' :
  Parsed.m_metaIds (m_parsed f) = false ->
  ParseMetaIds f = Ok f' ->
  exists d outcome ids,
    m_loadInfo f <> None
    /\ m_metadataDeserializer f = Some d
    /\ Deserializer_GetIds d (m_id f) (m_metaIds f) = (outcome, ids)
    /\ outcome <> OtherException
    /\ f' = set_m_parsed (Parsed.set_m_metaIds true (m_parsed f))
              (set_m_metaIds ids f).
Proof.
  unfold ParseMetaIds, CHECK_loadInfo, deserializer. intros -> Hp.
  destruct (m_loadInfo f) as [li|]; [|done].
  destruct (m_metadataDeserializer f) as [d|]; [|done].
  cbn [mbind result_bind] in Hp.
  destruct (Deserializer_GetIds d (m_id f) (m_metaIds f)) as [outcome ids]
    eqn:Hget.
  exists d, outcome, ids.
  destruct outcome; [..|done]; injection Hp as <-;
    split_and!; (done || reflexivity).
Qed.

(** A stage that finds its flag set returns the feature as it is. *)
Lemma stage_again (stage : FeatureType -> result FeatureType) f :
  (forall f', stage f = Ok f' -> stage f' = Ok f') ->
  stage f ≫= stage = stage f.
Proof. intros Hre. destruct (stage f) as [f'|e] eqn:Hs; [|done]. by apply Hre. Qed.

(** C7.  Any scale parsed after a first [ParseGeometry] leaves the feature
    (geometry and parse state) as the first call left it, and reads nothing;
    the same holds for every other stage: each tests its parsed flag first and
    returns at once when it is set. *)
Theorem ParseGeometry_idempotent (scale scale' : Z) (f : FeatureType) :
  ParseGeometry scale f ≫= (fun r => ParseGeometry scale' r.2)
  = (fun r => (0, r.2)) <$> ParseGeometry scale f
  /\ ParseTriangles scale f ≫= (fun r => ParseTriangles scale' r.2)
     = (fun r => (0, r.2)) <$> ParseTriangles scale f
  /\ ParseTypes f ≫= ParseTypes = ParseTypes f
  /\ ParseCommon f ≫= ParseCommon = ParseCommon f
  /\ ParseHeader2 f ≫= ParseHeader2 = ParseHeader2 f
  /\ ParseMetadata f ≫= ParseMetadata = ParseMetadata f
  /\ ParseMetaIds f ≫= ParseMetaIds = ParseMetaIds f.
Proof.
  split_and!.
  - destruct (ParseGeometry scale f) as [[sz f']|e] eqn:Hp; [|done].
    apply ParseGeometry_parsed in Hp. simpl.
    unfold ParseGeometry. by rewrite Hp.
  - destruct (ParseTriangles scale f) as [[sz f']|e] eqn:Hp; [|done].
    apply ParseTriangles_parsed in Hp. simpl.
    unfold ParseTriangles. by rewrite Hp.
  - apply stage_again. intros f' Hp%ParseTypes_parsed.
    unfold ParseTypes. by rewrite Hp.
  - apply stage_again. intros f' Hp%ParseCommon_parsed.
    unfold ParseCommon. by rewrite Hp.
  - apply stage_again. intros f' Hp%ParseHeader2_parsed.
    unfold ParseHeader2. by rewrite Hp.
  - apply stage_again. intros f' Hp%ParseMetadata_parsed.
    unfold ParseMetadata. by rewrite Hp.
  - apply stage_again. intros f' Hp%ParseMetaIds_parsed.
    unfold ParseMetaIds. by rewrite Hp.
Qed.

(** C10.  With the has-layer flag clear [GetLayer] returns 0 and the feature
    untouched; with the flag set it is [ParseCommon] followed by a read of
    the stored layer, so the feature it leaves is parsed through the common
    stage. *)
Theorem GetLayer_spec (f : FeatureType) :
  (Z.land (m_header f) HEADER_MASK_HAS_LAYER = 0 -> GetLayer f = Ok (0, f))
  /\ (Z.land (m_header f) HEADER_MASK_HAS_LAYER <> 0 ->
      GetLayer f = (fun f' => (layer (m_params f'), f')) <$> ParseCommon f
      /\ forall v f', GetLayer f = Ok (v, f') ->
           ParseCommon f = Ok f'
           /\ Parsed.m_common (m_parsed f') = true
           /\ v = layer (m_params f')).
Proof.
  unfold GetLayer. split.
  - intros ->. done.
  - intros Hflag. rewrite (proj2 (Z.eqb_neq _ _) Hflag).
    destruct (ParseCommon f) as [f1|e] eqn:Hp; [|done].
    split; [done|]. intros v f' [= <- <-].
    by apply ParseCommon_parsed in Hp.
Qed.

(** C9, as amended.  For a feature read from a container (its load info is
    set) [ResetGeometry] clears the points, the triangles, the two outer
    offset tables, the simplification mask, the header2, points and triangles
    flags, and the limit rect unless the feature is a point; every other
    member is left as it was, so the types and common stages, once parsed,
    return at once afterwards.  For a feature made from a MapObject (no load
    info) [ResetGeometry] changes nothing. *)
Theorem ResetGeometry_frame (f : FeatureType) :
  (m_loadInfo f = None -> ResetGeometry f = f)
  /\ (m_loadInfo f <> None ->
      let f' := ResetGeometry f in
      (m_points f' = [] /\ m_triangles f' = []
       /\ Offsets.m_pts (m_offsets f') = [] /\ Offsets.m_trg (m_offsets f') = []
       /\ m_ptsSimpMask f' = 0
       /\ Parsed.m_header2 (m_parsed f') = false
       /\ Parsed.m_points (m_parsed f') = false
       /\ Parsed.m_triangles (m_parsed f') = false
       /\ m_limitRect f'
          = if decide (GetGeomType f = Point) then m_limitRect f else RectD_empty)
      /\ (Parsed.m_types (m_parsed f') = Parsed.m_types (m_parsed f)
          /\ Parsed.m_common (m_parsed f') = Parsed.m_common (m_parsed f)
          /\ Parsed.m_metadata (m_parsed f') = Parsed.m_metadata (m_parsed f)
          /\ Parsed.m_metaIds (m_parsed f') = Parsed.m_metaIds (m_parsed f)
          /\ m_types f' = m_types f /\ m_params f' = m_params f
          /\ m_center f' = m_center f
          /\ Offsets.m_common (m_offsets f') = Offsets.m_common (m_offsets f)
          /\ Offsets.m_header2 (m_offsets f') = Offsets.m_header2 (m_offsets f)
          /\ m_loadInfo f' = m_loadInfo f /\ m_data f' = m_data f
          /\ m_header f' = m_header f /\ m_metadata f' = m_metadata f
          /\ m_metaIds f' = m_metaIds f /\ m_id f' = m_id f
          /\ m_innerStats f' = m_innerStats f)
      /\ (Parsed.m_types (m_parsed f) = true -> ParseTypes f' = Ok f')
      /\ (Parsed.m_common (m_parsed f) = true -> ParseCommon f' = Ok f')).
Proof.
  unfold ResetGeometry. destruct (m_loadInfo f) as [li|] eqn:Hli.
  - split; [done|]. intros _. simpl.
    assert (GetGeomType (set_m_triangles [] (set_m_points [] f)) = GetGeomType f)
      as -> by done.
    destruct (decide (GetGeomType f = Point)); simpl;
      (split_and!; try done;
       [intros Hflag; unfold ParseTypes; simpl; by rewrite Hflag
       |intros Hflag; unfold ParseCommon; simpl; by rewrite Hflag]).
  - split; [done|]. done.
Qed.

(** ** The inner-geometry filter *)

Lemma pointScaleAt_range mask i : 0 <= pointScaleAt mask i <= 3.
Proof.
  unfold pointScaleAt. change 3 with (Z.ones 2) at 1 2.
  rewrite Z.land_ones by lia.
  pose proof (Z.mod_pos_bound (Z.shiftr mask (2 * (Z.of_nat i - 1))) (2 ^ 2)).
  lia.
Qed.

Lemma take_drop_lookup_total {A} `{!Inhabited A} (l : list A) (k n : nat) :
  (k + n <= length l)%nat ->
  take n (drop k l) = (fun i => l !!! i) <$> seq k n.
Proof.
  revert k. induction n as [|n IH]; intros k Hk; [done|].
  destruct (lookup_lt_is_Some_2 l k) as [x Hx]; [lia|].
  rewrite (drop_S _ _ _ Hx). simpl.
  rewrite (list_lookup_total_correct _ _ _ Hx). f_equal.
  apply IH. lia.
Qed.

Lemma zip_fmap_same {A B C} (g : A -> B) (h : A -> C) (l : list A) :
  zip (g <$> l) (h <$> l) = (fun x => (g x, h x)) <$> l.
Proof. induction l as [|x l IH]; [done|]. simpl. f_equal. exact IH. Qed.

Lemma zip_markers (stored : list PointD) mask :
  (2 <= length stored)%nat ->
  zip (markers mask (length stored)) (intermediates stored)
  = (fun i => (pointScaleAt mask i, stored !!! i)) <$> seq 1 (length stored - 2).
Proof.
  intros Hlen. unfold markers, intermediates.
  rewrite take_drop_lookup_total by lia. apply zip_fmap_same.
Qed.

Lemma filter_fmap_comm {A B} (h : A -> B) (P : B -> Prop) (Q : A -> Prop)
    `{!forall b, Decision (P b), !forall a, Decision (Q a)} (l : list A) :
  (forall a, Q a <-> P (h a)) ->
  filter P (h <$> l) = h <$> filter Q l.
Proof.
  intros HQP. induction l as [|a l IH]; [done|].
  rewrite fmap_cons, !filter_cons.
  destruct (decide (P (h a))) as [HP|HP], (decide (Q a)) as [HQ|HQ].
  - by rewrite fmap_cons, IH.
  - by apply HQP in HP.
  - by apply HQP in HQ.
  - done.
Qed.

(** The first loop collects the visible points in order. *)
Lemma filterInner_step_points (stored : list PointD) mask idx l pts ms :
  (foldl (filterInner_step stored mask idx) (pts, ms) l).1
  = pts ++ ((fun i => stored !!! i)
              <$> filter (fun i => pointScaleAt mask i <= idx) l).
Proof.
  revert pts ms. induction l as [|i l IH]; intros pts ms.
  - simpl. by rewrite app_nil_r.
  - simpl. rewrite filter_cons.
    destruct (Z.leb_spec (pointScaleAt mask i) idx) as [Hle|Hgt].
    + rewrite decide_True by done. rewrite IH, fmap_cons, <- app_assoc. done.
    + rewrite decide_False by lia.
      destruct ((length pts =? 1)%nat && (ms >? pointScaleAt mask i)); apply IH.
Qed.

Lemma min_marker_min a m l :
  min_marker (Z.min a m) l = Z.min m (min_marker a l).
Proof. induction l as [|x l IH]; simpl; [lia|]. rewrite IH. lia. Qed.

(** While nothing is visible the first loop tracks the smallest marker. *)
Lemma filterInner_step_minScale (stored : list PointD) mask idx l pts ms :
  length pts = 1%nat ->
  filter (fun i => pointScaleAt mask i <= idx) l = [] ->
  (foldl (filterInner_step stored mask idx) (pts, ms) l).2
  = min_marker ms (pointScaleAt mask <$> l).
Proof.
  intros Hlen. revert ms. induction l as [|i l IH]; intros ms Hnone; [done|].
  rewrite filter_cons in Hnone.
  destruct (decide (pointScaleAt mask i <= idx)) as [|Hgt]; [done|].
  simpl.
  rewrite (proj2 (Z.leb_gt _ _)) by lia.
  rewrite Hlen. simpl.
  destruct (Z.gtb_spec ms (pointScaleAt mask i)) as [Hlt|Hge].
  - rewrite IH by done.
    rewrite <- (Z.min_r ms (pointScaleAt mask i)) at 1 by lia.
    apply min_marker_min.
  - rewrite IH by done.
    rewrite <- (Z.min_l ms (pointScaleAt mask i)) at 1 by lia.
    apply min_marker_min.
Qed.

Lemma filterInner_fallback_points (stored : list PointD) mask m l pts :
  foldl (filterInner_fallback stored mask m) pts l
  = pts ++ ((fun i => stored !!! i)
              <$> filter (fun i => pointScaleAt mask i = m) l).
Proof.
  revert pts. induction l as [|i l IH]; intros pts.
  - simpl. by rewrite app_nil_r.
  - cbn [foldl]. rewrite IH, filter_cons. unfold filterInner_fallback.
    destruct (Z.eqb_spec (pointScaleAt mask i) m) as [Heq|Hne].
    + rewrite decide_True by done. by rewrite fmap_cons, <- app_assoc.
    + by rewrite decide_False.
Qed.

Lemma min_marker_lower bound ms m : m ∈ ms -> min_marker bound ms <= m.
Proof.
  induction ms as [|x ms IH]; [set_solver|].
  intros [->|Hm]%elem_of_cons; simpl; [lia|]. apply IH in Hm. lia.
Qed.

(** The smallest marker does not depend on a bound no marker exceeds. *)
Lemma min_marker_bound b1 b2 ms :
  ms <> [] -> Forall (fun m => m <= b1) ms -> Forall (fun m => m <= b2) ms ->
  min_marker b1 ms = min_marker b2 ms.
Proof.
  induction ms as [|x ms IH]; [done|]. intros _ H1 H2.
  apply Forall_cons in H1 as [Hx1 H1]. apply Forall_cons in H2 as [Hx2 H2].
  destruct ms as [|y ms]; simpl in *; [lia|].
  rewrite (IH ltac:(done) H1 H2). done.
Qed.

(** The loops of the filter compute the filter of the specification. *)
Lemma filterInner_spec (li : SharedLoadInfo) scale (stored : list PointD) mask :
  (2 <= length stored)%nat ->
  Forall (fun m => m <= GetScalesCount li - 1) (markers mask (length stored)) ->
  filterInner li scale stored mask
  = spec_filterInner (GetScaleIndexNoOffsets li scale)
      (stored !!! 0%nat) (stored !!! (length stored - 1)%nat)
      (zip (markers mask (length stored)) (intermediates stored)).
Proof.
  intros Hlen Hbound. unfold filterInner, spec_filterInner.
  rewrite zip_markers by done.
  set (idx := GetScaleIndexNoOffsets li scale).
  set (l := seq 1 (length stored - 2)).
  set (h := fun i => (pointScaleAt mask i, stored !!! i)).
  destruct (foldl (filterInner_step stored mask idx)
              ([stored !!! 0%nat], GetScalesCount li - 1) l)
    as [points minScale] eqn:Hfold.
  pose proof (filterInner_step_points stored mask idx l [stored !!! 0%nat]
                (GetScalesCount li - 1)) as Hpts.
  rewrite Hfold in Hpts. simpl in Hpts.
  rewrite (filter_fmap_comm h (fun mp => mp.1 <= idx)
             (fun i => pointScaleAt mask i <= idx)) by done.
  destruct (filter (fun i => pointScaleAt mask i <= idx) l) as [|i0 vis] eqn:Hvis.
  - (* nothing visible: the fallback *)
    pose proof (filterInner_step_minScale stored mask idx l [stored !!! 0%nat]
                  (GetScalesCount li - 1) eq_refl Hvis) as Hmin.
    rewrite Hfold in Hmin. simpl in Hmin.
    subst points. simpl.
    rewrite filterInner_fallback_points.
    rewrite <- list_fmap_compose.
    assert (fst ∘ h = pointScaleAt mask) as -> by done.
    destruct (decide (l = [])) as [->|Hnil]; [done|].
    assert (minScale = min_marker 3 (pointScaleAt mask <$> l)) as ->.
    { subst minScale. apply min_marker_bound.
      - by destruct l.
      - exact Hbound.
      - apply Forall_fmap, Forall_forall. intros i _.
        apply pointScaleAt_range. }
    rewrite (filter_fmap_comm h
               (fun mp => mp.1 = min_marker 3 (pointScaleAt mask <$> l))
               (fun i => pointScaleAt mask i
                         = min_marker 3 (pointScaleAt mask <$> l))) by done.
    rewrite <- list_fmap_compose. simpl. done.
  - (* some point is visible *)
    subst points. simpl.
    rewrite <- !list_fmap_compose. done.
Qed.

(** Without a bound on the markers, the loops compute the filter whose
    fallback is bounded by the last scale index. *)
Lemma filterInner_bounded (li : SharedLoadInfo) scale (stored : list PointD) mask :
  (2 <= length stored)%nat ->
  filterInner li scale stored mask
  = bounded_filterInner (GetScalesCount li - 1) (GetScaleIndexNoOffsets li scale)
      (stored !!! 0%nat) (stored !!! (length stored - 1)%nat)
      (zip (markers mask (length stored)) (intermediates stored)).
Proof.
  intros Hlen. unfold filterInner, bounded_filterInner.
  rewrite zip_markers by done.
  set (idx := GetScaleIndexNoOffsets li scale).
  set (l := seq 1 (length stored - 2)).
  set (h := fun i => (pointScaleAt mask i, stored !!! i)).
  destruct (foldl (filterInner_step stored mask idx)
              ([stored !!! 0%nat], GetScalesCount li - 1) l)
    as [points minScale] eqn:Hfold.
  pose proof (filterInner_step_points stored mask idx l [stored !!! 0%nat]
                (GetScalesCount li - 1)) as Hpts.
  rewrite Hfold in Hpts. simpl in Hpts.
  rewrite (filter_fmap_comm h (fun mp => mp.1 <= idx)
             (fun i => pointScaleAt mask i <= idx)) by done.
  destruct (filter (fun i => pointScaleAt mask i <= idx) l) as [|i0 vis] eqn:Hvis.
  - pose proof (filterInner_step_minScale stored mask idx l [stored !!! 0%nat]
                  (GetScalesCount li - 1) eq_refl Hvis) as Hmin.
    rewrite Hfold in Hmin. simpl in Hmin.
    subst points. simpl.
    rewrite filterInner_fallback_points.
    rewrite <- list_fmap_compose.
    assert (fst ∘ h = pointScaleAt mask) as -> by done.
    subst minScale.
    rewrite (filter_fmap_comm h
               (fun mp => mp.1 = min_marker (GetScalesCount li - 1)
                                   (pointScaleAt mask <$> l))
               (fun i => pointScaleAt mask i
                         = min_marker (GetScalesCount li - 1)
                             (pointScaleAt mask <$> l))) by done.
    rewrite <- list_fmap_compose. simpl. done.
  - subst points. simpl.
    rewrite <- !list_fmap_compose. done.
Qed.

Lemma min_marker_le_bound bound ms : min_marker bound ms <= bound.
Proof. induction ms as [|m ms IH]; simpl; lia. Qed.

Lemma filter_none {A} (P : A -> Prop) `{!forall x, Decision (P x)} (l : list A) :
  Forall (fun x => ~ P x) l -> filter P l = [].
Proof.
  induction 1 as [|x l Hx _ IH]; [done|].
  by rewrite filter_cons, decide_False.
Qed.

(** Markers above the scale index and above the last scale index leave
    the endpoints only. *)
Lemma bounded_filterInner_endpoints lastIndex idx (a b : PointD) mid :
  Forall (fun m => idx < m /\ lastIndex < m) (fst <$> mid) ->
  bounded_filterInner lastIndex idx a b mid = [a; b].
Proof.
  intros Hall. unfold bounded_filterInner.
  rewrite Forall_fmap in Hall.
  rewrite (filter_none (fun mp => mp.1 <= idx)).
  - rewrite filter_none; [done|].
    eapply Forall_impl; [exact Hall|]. simpl. intros mp [_ Hmp].
    pose proof (min_marker_le_bound lastIndex (fst <$> mid)). lia.
  - eapply Forall_impl; [exact Hall|]. simpl. intros mp [Hmp _]. lia.
Qed.

Lemma markers_of_zip (stored : list PointD) mask :
  fst <$> zip (markers mask (length stored)) (intermediates stored)
  = markers mask (length stored).
Proof.
  apply fst_zip. unfold markers, intermediates.
  rewrite length_fmap, length_seq, length_take, length_drop. lia.
Qed.

(** ** [ParseGeometry] on a line *)

Lemma bind_Ok_eq {A B} (m : result A) (k : A -> result B) (x : A) :
  m = Ok x -> m ≫= k = k x.
Proof. by intros ->. Qed.

(** C4, as amended.  A line whose header2 stage stored at least two
    points (inner geometry): [ParseGeometry] returns, and leaves the first
    stored point, the intermediate points whose marker is at most the scale
    index of the requested scale, and the last stored point; when no
    intermediate point passes, it leaves instead the intermediate points
    whose marker is the smallest one, provided that marker is at most the
    last scale index of the container.  So with markers that are scale
    indices of the container the result is the filter of the claim, and
    with markers that are all above the scale index and above the last scale
    index only the two endpoints are left. *)
Theorem ParseGeometry_inner_line (li : SharedLoadInfo) (scale : Z)
    (f f1 : FeatureType) (h : Z) :
  Parsed.m_points (m_parsed f) = false ->
  m_loadInfo f = Some li ->
  ParseHeader2 f = Ok f1 ->
  Header (m_data f1) = Ok h ->
  Z.land h HEADER_MASK_GEOMTYPE = HeaderGeomType_Line ->
  (2 <= length (m_points f1))%nat ->
  let first := m_points f1 !!! 0%nat in
  let last := m_points f1 !!! (length (m_points f1) - 1)%nat in
  let ms := markers (m_ptsSimpMask f1) (length (m_points f1)) in
  let mid := zip ms (intermediates (m_points f1)) in
  exists f2,
    ParseGeometry scale f = Ok (0, f2)
    /\ m_points f2
       = bounded_filterInner (GetScalesCount li - 1)
           (GetScaleIndexNoOffsets li scale) first last mid
    /\ (Forall (fun m => m <= GetScalesCount li - 1) ms ->
        m_points f2
        = spec_filterInner (GetScaleIndexNoOffsets li scale) first last mid)
    /\ (Forall (fun m => GetScaleIndexNoOffsets li scale < m
                         /\ GetScalesCount li - 1 < m) ms ->
        m_points f2 = [first; last])
    /\ Parsed.m_points (m_parsed f2) = true.
Proof.
  intros Hflag Hli Hh2 Hhdr Hline Hlen first last ms mid.
  unfold ParseGeometry. rewrite Hflag. unfold CHECK_loadInfo. rewrite Hli.
  cbn [mbind result_bind].
  rewrite (bind_Ok_eq _ _ _ Hh2), (bind_Ok_eq _ _ _ Hhdr).
  rewrite Hline, Z.eqb_refl.
  rewrite (proj2 (Nat.ltb_ge _ _)) by lia.
  cbn [mbind result_bind].
  eexists. split; [reflexivity|]. simpl.
  split; [by apply filterInner_bounded|].
  split; [intros Hbound; by apply filterInner_spec|].
  split; [|done].
  intros Habove. rewrite filterInner_bounded by done.
  apply bounded_filterInner_endpoints. subst mid ms.
  by rewrite markers_of_zip.
Qed.

Lemma GetScaleIndex_for_range li scale offsets fuel i0 ind :
  0 <= i0 ->
  GetScaleIndex_for li scale offsets fuel i0 = Some (Ok ind) ->
  ind = -1 \/ (0 <= ind /\ is_Some (offsets !! Z.to_nat ind)).
Proof.
  revert i0. induction fuel as [|fuel IH]; intros i0 Hi0; [done|].
  simpl. destruct (scale <=? GetScale li i0).
  - destruct (offsets !! Z.to_nat i0) as [o|] eqn:Ho; [|done].
    intros [= <-]. destruct (o =? kInvalidOffset); [by left|].
    right. split; [done|]. by rewrite Ho.
  - apply IH. lia.
Qed.

(** An index returned by the lookup is "not found" or inside the table. *)
Lemma GetScaleIndex_range li scale offsets ind :
  GetScaleIndex li scale offsets = Ok ind ->
  ind = -1 \/ (0 <= ind /\ is_Some (offsets !! Z.to_nat ind)).
Proof.
  unfold GetScaleIndex.
  assert (forall r,
            (if (0 <=? r) && (r <? Z.of_nat (length offsets))
             then Ok r else Ok (-1)) = Ok ind ->
            ind = -1 \/ (0 <= ind /\ is_Some (offsets !! Z.to_nat ind))) as Hafter.
  { intros r. destruct (Z.leb_spec 0 r), (Z.ltb_spec r (Z.of_nat (length offsets)));
      simpl; intros [= <-]; try by left.
    right. split; [done|]. apply lookup_lt_is_Some_2. lia. }
  destruct (_ =? BEST_GEOMETRY); [apply Hafter|].
  destruct (_ =? WORST_GEOMETRY); [apply Hafter|].
  destruct (GetScaleIndex_for _ _ _ _ _) as [[r|e]|] eqn:Hfor.
  - intros [= <-]. by eapply GetScaleIndex_for_range.
  - done.
  - apply Hafter.
Qed.

(** C5, as amended.  A line whose header2 stage stored the first point only
    (outer geometry) and whose lookup for the requested scale finds no
    offset: [ParseGeometry] looks up [WORST_GEOMETRY]; if that finds an
    index it returns the first point followed by the path decoded at that
    index, from its offset and with the first point as base point; if it
    finds none, [ParseGeometry] still returns, with the first point alone.
    The second lookup finds the lowest populated index whenever an offset is
    populated, whatever level the requested scale maps to. *)
Theorem ParseGeometry_outer_fallback (li : SharedLoadInfo) (scale : Z)
    (f f1 : FeatureType) (h : Z) (p0 : PointD) :
  Parsed.m_points (m_parsed f) = false ->
  m_loadInfo f = Some li ->
  ParseHeader2 f = Ok f1 ->
  Header (m_data f1) = Ok h ->
  Z.land h HEADER_MASK_GEOMTYPE = HeaderGeomType_Line ->
  m_points f1 = [p0] ->
  GetScaleIndex li scale (Offsets.m_pts (m_offsets f1)) = Ok (-1) ->
  let offsets := Offsets.m_pts (m_offsets f1) in
  (forall ind, GetScaleIndex li WORST_GEOMETRY offsets = Ok ind -> ind <> -1 ->
     exists offset sz f2,
       offsets !! Z.to_nat ind = Some offset
       /\ ParseGeometry scale f = Ok (sz, f2)
       /\ m_points f2
          = p0 :: (LoadOuterPath (GetGeometryReader li ind) offset
                     (SetBasePoint (GetGeometryCodingParams li ind) p0)).1
       /\ Parsed.m_points (m_parsed f2) = true)
  /\ (GetScaleIndex li WORST_GEOMETRY offsets = Ok (-1) ->
      exists f2,
        ParseGeometry scale f = Ok (0, f2)
        /\ m_points f2 = [p0]
        /\ Parsed.m_points (m_parsed f2) = true)
  /\ (clampScale li WORST_GEOMETRY = WORST_GEOMETRY ->
      forall i, populated offsets i -> (forall j, j < i -> ~ populated offsets j) ->
        GetScaleIndex li WORST_GEOMETRY offsets = Ok i).
Proof.
  intros Hflag Hli Hh2 Hhdr Hline Hpts Hfirst offsets. subst offsets.
  split_and!.
  - intros ind Hworst Hne.
    destruct (GetScaleIndex_range _ _ _ _ Hworst) as [?|[Hind [offset Hoff]]];
      [done|].
    unfold ParseGeometry. rewrite Hflag. unfold CHECK_loadInfo. rewrite Hli.
    cbn [mbind result_bind].
    rewrite (bind_Ok_eq _ _ _ Hh2), (bind_Ok_eq _ _ _ Hhdr).
    rewrite Hline, Z.eqb_refl, Hpts. cbn [length Nat.ltb Nat.leb].
    rewrite Hfirst. cbn [mbind result_bind]. rewrite Z.eqb_refl.
    rewrite Hworst. cbn [mbind result_bind].
    rewrite (proj2 (Z.eqb_neq _ _) Hne).
    unfold deref. rewrite Hoff. cbn [mbind result_bind].
    destruct (LoadOuterPath _ _ _) as [pts pos] eqn:Hload.
    cbn [mbind result_bind].
    eexists offset, _, _. split; [done|]. split; [reflexivity|].
    split; [|done]. simpl. by rewrite Hload.
  - intros Hworst.
    unfold ParseGeometry. rewrite Hflag. unfold CHECK_loadInfo. rewrite Hli.
    cbn [mbind result_bind].
    rewrite (bind_Ok_eq _ _ _ Hh2), (bind_Ok_eq _ _ _ Hhdr).
    rewrite Hline, Z.eqb_refl, Hpts. cbn [length Nat.ltb Nat.leb].
    rewrite Hfirst. cbn [mbind result_bind]. rewrite Z.eqb_refl.
    rewrite Hworst. cbn [mbind result_bind]. rewrite Z.eqb_refl.
    cbn [mbind result_bind].
    eexists. split; [reflexivity|]. split; [|done]. simpl. done.
  - intros Hclamp i Hpop Hlow.
    by apply (GetScaleIndex_lowest li WORST_GEOMETRY).
Qed.

(** ** Reparsing after [ResetGeometry] *)

Ltac crunch :=
  repeat match goal with
    | H : mbind _ _ = Ok _ |- _ => apply bind_Ok in H as (? & ? & H)
    | H : Fail _ = Ok _ |- _ => discriminate H
    | H : Ok _ = Ok _ |- _ => injection H as H; try subst
    | H : (_, _) = (_, _) |- _ => injection H as ??; try subst
    | H : context [if ?c then _ else _] |- _ => destruct c eqn:?
    | H : context [match ?x with (_, _) => _ end] |- _ => destruct x eqn:?
    end.

Lemma ParseTypes_frame f f' :
  ParseTypes f = Ok f' ->
  m_loadInfo f' = m_loadInfo f /\ m_data f' = m_data f
  /\ m_header f' = m_header f
  /\ m_ptsSimpMask f' = m_ptsSimpMask f /\ m_points f' = m_points f
  /\ m_triangles f' = m_triangles f /\ m_limitRect f' = m_limitRect f
  /\ Offsets.m_pts (m_offsets f') = Offsets.m_pts (m_offsets f)
  /\ Offsets.m_trg (m_offsets f') = Offsets.m_trg (m_offsets f)
  /\ Parsed.m_header2 (m_parsed f') = Parsed.m_header2 (m_parsed f)
  /\ Parsed.m_points (m_parsed f') = Parsed.m_points (m_parsed f)
  /\ Parsed.m_common (m_parsed f') = Parsed.m_common (m_parsed f).
Proof.
  unfold ParseTypes. intros Hp. crunch; done.
Qed.

Lemma ParseCommon_frame f f' :
  ParseCommon f = Ok f' ->
  m_loadInfo f' = m_loadInfo f /\ m_data f' = m_data f
  /\ m_header f' = m_header f
  /\ m_ptsSimpMask f' = m_ptsSimpMask f /\ m_points f' = m_points f
  /\ m_triangles f' = m_triangles f
  /\ Offsets.m_pts (m_offsets f') = Offsets.m_pts (m_offsets f)
  /\ Offsets.m_trg (m_offsets f') = Offsets.m_trg (m_offsets f)
  /\ Parsed.m_header2 (m_parsed f') = Parsed.m_header2 (m_parsed f)
  /\ Parsed.m_points (m_parsed f') = Parsed.m_points (m_parsed f).
Proof.
  unfold ParseCommon. intros Hp.
  destruct (Parsed.m_common (m_parsed f)); [by injection Hp as <-|].
  apply bind_Ok in Hp as (li & Hli & Hp).
  apply bind_Ok in Hp as (ft & Hft & Hp).
  apply ParseTypes_frame in Hft.
  crunch; simpl; naive_solver.
Qed.

Lemma ParseHeader2_frame f g :
  Parsed.m_header2 (m_parsed f) = false ->
  ParseHeader2 f = Ok g ->
  exists fc,
    ParseCommon f = Ok fc
    /\ m_loadInfo g = m_loadInfo fc /\ m_data g = m_data fc
    /\ m_header g = m_header fc
    /\ Offsets.m_header2 (m_offsets g) = Offsets.m_header2 (m_offsets fc)
    /\ Parsed.m_common (m_parsed g) = Parsed.m_common (m_parsed fc)
    /\ Parsed.m_points (m_parsed g) = Parsed.m_points (m_parsed fc).
Proof.
  unfold ParseHeader2. intros -> Hp.
  apply bind_Ok in Hp as (li & Hli & Hp).
  apply bind_Ok in Hp as (fc & Hfc & Hp).
  exists fc. split; [done|].
  crunch; simpl; done.
Qed.

Ltac norm :=
  cbn [m_loadInfo m_data m_metadataDeserializer m_header m_types m_params m_center m_limitRect
       m_points m_triangles m_metadata m_metaIds m_id m_parsed m_offsets
       m_ptsSimpMask m_innerStats
       set_m_types set_m_params set_m_center set_m_limitRect set_m_points
       set_m_triangles set_m_metadata set_m_metaIds set_m_parsed set_m_offsets
       set_m_ptsSimpMask set_m_innerStats
       Parsed.m_types Parsed.m_common Parsed.m_header2 Parsed.m_points
       Parsed.m_triangles Parsed.m_metadata Parsed.m_metaIds
       Parsed.set_m_types Parsed.set_m_common Parsed.set_m_header2
       Parsed.set_m_points Parsed.set_m_triangles Parsed.set_m_metadata
       Parsed.set_m_metaIds
       Offsets.m_common Offsets.m_header2 Offsets.m_pts Offsets.m_trg
       Offsets.set_m_common Offsets.set_m_header2 Offsets.set_m_pts
       Offsets.set_m_trg
       InnerGeomStat.m_points InnerGeomStat.m_strips InnerGeomStat.m_size
       InnerGeomStat.set_m_points InnerGeomStat.set_m_strips
       InnerGeomStat.set_m_size
       mbind result_bind] in *.

Lemma ParseHeader2_agree (a b a' : FeatureType) (li : SharedLoadInfo) :
  Parsed.m_header2 (m_parsed a) = false ->
  Parsed.m_header2 (m_parsed b) = false ->
  Parsed.m_common (m_parsed a) = true ->
  Parsed.m_common (m_parsed b) = true ->
  m_loadInfo a = Some li -> m_loadInfo b = Some li ->
  m_data b = m_data a ->
  Offsets.m_header2 (m_offsets b) = Offsets.m_header2 (m_offsets a) ->
  m_ptsSimpMask b = m_ptsSimpMask a ->
  m_points b = m_points a ->
  m_triangles b = m_triangles a ->
  Offsets.m_pts (m_offsets b) = Offsets.m_pts (m_offsets a) ->
  Offsets.m_trg (m_offsets b) = Offsets.m_trg (m_offsets a) ->
  ParseHeader2 a = Ok a' ->
  exists b',
    ParseHeader2 b = Ok b'
    /\ m_points b' = m_points a'
    /\ m_ptsSimpMask b' = m_ptsSimpMask a'
    /\ m_data b' = m_data b
    /\ m_loadInfo b' = m_loadInfo b
    /\ Parsed.m_points (m_parsed b') = Parsed.m_points (m_parsed b).
Proof.
  intros Ha2 Hb2 Hac Hbc Hali Hbli Hdata Hoff Hmask Hpts Htrg Hop Hot Hp.
  unfold ParseHeader2, CHECK_loadInfo, ParseCommon in *.
  rewrite Ha2, Hac, Hali in Hp. rewrite Hb2, Hbc, Hbli.
  norm. rewrite Hdata, Hoff, ?Hmask, ?Hpts, ?Htrg, ?Hop, ?Hot.
  repeat match goal with
    | H : mbind _ ?m = Ok _ |- _ => destruct m eqn:?; norm
    | H : Fail _ = Ok _ |- _ => discriminate H
    | H : context [if ?c then _ else _] |- _ => destruct c eqn:?; norm
    | H : context [match ?x with (_, _) => _ end] |- _ => destruct x eqn:?; norm
    | |- context [m_data b] => rewrite Hdata
    end.
  all: eexists; (split; [reflexivity|]); simplify_eq; norm.
  all: rewrite ?Hpts, ?Hmask, ?Hdata, ?Hbli; done.
Qed.

Lemma GetScaleIndexNoOffsets_for_Some li scale fuel i0 r :
  GetScaleIndexNoOffsets_for li scale fuel i0 = Some r ->
  i0 <= r < i0 + Z.of_nat fuel
  /\ scale <= GetScale li r
  /\ forall j, i0 <= j < r -> GetScale li j < scale.
Proof.
  revert i0. induction fuel as [|fuel IH]; intros i0; [done|].
  simpl. destruct (Z.leb_spec scale (GetScale li i0)) as [Hle|Hgt].
  - intros [= <-]. split; [lia|]. split; [done|]. lia.
  - intros Hr. apply IH in Hr as (Hr & Hcover & Hbelow).
    split; [lia|]. split; [done|]. intros j Hj.
    destruct (decide (j = i0)) as [->|]; [done|]. apply Hbelow. lia.
Qed.

Lemma GetScaleIndexNoOffsets_for_None li scale fuel i0 :
  GetScaleIndexNoOffsets_for li scale fuel i0 = None ->
  forall j, i0 <= j < i0 + Z.of_nat fuel -> GetScale li j < scale.
Proof.
  revert i0. induction fuel as [|fuel IH]; intros i0; [lia|].
  simpl. destruct (Z.leb_spec scale (GetScale li i0)) as [Hle|Hgt]; [done|].
  intros Hr j Hj. destruct (decide (j = i0)) as [->|]; [done|].
  apply (IH _ Hr). lia.
Qed.

(** Between 0 and a last scale that some level covers, a coarser scale maps
    to a coarser (or the same) geometry level. *)
Lemma GetScaleIndexNoOffsets_mono li s1 s2 :
  0 <= s1 <= s2 ->
  0 <= GetLastScale li ->
  (exists i, 0 <= i < GetScalesCount li /\ GetLastScale li <= GetScale li i) ->
  GetScaleIndexNoOffsets li s1 <= GetScaleIndexNoOffsets li s2.
Proof.
  intros Hs Hlast (i & Hi & Hcover). unfold GetScaleIndexNoOffsets.
  rewrite !clampScale_eq. unfold clampScale.
  set (c1 := Z.min s1 (GetLastScale li)). set (c2 := Z.min s2 (GetLastScale li)).
  assert (0 <= c1 <= c2 /\ c2 <= GetLastScale li) as [Hc Hc2] by lia.
  rewrite !(proj2 (Z.eqb_neq _ _)) by (unfold WORST_GEOMETRY, BEST_GEOMETRY; lia).
  destruct (GetScaleIndexNoOffsets_for li c2 _ 0) as [r2|] eqn:H2.
  - apply GetScaleIndexNoOffsets_for_Some in H2 as (Hr2 & Hcov2 & Hbelow2).
    destruct (GetScaleIndexNoOffsets_for li c1 _ 0) as [r1|] eqn:H1.
    + apply GetScaleIndexNoOffsets_for_Some in H1 as (Hr1 & Hcov1 & Hbelow1).
      destruct (Z.le_gt_cases r1 r2) as [|Hgt]; [done|].
      specialize (Hbelow1 r2). lia.
    + lia.
  - pose proof (GetScaleIndexNoOffsets_for_None _ _ _ _ H2 i) as Hno. lia.
Qed.

Lemma filter_length_mono {A} (P Q : A -> Prop)
    `{!forall x, Decision (P x), !forall x, Decision (Q x)} (l : list A) :
  (forall x, x ∈ l -> P x -> Q x) ->
  (length (filter P l) <= length (filter Q l))%nat.
Proof.
  induction l as [|a l IH]; intros Himp; [done|].
  rewrite !filter_cons.
  assert (length (filter P l) <= length (filter Q l))%nat as IH'
    by (apply IH; intros x Hx; apply Himp; by right).
  destruct (decide (P a)) as [HP|HP], (decide (Q a)) as [HQ|HQ]; simpl; try lia.
  exfalso. apply HQ, Himp; [left|done].
Qed.

(** The filter of the specification keeps more points at a finer level. *)
Lemma spec_filterInner_length_mono idx1 idx2 (a b : PointD) mid :
  idx1 <= idx2 ->
  (length (spec_filterInner idx1 a b mid)
   <= length (spec_filterInner idx2 a b mid))%nat.
Proof.
  intros Hidx. unfold spec_filterInner. simpl.
  rewrite !length_app, !length_fmap. simpl.
  apply le_n_S, Nat.add_le_mono_r.
  pose proof (filter_length_mono (fun mp : Z * PointD => mp.1 <= idx1)
                (fun mp => mp.1 <= idx2) mid ltac:(intros; simpl in *; lia))
    as Hmono.
  destruct (filter (fun mp => mp.1 <= idx1) mid) as [|x1 v1] eqn:H1;
    destruct (filter (fun mp => mp.1 <= idx2) mid) as [|x2 v2] eqn:H2;
    simpl in *; try lia.
  change (S (length v2)) with (length (x2 :: v2)).
  rewrite <- H2. apply filter_length_mono.
  intros x Hx Hmin.
  assert (x2 ∈ filter (fun mp : Z * PointD => mp.1 <= idx2) mid) as Hx2
    by (rewrite H2; left).
  apply list_elem_of_filter in Hx2 as [Hle Hin].
  pose proof (min_marker_lower 3 (fst <$> mid) x2.1
                ltac:(by apply list_elem_of_fmap_2)).
  lia.
Qed.

(** So does the filter of the code, whatever the markers. *)
Lemma bounded_filterInner_length_mono lastIndex idx1 idx2 (a b : PointD) mid :
  idx1 <= idx2 ->
  (length (bounded_filterInner lastIndex idx1 a b mid)
   <= length (bounded_filterInner lastIndex idx2 a b mid))%nat.
Proof.
  intros Hidx. unfold bounded_filterInner. simpl.
  rewrite !length_app, !length_fmap. simpl.
  apply le_n_S, Nat.add_le_mono_r.
  pose proof (filter_length_mono (fun mp : Z * PointD => mp.1 <= idx1)
                (fun mp => mp.1 <= idx2) mid ltac:(intros; simpl in *; lia))
    as Hmono.
  destruct (filter (fun mp => mp.1 <= idx1) mid) as [|x1 v1] eqn:H1;
    destruct (filter (fun mp => mp.1 <= idx2) mid) as [|x2 v2] eqn:H2;
    simpl in *; try lia.
  change (S (length v2)) with (length (x2 :: v2)).
  rewrite <- H2. apply filter_length_mono.
  intros x Hx Hmin.
  assert (x2 ∈ filter (fun mp : Z * PointD => mp.1 <= idx2) mid) as Hx2
    by (rewrite H2; left).
  apply list_elem_of_filter in Hx2 as [Hle Hin].
  pose proof (min_marker_lower lastIndex (fst <$> mid) x2.1
                ltac:(by apply list_elem_of_fmap_2)).
  lia.
Qed.

Lemma inner_line_points_eq (li : SharedLoadInfo) (scale : Z)
    (f f1 : FeatureType) (h : Z) :
  Parsed.m_points (m_parsed f) = false ->
  m_loadInfo f = Some li ->
  ParseHeader2 f = Ok f1 ->
  Header (m_data f1) = Ok h ->
  Z.land h HEADER_MASK_GEOMTYPE = HeaderGeomType_Line ->
  (2 <= length (m_points f1))%nat ->
  ParseGeometry scale f
  = Ok (0,
        let g := set_m_points
                   (filterInner li scale (m_points f1) (m_ptsSimpMask f1)) f1 in
        let g := set_m_limitRect (CalcRect (m_points g) (m_limitRect g)) g in
        set_m_parsed (Parsed.set_m_points true (m_parsed g)) g).
Proof.
  intros Hflag Hli Hh2 Hhdr Hline Hlen.
  unfold ParseGeometry. rewrite Hflag. unfold CHECK_loadInfo. rewrite Hli.
  cbn [mbind result_bind].
  rewrite (bind_Ok_eq _ _ _ Hh2), (bind_Ok_eq _ _ _ Hhdr).
  rewrite Hline, Z.eqb_refl.
  rewrite (proj2 (Nat.ltb_ge _ _)) by lia.
  reflexivity.
Qed.

Lemma ParseHeader2_after_common f fc :
  Parsed.m_header2 (m_parsed f) = false ->
  ParseCommon f = Ok fc ->
  ParseHeader2 fc = ParseHeader2 f.
Proof.
  intros Hflag Hfc.
  pose proof (ParseCommon_frame _ _ Hfc) as (Hli & _ & _ & _ & _ & _ & _ & _ & Hh2 & _).
  pose proof (ParseCommon_parsed _ _ Hfc) as Hparsed.
  unfold ParseHeader2. rewrite Hh2, Hflag.
  unfold CHECK_loadInfo. rewrite Hli.
  destruct (m_loadInfo f); [|done]. cbn [mbind result_bind].
  rewrite Hfc. unfold ParseCommon at 1. rewrite Hparsed. done.
Qed.

Lemma FeatureType_new_fresh li data md id f :
  FeatureType_new (Some li) data md id = Ok f ->
  m_loadInfo f = Some li
  /\ Header (m_data f) = Ok (m_header f)
  /\ Parsed.m_header2 (m_parsed f) = false
  /\ Parsed.m_points (m_parsed f) = false
  /\ m_points f = [] /\ m_triangles f = [] /\ m_ptsSimpMask f = 0
  /\ Offsets.m_pts (m_offsets f) = [] /\ Offsets.m_trg (m_offsets f) = [].
Proof.
  unfold FeatureType_new. intros Hnew. destruct md as [d|]; [|done].
  apply bind_Ok in Hnew as (h & Hh & Hnew). injection Hnew as <-. simpl.
  by rewrite Hh.
Qed.

(** C8, as amended.  For a line read from a container whose header2 stage
    stores at least two points (inner geometry), whatever its markers, and
    for scales [0 <= s1 <= s2] (no sentinel) of a container whose last
    scale is covered by a geometry level: parsing at [s1], then
    [ResetGeometry], then parsing at [s2] both return, and the first parse
    leaves at most as many points as the second. *)
Theorem ParseGeometry_inner_monotone (li : SharedLoadInfo) (data : list Z)
    (md : option MetadataDeserializer) (id s1 s2 : Z) (f g : FeatureType) :
  FeatureType_new (Some li) data md id = Ok f ->
  Z.land (m_header f) HEADER_MASK_GEOMTYPE = HeaderGeomType_Line ->
  ParseHeader2 f = Ok g ->
  (2 <= length (m_points g))%nat ->
  0 <= s1 <= s2 ->
  0 <= GetLastScale li ->
  (exists i, 0 <= i < GetScalesCount li /\ GetLastScale li <= GetScale li i) ->
  exists f1 f2,
    ParseGeometry s1 f = Ok (0, f1)
    /\ ParseGeometry s2 (ResetGeometry f1) = Ok (0, f2)
    /\ (GetPointsCount f1 <= GetPointsCount f2)%nat.
Proof.
  intros Hnew Hline Hg Hlen Hs Hlast Hcover.
  apply FeatureType_new_fresh in Hnew
    as (Hli & Hhdr & Hh2flag & Hpflag & Hpts & Htrg & Hmask & Hop & Hot).
  destruct (ParseHeader2_frame _ g Hh2flag Hg)
    as (fc & Hfc & Hgli & Hgdata & Hghdr & Hgoff & Hgcommon & Hgpoints).
  pose proof (ParseCommon_frame _ _ Hfc)
    as (Hcli & Hcdata & Hchdr & Hcmask & Hcpts & Hctrg & Hcop & Hcot & Hch2 & Hcpflag).
  pose proof (ParseCommon_parsed _ _ Hfc) as Hcparsed.
  assert (Header (m_data g) = Ok (m_header f)) as Hhdrg
    by (by rewrite Hgdata, Hcdata).
  pose proof (inner_line_points_eq li s1 f g (m_header f)
                Hpflag Hli Hg Hhdrg Hline Hlen) as H1.
  cbn zeta in H1.
  match type of H1 with _ = Ok (0, ?x) => set (f1 := x) in * end.
  assert (m_loadInfo f1 = Some li) as Hli1.
  { subst f1. simpl. by rewrite Hgli, Hcli. }
  assert (ParseHeader2 fc = Ok g) as Hfcg.
  { erewrite ParseHeader2_after_common; [exact Hg|done|exact Hfc]. }
  destruct (ParseHeader2_agree fc (ResetGeometry f1) g li) as
    (g' & Hg' & Hpts' & Hmask' & Hdata' & Hli' & Hflag'); try done.
  all: try congruence.
  all: try (unfold ResetGeometry; rewrite Hli1; subst f1; cbn zeta;
            destruct (decide _); simpl; congruence).
  assert (m_data (ResetGeometry f1) = m_data g) as Hdatar
    by (unfold ResetGeometry; rewrite Hli1; subst f1; cbn zeta;
        destruct (decide _); simpl; congruence).
  assert (Parsed.m_points (m_parsed (ResetGeometry f1)) = false) as Hpflagr
    by (unfold ResetGeometry; rewrite Hli1; subst f1; cbn zeta;
        destruct (decide _); simpl; congruence).
  assert (m_loadInfo (ResetGeometry f1) = Some li) as Hlir
    by (unfold ResetGeometry; rewrite Hli1; subst f1; cbn zeta;
        destruct (decide _); simpl; congruence).
  assert (Header (m_data g') = Ok (m_header f)) as Hhdrg' by congruence.
  assert (2 <= length (m_points g'))%nat as Hlen' by (by rewrite Hpts').
  pose proof (inner_line_points_eq li s2 (ResetGeometry f1) g' (m_header f)
                Hpflagr Hlir Hg' Hhdrg' Hline Hlen') as H2.
  cbn zeta in H2.
  eexists _, _. split; [exact H1|]. split; [exact H2|].
  unfold GetPointsCount. subst f1. simpl.
  rewrite Hpts', Hmask'.
  rewrite !filterInner_bounded by done.
  apply bounded_filterInner_length_mono.
  by apply GetScaleIndexNoOffsets_mono.
Qed.

End DecoderFacts.

(** ** The claims on the example container *)

Import FeatureExamples.

(** A fact about what a run returns, from the run evaluated. *)
Ltac from_run Hrun :=
  match type of Hrun with
  | ?run = Ok ?x =>
      match goal with
      | |- ?lhs = ?v =>
          let get := eval pattern x in lhs in
          match get with
          | ?g _ =>
              let Hx := fresh in
              assert (g <$> run = Ok v) as Hx by (vm_compute; reflexivity);
              rewrite Hrun in Hx; by injection Hx
          end
      end
  end.

Lemma GetScaleIndex_spec_witness :
  clampScale loadInfo4 11 <> BEST_GEOMETRY
  /\ clampScale loadInfo4 11 <> WORST_GEOMETRY
  /\ GetScalesCount loadInfo4 <= Z.of_nat (length offsets12)
  /\ first_covering loadInfo4 (clampScale loadInfo4 11) 1
  /\ populated offsets12 1
  /\ GetScaleIndex loadInfo4 11 offsets12 = Ok 1.
Proof.
  assert (clampScale loadInfo4 11 <> BEST_GEOMETRY) as Hb by discriminate.
  assert (clampScale loadInfo4 11 <> WORST_GEOMETRY) as Hw by discriminate.
  assert (GetScalesCount loadInfo4 <= Z.of_nat (length offsets12)) as Hlen
    by (simpl; lia).
  assert (first_covering loadInfo4 (clampScale loadInfo4 11) 1) as Hfirst.
  { split; [simpl; lia|]. split; [vm_compute; discriminate|].
    intros j Hj. assert (j = 0) as -> by lia. vm_compute. reflexivity. }
  assert (populated offsets12 1) as Hpop.
  { split; [lia|]. exists 7. split; [reflexivity|discriminate]. }
  repeat (split; [assumption|]).
  destruct (GetScaleIndex_spec loadInfo4 11 offsets12) as [Hdefault _].
  destruct (Hdefault Hb Hw Hlen) as [Hcover _].
  by apply (Hcover 1 Hfirst).
Defined.

(** C3 as stated fails when the first level covering the scale has no
    offset and a later level has one: for scale 9 the first covering level is
    0, its offset is absent, and the lookup answers "not found", although
    level 1 covers the scale and is populated and no smaller index does
    both. *)
Lemma GetScaleIndex_later_level_counterexample :
  GetScaleIndex loadInfo4 9 offsets12 = Ok (-1)
  /\ 9 <= GetScale loadInfo4 1
  /\ populated offsets12 1
  /\ ~ populated offsets12 0.
Proof.
  split_and!.
  - reflexivity.
  - vm_compute. discriminate.
  - split; [lia|]. exists 7. split; [reflexivity|discriminate].
  - intros (_ & o & [= <-] & Hne). by apply Hne.
Qed.

Lemma ParseGeometry_inner_line_witness :
  Parsed.m_points (m_parsed (loaded innerLineData12)) = false
  /\ m_loadInfo (loaded innerLineData12) = Some loadInfo4
  /\ points_of (ParseGeometry 11 (loaded innerLineData12)) = Ok [10; 11; 13]
  /\ points_of (ParseGeometry 13 (loaded innerLineData12)) = Ok [10; 11; 12; 13]
  /\ points_of (ParseGeometry 5 (loaded innerLineData12)) = Ok [10; 11; 13].
Proof.
  split; [reflexivity|]. split; [reflexivity|].
  destruct (ParseHeader2 (loaded innerLineData12)) as [g|e] eqn:Hh2;
    [|vm_compute in Hh2; discriminate].
  assert (Header (m_data g) = Ok 1) as Hhdr by from_run Hh2.
  assert (m_points g = [10; 11; 12; 13]) as Hpts by from_run Hh2.
  assert (m_ptsSimpMask g = 9) as Hmask by from_run Hh2.
  assert (forall scale expected,
            spec_filterInner (GetScaleIndexNoOffsets loadInfo4 scale) 10 13
              [(1, 11); (2, 12)] = expected ->
            points_of (ParseGeometry scale (loaded innerLineData12)) = Ok expected)
    as Hrun.
  { intros scale expected <-.
    destruct (ParseGeometry_inner_line loadInfo4 scale (loaded innerLineData12)
                g 1 eq_refl eq_refl Hh2 Hhdr eq_refl
                ltac:(rewrite Hpts; simpl; lia))
      as (f2 & Hp & _ & Hspec & _).
    rewrite Hp. unfold points_of. cbn [fmap result_fmap snd]. rewrite Hspec.
    - rewrite Hpts, Hmask. reflexivity.
    - rewrite Hpts, Hmask. repeat constructor; vm_compute; discriminate. }
  split_and!; by apply Hrun.
Defined.

(** C4 as stated fails when the markers are above the last scale index of
    the container.  In a container with two levels the line with the
    markers 2 and 2 keeps, at scale 5 (scale index 0), its two endpoints
    only: no marker passes, and the fallback starts at the last scale index,
    1, which no marker equals.  By the words of the claim the smallest
    marker is 2 and both intermediate points are re-included. *)
Lemma ParseGeometry_inner_line_counterexample :
  FeatureType_new (Some loadInfo2) innerLineData22 (Some tt) 0
    = Ok (loaded_in loadInfo2 0 innerLineData22)
  /\ GetScaleIndexNoOffsets loadInfo2 5 = 0
  /\ markers 10 4 = [2; 2]
  /\ points_of (ParseGeometry 5 (loaded_in loadInfo2 0 innerLineData22))
     = Ok [10; 13]
  /\ spec_filterInner 0 10 13 [(2, 11); (2, 12)] = [10; 11; 12; 13].
Proof. split_and!; vm_compute; reflexivity. Qed.

(** C5 as stated fails where it calls the index of the second lookup
    coarser.  Scale 5 maps to level 0, which the line does not have; the
    lookup of [WORST_GEOMETRY] returns level 1, the lowest level the line
    has, and [ParseGeometry] decodes that level, which is finer than the
    level of the requested scale. *)
Lemma ParseGeometry_fallback_finer_counterexample :
  (fun g => Offsets.m_pts (m_offsets g)) <$> ParseHeader2 (loaded outerLineData)
    = Ok offsets12
  /\ first_covering loadInfo4 (clampScale loadInfo4 5) 0
  /\ GetScaleIndex loadInfo4 5 offsets12 = Ok (-1)
  /\ GetScaleIndex loadInfo4 WORST_GEOMETRY offsets12 = Ok 1
  /\ GetScale loadInfo4 0 < GetScale loadInfo4 1
  /\ points_of (ParseGeometry 5 (loaded outerLineData)) = Ok [10; 107; 108]
  /\ (LoadOuterPath (GetGeometryReader loadInfo4 1) 7
        (SetBasePoint (GetGeometryCodingParams loadInfo4 1) 10)).1
     = [107; 108].
Proof.
  split; [vm_compute; reflexivity|]. split.
  { split; [simpl; lia|]. split; [vm_compute; discriminate|]. intros j Hj. lia. }
  split_and!; vm_compute; reflexivity.
Qed.

Lemma ParseGeometry_outer_fallback_witness :
  Parsed.m_points (m_parsed (loaded outerLineData)) = false
  /\ m_loadInfo (loaded outerLineData) = Some loadInfo4
  /\ GetScaleIndex loadInfo4 5 offsets12 = Ok (-1)
  /\ GetScaleIndex loadInfo4 WORST_GEOMETRY offsets12 = Ok 1
  /\ points_of (ParseGeometry 5 (loaded outerLineData)) = Ok [10; 107; 108].
Proof.
  do 4 (split; [reflexivity|]).
  destruct (ParseHeader2 (loaded outerLineData)) as [g|e] eqn:Hh2;
    [|vm_compute in Hh2; discriminate].
  assert (Header (m_data g) = Ok 1) as Hhdr by from_run Hh2.
  assert (m_points g = [10]) as Hpts by from_run Hh2.
  assert (Offsets.m_pts (m_offsets g) = offsets12) as Hoffs by from_run Hh2.
  destruct (ParseGeometry_outer_fallback loadInfo4 5 (loaded outerLineData)
              g 1 10 eq_refl eq_refl Hh2 Hhdr eq_refl Hpts
              ltac:(by rewrite Hoffs)) as (Hfound & _ & _).
  rewrite Hoffs in Hfound.
  destruct (Hfound 1 eq_refl ltac:(discriminate))
    as (offset & sz & f2 & Hoff & Hp & Hpts2 & _).
  injection Hoff as <-. rewrite Hp. unfold points_of.
  cbn [fmap result_fmap snd]. rewrite Hpts2. reflexivity.
Defined.

(** C8 as stated fails, for a sentinel and for ordinary scales.  The inner
    line has 4 points at [BEST_GEOMETRY = -1] and 3 at scale 0.  The outer
    line has levels 1 and 2 only: scale 13 reads level 2 (4 points), while
    scale 17 maps to level 3, which is absent, and falls back to the worst
    level, 1 (3 points). *)
Lemma ParseGeometry_monotone_counterexample :
  (BEST_GEOMETRY <= 0
   /\ points_of (ParseGeometry BEST_GEOMETRY (loaded innerLineData))
      = Ok [10; 11; 12; 13]
   /\ points_of (r ← ParseGeometry BEST_GEOMETRY (loaded innerLineData);
                 ParseGeometry 0 (ResetGeometry r.2))
      = Ok [10; 11; 13])
  /\ (13 <= 17
      /\ points_of (ParseGeometry 13 (loaded outerLineData))
         = Ok [10; 209; 210; 211]
      /\ points_of (r ← ParseGeometry 13 (loaded outerLineData);
                    ParseGeometry 17 (ResetGeometry r.2))
         = Ok [10; 107; 108]).
Proof. split_and!; try reflexivity; discriminate. Qed.

Lemma ParseGeometry_inner_monotone_witness :
  FeatureType_new (Some loadInfo4) innerLineData (Some tt) 0
    = Ok (loaded innerLineData)
  /\ 0 <= 5 <= 11
  /\ (exists f1 f2,
        ParseGeometry 5 (loaded innerLineData) = Ok (0, f1)
        /\ ParseGeometry 11 (ResetGeometry f1) = Ok (0, f2)
        /\ (GetPointsCount f1 <= GetPointsCount f2)%nat).
Proof.
  split; [reflexivity|]. split; [lia|].
  destruct (ParseHeader2 (loaded innerLineData)) as [g|e] eqn:Hh2;
    [|vm_compute in Hh2; discriminate].
  assert (length (m_points g) = 4%nat) as Hlen by from_run Hh2.
  apply (ParseGeometry_inner_monotone loadInfo4 innerLineData (Some tt) 0 5 11
           (loaded innerLineData) g);
    [reflexivity|reflexivity|exact Hh2|rewrite Hlen; lia|lia|simpl; lia|].
  exists 3. split; [simpl; lia|]. vm_compute. discriminate.
Defined.

(** C9 as stated fails for a feature made from a MapObject: it is parsed
    past the common stage, yet [ResetGeometry] keeps its points and its
    parsed flags. *)
Lemma ResetGeometry_edited_counterexample :
  match FeatureType_ofMapObject editedLine with
  | Ok f =>
      Parsed.m_common (m_parsed f) = true
      /\ m_points (ResetGeometry f) = [10; 11; 12]
      /\ Parsed.m_points (m_parsed (ResetGeometry f)) = true
      /\ Parsed.m_header2 (m_parsed (ResetGeometry f)) = true
  | Fail _ => False
  end.
Proof. vm_compute. done. Qed.

Lemma ResetGeometry_frame_witness :
  m_loadInfo (loaded innerLineData) <> None
  /\ points_of (ParseGeometry 11 (loaded innerLineData)) = Ok [10; 11; 12; 13]
  /\ points_of ((fun r => (r.1, ResetGeometry r.2))
                  <$> ParseGeometry 11 (loaded innerLineData)) = Ok [].
Proof.
  split; [discriminate|]. split; [reflexivity|].
  destruct (ParseGeometry 11 (loaded innerLineData)) as [[sz f]|e] eqn:Hp;
    [|discriminate].
  assert (m_loadInfo f <> None) as Hli.
  { vm_compute in Hp. injection Hp as _ <-. discriminate. }
  destruct (ResetGeometry_frame f) as [_ Hreset].
  destruct (Hreset Hli) as ((Hpts & _) & _).
  unfold points_of. simpl. by rewrite Hpts.
Defined.

Lemma GetLayer_spec_witness :
  Z.land (m_header (loaded innerLineData)) HEADER_MASK_HAS_LAYER = 0
  /\ GetLayer (loaded innerLineData) = Ok (0, loaded innerLineData)
  /\ Z.land (m_header (loaded layeredPointData)) HEADER_MASK_HAS_LAYER <> 0
  /\ fst <$> GetLayer (loaded layeredPointData) = Ok 2.
Proof.
  assert (Z.land (m_header (loaded innerLineData)) HEADER_MASK_HAS_LAYER = 0)
    as Hclear by reflexivity.
  assert (Z.land (m_header (loaded layeredPointData)) HEADER_MASK_HAS_LAYER <> 0)
    as Hset by discriminate.
  destruct (GetLayer_spec (loaded innerLineData)) as [H0 _].
  destruct (GetLayer_spec (loaded layeredPointData)) as [_ H1].
  destruct (H1 Hset) as [Heq _].
  split; [exact Hclear|]. split; [by apply H0|]. split; [exact Hset|].
  rewrite Heq. reflexivity.
Defined.

Lemma ParseGeometry_idempotent_witness :
  points_of (ParseGeometry 5 (loaded innerLineData)) = Ok [10; 11; 13]
  /\ points_of (r ← ParseGeometry 5 (loaded innerLineData); ParseGeometry 11 r.2)
     = Ok [10; 11; 13].
Proof.
  split; [reflexivity|].
  destruct (ParseGeometry_idempotent 5 11 (loaded innerLineData)) as [Hre _].
  rewrite Hre. reflexivity.
Defined.



(** * Further properties of the decoder *)

(** Walks the equations of a stage that returned. *)
Ltac unstage :=
  repeat match goal with
    | H : mbind _ _ = Ok _ |- _ => apply bind_Ok in H as (? & ? & H)
    | H : Fail _ = Ok _ |- _ => discriminate H
    | H : Ok _ = Ok _ |- _ => injection H as H; try subst
    | H : (_, _) = (_, _) |- _ => injection H as ??; try subst
    | H : context [if ?c then _ else _] |- _ => destruct c eqn:?
    | H : context [match ?x with (_, _) => _ end] |- _ => destruct x eqn:?
    end.

(** ** The byte-level helpers *)

Section ReaderFacts.
Context `{Externals}.

(** X8.  [BitSource::Read] on a byte of the buffer returns the [count] bits
    above bit [pos] and moves to the next byte exactly when the byte is used
    up; whatever was read of a byte, [RoundPtr] then points to the byte after
    it.  A read outside the buffer is out of range. *)
Theorem BitSource_Read_bits (data : list Z) (p : nat) :
  (data !! p = None ->
   forall pos count,
     BitSource_Read data (mkBitSource p pos) count = Fail OutOfRange)
  /\ (forall b pos count,
        data !! p = Some b -> 0 <= b < 256 ->
        0 <= pos -> 0 < count -> pos + count <= 8 ->
        exists bs,
          BitSource_Read data (mkBitSource p pos) count
          = Ok ((b / 2 ^ pos) mod 2 ^ count, bs)
          /\ bs = (if decide (pos + count = 8) then mkBitSource (S p) 0
                   else mkBitSource p (pos + count))
          /\ BitSource_RoundPtr bs = S p).
Proof.
  split.
  - intros Hnone pos count. unfold BitSource_Read, deref. simpl.
    by rewrite Hnone.
  - intros b pos count Hb Hrange Hpos Hcount Hsum.
    unfold BitSource_Read, deref. simpl. rewrite Hb. simpl.
    assert (Z.shiftl 1 count - 1 = Z.ones count) as ->
      by (rewrite Z.ones_equiv, Z.shiftl_1_l; lia).
    rewrite Z.land_ones, Z.shiftr_div_pow2 by lia.
    unfold to_uint8. rewrite (Z.mod_small (pos + count)) by lia.
    destruct (decide (pos + count = 8)) as [Heq|Hne].
    + rewrite (proj2 (Z.geb_le _ _)) by lia.
      eexists. split; [reflexivity|]. split; [done|]. done.
    + destruct (Z.geb_spec (pos + count) 8) as [|Hlt]; [lia|].
      eexists. split; [reflexivity|]. split; [done|].
      unfold BitSource_RoundPtr. simpl.
      by rewrite (proj2 (Z.gtb_lt _ _)) by lia.
Qed.

(** *** The offset table *)






Lemma length_resize n x l : length (resize n x l) = n.
Proof.
  unfold resize. rewrite length_app, length_take, length_replicate. lia.
Qed.


End ReaderFacts.

(** ** The scale index *)

Section ScaleIndexFacts.
Context `{Externals}.

Lemma GetScaleIndex_for_populated li scale offsets fuel i0 ind :
  0 <= i0 ->
  GetScaleIndex_for li scale offsets fuel i0 = Some (Ok ind) ->
  ind = -1 \/ populated offsets ind.
Proof.
  revert i0. induction fuel as [|fuel IH]; intros i0 Hi0; [done|].
  simpl. destruct (scale <=? GetScale li i0).
  - destruct (offsets !! Z.to_nat i0) as [o|] eqn:Ho; [|done].
    intros [= <-]. destruct (Z.eqb_spec o kInvalidOffset) as [|Hvalid]; [by left|].
    right. split; [done|]. by exists o.
  - apply IH. lia.
Qed.

Lemma GetScaleIndex_for_no_Fail li scale offsets fuel i0 e :
  0 <= i0 ->
  i0 + Z.of_nat fuel <= Z.of_nat (length offsets) ->
  GetScaleIndex_for li scale offsets fuel i0 <> Some (Fail e).
Proof.
  revert i0. induction fuel as [|fuel IH]; intros i0 Hi0 Hlen; [done|].
  simpl. destruct (scale <=? GetScale li i0).
  - destruct (lookup_lt_is_Some_2 offsets (Z.to_nat i0)) as [o ->]; [lia|done].
  - apply IH; lia.
Qed.

(** What [GetScaleIndex] returns is -1 or the index of a present offset. *)
Lemma GetScaleIndex_result li scale offsets ind :
  GetScaleIndex li scale offsets = Ok ind ->
  ind = -1 \/ populated offsets ind.
Proof.
  unfold GetScaleIndex.
  set (s := if scale >? GetLastScale li then GetLastScale li else scale).
  assert (forall r,
            r = -1 \/ populated offsets r ->
            (if (0 <=? r) && (r <? Z.of_nat (length offsets))
             then Ok r else Ok (-1)) = Ok ind ->
            ind = -1 \/ populated offsets ind) as Hafter.
  { intros r Hr. destruct (_ && _); intros [= <-]; [done|by left]. }
  destruct (s =? BEST_GEOMETRY).
  { apply Hafter.
    destruct (GetScaleIndex_best_spec offsets (length offsets))
      as [[-> _]|(_ & Hpop & _)]; [done|by left|by right]. }
  destruct (s =? WORST_GEOMETRY).
  { destruct (GetScaleIndex_worst_spec offsets (length offsets) 0)
      as [[-> _]|(_ & Hpop & _)]; [done| |].
    - rewrite (proj2 (Z.ltb_ge _ _)), andb_false_r by lia.
      intros [= <-]. by left.
    - apply Hafter. by right. }
  destruct (GetScaleIndex_for li s offsets _ 0) as [[r|e]|] eqn:Hfor.
  + intros [= <-]. eapply GetScaleIndex_for_populated; [|exact Hfor]. lia.
  + done.
  + apply Hafter. by left.
Qed.

(** With an entry for every scale of the container, [GetScaleIndex] reads no
    entry outside the table. *)
Lemma GetScaleIndex_returns li scale offsets :
  GetScalesCount li <= Z.of_nat (length offsets) ->
  exists ind, GetScaleIndex li scale offsets = Ok ind.
Proof.
  intros Hlen. unfold GetScaleIndex.
  set (s := if scale >? GetLastScale li then GetLastScale li else scale).
  assert (forall r : Z,
            exists ind,
              (if (0 <=? r) && (r <? Z.of_nat (length offsets))
               then Ok r else Ok (-1)) = Ok ind) as Hreturns.
  { intros r. destruct (_ && _); by eexists. }
  destruct (s =? BEST_GEOMETRY); [apply Hreturns|].
  destruct (s =? WORST_GEOMETRY); [apply Hreturns|].
  destruct (GetScaleIndex_for li s offsets _ 0) as [[r|e]|] eqn:Hfor.
  + by exists r.
  + exfalso. eapply (GetScaleIndex_for_no_Fail li s offsets); [| |exact Hfor]; lia.
  + apply Hreturns.
Qed.

(** X10.  [GetScaleIndex] with an offset table never returns the index of
    an absent offset: what it returns is -1 or an index inside the table
    whose offset is present.  When the table has an entry for every scale of
    the container it reads no entry outside the table, and it does return;
    a table shorter than that can make it read past the end. *)
Theorem GetScaleIndex_populated (li : SharedLoadInfo) (scale : Z)
    (offsets : list Z) :
  (forall ind, GetScaleIndex li scale offsets = Ok ind ->
     (ind = -1 \/ populated offsets ind)
     /\ -1 <= ind < Z.of_nat (length offsets))
  /\ (GetScalesCount li <= Z.of_nat (length offsets) ->
      exists ind, GetScaleIndex li scale offsets = Ok ind)
  /\ (clampScale li scale <> BEST_GEOMETRY ->
      clampScale li scale <> WORST_GEOMETRY ->
      forall i, first_covering li (clampScale li scale) i ->
        Z.of_nat (length offsets) <= i ->
        GetScaleIndex li scale offsets = Fail OutOfRange).
Proof.
  split; [|split].
  - intros ind Hind. split; [by eapply GetScaleIndex_result|].
    destruct (GetScaleIndex_result _ _ _ _ Hind) as [->|Hpop]; [lia|].
    apply populated_lt in Hpop. lia.
  - apply GetScaleIndex_returns.
  - intros Hbest Hworst i (Hi & Hcover & Hbelow) Hout.
    unfold GetScaleIndex. rewrite clampScale_eq.
    rewrite (proj2 (Z.eqb_neq _ _) Hbest), (proj2 (Z.eqb_neq _ _) Hworst).
    assert (forall fuel i0,
              0 <= i0 <= i -> i < i0 + Z.of_nat fuel ->
              GetScaleIndex_for li (clampScale li scale) offsets fuel i0
              = Some (Fail OutOfRange)) as Hfor.
    { induction fuel as [|fuel IH]; intros i0 Hi0 Hfuel; [lia|].
      simpl. destruct (Z.leb_spec (clampScale li scale) (GetScale li i0)) as [Hle|Hgt].
      - assert (i0 = i) as ->.
        { destruct (decide (i0 = i)) as [|Hne]; [done|].
          specialize (Hbelow i0 ltac:(lia)). lia. }
        rewrite lookup_ge_None_2 by lia. done.
      - apply IH; [|lia]. destruct (decide (i0 = i)) as [->|]; lia. }
    rewrite Hfor; [done|lia|lia].
Qed.

(** X11.  [GetScaleIndex] without an offset table: [WORST_GEOMETRY] is
    level 0 and [BEST_GEOMETRY] the last level, whatever the container
    holds; any other scale, clamped to the last scale, is the smallest level
    whose scale covers it, or -1 when none does; and between 0 and a last
    scale that some level covers the mapping is monotone. *)
Theorem GetScaleIndexNoOffsets_spec (li : SharedLoadInfo) (scale : Z) :
  let s := clampScale li scale in
  (s = WORST_GEOMETRY -> GetScaleIndexNoOffsets li scale = 0)
  /\ (s = BEST_GEOMETRY ->
      GetScaleIndexNoOffsets li scale = GetScalesCount li - 1)
  /\ (s <> WORST_GEOMETRY -> s <> BEST_GEOMETRY ->
      (forall i, first_covering li s i -> GetScaleIndexNoOffsets li scale = i)
      /\ ((forall j, 0 <= j < GetScalesCount li -> GetScale li j < s) ->
          GetScaleIndexNoOffsets li scale = -1)
      /\ (GetScaleIndexNoOffsets li scale = -1
          \/ 0 <= GetScaleIndexNoOffsets li scale < GetScalesCount li))
  /\ (forall scale', 0 <= scale <= scale' -> 0 <= GetLastScale li ->
        (exists i, 0 <= i < GetScalesCount li /\ GetLastScale li <= GetScale li i) ->
        GetScaleIndexNoOffsets li scale <= GetScaleIndexNoOffsets li scale').
Proof.
  intros s. split_and!.
  - intros Hs. unfold GetScaleIndexNoOffsets. rewrite clampScale_eq. fold s.
    by rewrite Hs.
  - intros Hs. unfold GetScaleIndexNoOffsets. rewrite clampScale_eq. fold s.
    by rewrite Hs.
  - intros Hworst Hbest. unfold GetScaleIndexNoOffsets.
    rewrite clampScale_eq. fold s.
    rewrite (proj2 (Z.eqb_neq _ _) Hworst), (proj2 (Z.eqb_neq _ _) Hbest).
    destruct (GetScaleIndexNoOffsets_for li s _ 0) as [r|] eqn:Hfor.
    + apply GetScaleIndexNoOffsets_for_Some in Hfor as (Hr & Hcover & Hbelow).
      split_and!.
      * intros i (Hi & Hicover & Hibelow).
        destruct (Z.lt_trichotomy r i) as [Hlt|[Heq|Hgt]]; [|done|].
        -- specialize (Hibelow r). lia.
        -- specialize (Hbelow i). lia.
      * intros Hnone. specialize (Hnone r). lia.
      * right. lia.
    + pose proof (GetScaleIndexNoOffsets_for_None _ _ _ _ Hfor) as Hnone.
      split_and!.
      * intros i (Hi & Hicover & _). specialize (Hnone i). lia.
      * done.
      * by left.
  - intros scale' Hs Hlast Hcover. by apply GetScaleIndexNoOffsets_mono.
Qed.

End ScaleIndexFacts.

(** ** The stages *)

Section StageFacts.
Context `{Externals}.

(** *** [ParseTypes] *)





(** *** The order of the stages *)

Lemma ParseTypes_flags f f' :
  ParseTypes f = Ok f' ->
  Parsed.m_types (m_parsed f') = true
  /\ Parsed.m_common (m_parsed f') = Parsed.m_common (m_parsed f)
  /\ Parsed.m_header2 (m_parsed f') = Parsed.m_header2 (m_parsed f)
  /\ Parsed.m_points (m_parsed f') = Parsed.m_points (m_parsed f)
  /\ Parsed.m_triangles (m_parsed f') = Parsed.m_triangles (m_parsed f).
Proof.
  intros Hp. split; [by eapply ParseTypes_parsed|].
  unfold ParseTypes in Hp. unstage; done.
Qed.

Lemma ParseCommon_flags f f' :
  ParseCommon f = Ok f' ->
  Parsed.m_common (m_parsed f') = true
  /\ (Parsed.m_common (m_parsed f) = false -> Parsed.m_types (m_parsed f') = true)
  /\ (Parsed.m_types (m_parsed f) = true -> Parsed.m_types (m_parsed f') = true)
  /\ Parsed.m_header2 (m_parsed f') = Parsed.m_header2 (m_parsed f)
  /\ Parsed.m_points (m_parsed f') = Parsed.m_points (m_parsed f)
  /\ Parsed.m_triangles (m_parsed f') = Parsed.m_triangles (m_parsed f).
Proof.
  intros Hp. split; [by eapply ParseCommon_parsed|].
  unfold ParseCommon in Hp.
  destruct (Parsed.m_common (m_parsed f)) eqn:Hc; [by injection Hp as <-|].
  apply bind_Ok in Hp as (li & Hli & Hp).
  apply bind_Ok in Hp as (ft & Hft & Hp).
  apply ParseTypes_flags in Hft as (Ht & Hc' & Hh & Hpt & Htr).
  unstage; simpl; rewrite ?Ht, ?Hh, ?Hpt, ?Htr; done.
Qed.

Lemma ParseHeader2_flags f f' :
  ParseHeader2 f = Ok f' ->
  Parsed.m_header2 (m_parsed f') = true
  /\ (Parsed.m_header2 (m_parsed f) = false ->
      Parsed.m_common (m_parsed f') = true)
  /\ (Parsed.m_common (m_parsed f) = true -> Parsed.m_common (m_parsed f') = true)
  /\ (Parsed.m_header2 (m_parsed f) = false ->
      Parsed.m_common (m_parsed f) = false -> Parsed.m_types (m_parsed f') = true)
  /\ (Parsed.m_types (m_parsed f) = true -> Parsed.m_types (m_parsed f') = true)
  /\ Parsed.m_points (m_parsed f') = Parsed.m_points (m_parsed f)
  /\ Parsed.m_triangles (m_parsed f') = Parsed.m_triangles (m_parsed f).
Proof.
  intros Hp. split; [by eapply ParseHeader2_parsed|].
  unfold ParseHeader2 in Hp.
  destruct (Parsed.m_header2 (m_parsed f)) eqn:Hh; [by injection Hp as <-|].
  apply bind_Ok in Hp as (li & Hli & Hp).
  apply bind_Ok in Hp as (fc & Hfc & Hp).
  apply ParseCommon_flags in Hfc as (Hc & Hct & Htt & Hh2 & Hpt & Htr).
  unstage; simpl; rewrite ?Hc, ?Hpt, ?Htr; split_and!; auto.
Qed.

(** The stages and [ResetGeometry] keep the deserializer. *)
Lemma ParseTypes_deserializer f f' :
  ParseTypes f = Ok f' -> m_metadataDeserializer f' = m_metadataDeserializer f.
Proof. unfold ParseTypes. intros Hp. unstage; done. Qed.

Lemma ParseCommon_deserializer f f' :
  ParseCommon f = Ok f' -> m_metadataDeserializer f' = m_metadataDeserializer f.
Proof.
  unfold ParseCommon. intros Hp.
  destruct (Parsed.m_common (m_parsed f)); [by injection Hp as <-|].
  apply bind_Ok in Hp as (li & Hli & Hp).
  apply bind_Ok in Hp as (ft & Hft & Hp).
  apply ParseTypes_deserializer in Hft. unstage; simpl; done.
Qed.

Lemma ParseHeader2_deserializer f f' :
  ParseHeader2 f = Ok f' -> m_metadataDeserializer f' = m_metadataDeserializer f.
Proof.
  unfold ParseHeader2. intros Hp.
  destruct (Parsed.m_header2 (m_parsed f)); [by injection Hp as <-|].
  apply bind_Ok in Hp as (li & Hli & Hp).
  apply bind_Ok in Hp as (fc & Hfc & Hp).
  apply ParseCommon_deserializer in Hfc. unstage; simpl; done.
Qed.

Lemma ParseGeometry_deserializer scale f sz f' :
  ParseGeometry scale f = Ok (sz, f') ->
  m_metadataDeserializer f' = m_metadataDeserializer f.
Proof.
  unfold ParseGeometry. intros Hp.
  destruct (Parsed.m_points (m_parsed f)); [by injection Hp as _ <-|].
  apply bind_Ok in Hp as (li & Hli & Hp).
  apply bind_Ok in Hp as (g & Hg & Hp).
  apply ParseHeader2_deserializer in Hg. unstage; simpl; done.
Qed.

Lemma ParseTriangles_deserializer scale f sz f' :
  ParseTriangles scale f = Ok (sz, f') ->
  m_metadataDeserializer f' = m_metadataDeserializer f.
Proof.
  unfold ParseTriangles. intros Hp.
  destruct (Parsed.m_triangles (m_parsed f)); [by injection Hp as _ <-|].
  apply bind_Ok in Hp as (li & Hli & Hp).
  apply bind_Ok in Hp as (g & Hg & Hp).
  apply ParseHeader2_deserializer in Hg.
  apply bind_Ok in Hp as (h & Hh & Hp).
  destruct (m_triangles g); unstage; simpl; done.
Qed.

Lemma ResetGeometry_deserializer f :
  m_metadataDeserializer (ResetGeometry f) = m_metadataDeserializer f.
Proof.
  unfold ResetGeometry. destruct (m_loadInfo f); [|done].
  by destruct (decide _).
Qed.

Lemma ParseGeometry_flags scale f sz f' :
  Parsed.m_points (m_parsed f) = false ->
  ParseGeometry scale f = Ok (sz, f') ->
  exists g,
    ParseHeader2 f = Ok g
    /\ m_parsed f' = Parsed.set_m_points true (m_parsed g)
    /\ m_loadInfo f' = m_loadInfo g /\ m_data f' = m_data g
    /\ m_header f' = m_header g /\ m_triangles f' = m_triangles g
    /\ m_offsets f' = m_offsets g /\ m_innerStats f' = m_innerStats g
    /\ m_types f' = m_types g /\ m_params f' = m_params g
    /\ m_center f' = m_center g /\ m_metadata f' = m_metadata g
    /\ m_metaIds f' = m_metaIds g /\ m_id f' = m_id g
    /\ m_ptsSimpMask f' = m_ptsSimpMask g
    /\ (forall h, Header (m_data g) = Ok h ->
          Z.land h HEADER_MASK_GEOMTYPE <> HeaderGeomType_Line ->
          m_limitRect f' = m_limitRect g).
Proof.
  intros Hflag Hp. unfold ParseGeometry in Hp. rewrite Hflag in Hp.
  apply bind_Ok in Hp as (li & Hli & Hp).
  apply bind_Ok in Hp as (g & Hg & Hp).
  exists g. split; [done|].
  apply bind_Ok in Hp as (h & Hh & Hp).
  destruct (Z.eqb_spec (Z.land h HEADER_MASK_GEOMTYPE) HeaderGeomType_Line)
    as [Hline|Hother].
  - unstage; simpl; split_and!; try done;
      intros h' Hh' Hne; rewrite Hh in Hh'; by injection Hh' as <-.
  - unstage; simpl; split_and!; done.
Qed.

Lemma ParseTriangles_flags scale f sz f' :
  Parsed.m_triangles (m_parsed f) = false ->
  ParseTriangles scale f = Ok (sz, f') ->
  exists g,
    ParseHeader2 f = Ok g
    /\ m_parsed f' = Parsed.set_m_triangles true (m_parsed g)
    /\ m_loadInfo f' = m_loadInfo g /\ m_data f' = m_data g
    /\ m_header f' = m_header g /\ m_points f' = m_points g
    /\ m_offsets f' = m_offsets g /\ m_innerStats f' = m_innerStats g
    /\ m_types f' = m_types g /\ m_params f' = m_params g
    /\ m_center f' = m_center g /\ m_metadata f' = m_metadata g
    /\ m_metaIds f' = m_metaIds g /\ m_id f' = m_id g
    /\ m_ptsSimpMask f' = m_ptsSimpMask g
    /\ (forall h, Header (m_data g) = Ok h ->
          Z.land h HEADER_MASK_GEOMTYPE <> HeaderGeomType_Area ->
          m_limitRect f' = m_limitRect g).
Proof.
  intros Hflag Hp. unfold ParseTriangles in Hp. rewrite Hflag in Hp.
  apply bind_Ok in Hp as (li & Hli & Hp).
  apply bind_Ok in Hp as (g & Hg & Hp).
  exists g. split; [done|].
  apply bind_Ok in Hp as (h & Hh & Hp).
  destruct (Z.eqb_spec (Z.land h HEADER_MASK_GEOMTYPE) HeaderGeomType_Area)
    as [Harea|Hother].
  - destruct (m_triangles g) eqn:Htrg; unstage; simpl; split_and!; try done;
      intros h' Hh' Hne; rewrite Hh in Hh'; by injection Hh' as <-.
  - unstage; simpl; split_and!; done.
Qed.

Lemma staged_ParseHeader2 f f' :
  staged f -> ParseHeader2 f = Ok f' ->
  staged f'
  /\ Parsed.m_types (m_parsed f') = true
  /\ Parsed.m_common (m_parsed f') = true
  /\ Parsed.m_header2 (m_parsed f') = true.
Proof.
  intros (Hct & Hhc & Hph & Hth) Hp.
  apply ParseHeader2_flags in Hp as (Hh2 & Hc1 & Hc2 & Ht1 & Ht2 & Hpt & Htr).
  assert (Parsed.m_common (m_parsed f') = true) as Hc.
  { destruct (Parsed.m_header2 (m_parsed f)) eqn:?; auto. }
  assert (Parsed.m_types (m_parsed f') = true) as Ht.
  { destruct (Parsed.m_header2 (m_parsed f)) eqn:?; [auto|].
    destruct (Parsed.m_common (m_parsed f)) eqn:?; auto. }
  split; [|done]. by split_and!.
Qed.

(** X13.  The parsed flags follow the order of the stages in every feature
    the two constructors make, and every stage and [ResetGeometry] keep it
    so.  Hence a feature on which [ParseGeometry] or [ParseTriangles] has
    returned has its types, common and header2 stages parsed as well, and
    one on which [ParseCommon] has returned has its types parsed. *)
Theorem stages_in_order :
  (forall li data md id f, FeatureType_new li data md id = Ok f -> staged f)
  /\ (forall emo f, FeatureType_ofMapObject emo = Ok f -> staged f)
  /\ (forall f, staged f ->
        staged (ResetGeometry f)
        /\ (forall f', ParseTypes f = Ok f' -> staged f')
        /\ (forall f', ParseCommon f = Ok f' ->
              staged f' /\ Parsed.m_types (m_parsed f') = true)
        /\ (forall f', ParseHeader2 f = Ok f' ->
              staged f'
              /\ Parsed.m_types (m_parsed f') = true
              /\ Parsed.m_common (m_parsed f') = true)
        /\ (forall scale sz f', ParseGeometry scale f = Ok (sz, f') ->
              staged f'
              /\ Parsed.m_types (m_parsed f') = true
              /\ Parsed.m_common (m_parsed f') = true
              /\ Parsed.m_header2 (m_parsed f') = true
              /\ Parsed.m_points (m_parsed f') = true)
        /\ (forall scale sz f', ParseTriangles scale f = Ok (sz, f') ->
              staged f'
              /\ Parsed.m_types (m_parsed f') = true
              /\ Parsed.m_common (m_parsed f') = true
              /\ Parsed.m_header2 (m_parsed f') = true
              /\ Parsed.m_triangles (m_parsed f') = true)
        /\ (forall f', ParseMetadata f = Ok f' -> staged f')
        /\ (forall f', ParseMetaIds f = Ok f' -> staged f')).
Proof.
  split_and!.
  - intros li data md id f Hnew. unfold FeatureType_new in Hnew.
    destruct li, md; try done. apply bind_Ok in Hnew as (h & _ & Hnew).
    injection Hnew as <-. by split_and!.
  - intros emo f Hnew. unfold FeatureType_ofMapObject in Hnew.
    apply bind_Ok in Hnew as (x & _ & Hnew).
    destruct x as [[[[? ?] ?] ?] ?].
    destruct (_ <=? _)%nat; [|done]. injection Hnew as <-. by split_and!.
  - intros f Hst. pose proof Hst as (Hct & Hhc & Hph & Hth). split_and!.
    + unfold ResetGeometry. destruct (m_loadInfo f); [|done].
      destruct (decide _); by split_and!.
    + intros f' (Ht & Hc & Hh & Hp & Htr)%ParseTypes_flags.
      unfold staged. rewrite Ht, Hc, Hh, Hp, Htr. by split_and!.
    + intros f' (Hc & Ht1 & Ht2 & Hh & Hp & Htr)%ParseCommon_flags.
      assert (Parsed.m_types (m_parsed f') = true) as Ht.
      { destruct (Parsed.m_common (m_parsed f)) eqn:?; auto. }
      split; [|done]. unfold staged. rewrite Ht, Hc, Hh, Hp, Htr.
      by split_and!.
    + intros f' Hp. by destruct (staged_ParseHeader2 f f' Hst Hp) as (? & ? & ? & ?).
    + intros scale sz f' Hp.
      destruct (Parsed.m_points (m_parsed f)) eqn:Hflag.
      { unfold ParseGeometry in Hp. rewrite Hflag in Hp. injection Hp as _ <-.
        specialize (Hph eq_refl). specialize (Hhc Hph). specialize (Hct Hhc). done. }
      apply ParseGeometry_flags in Hp as (g & Hg & Hflags & _); [|done].
      destruct (staged_ParseHeader2 f g Hst Hg) as (_ & Ht & Hc & Hh).
      unfold staged. rewrite Hflags. simpl. by split_and!.
    + intros scale sz f' Hp.
      destruct (Parsed.m_triangles (m_parsed f)) eqn:Hflag.
      { unfold ParseTriangles in Hp. rewrite Hflag in Hp. injection Hp as _ <-.
        specialize (Hth eq_refl). specialize (Hhc Hth). specialize (Hct Hhc). done. }
      apply ParseTriangles_flags in Hp as (g & Hg & Hflags & _); [|done].
      destruct (staged_ParseHeader2 f g Hst Hg) as (_ & Ht & Hc & Hh).
      unfold staged. rewrite Hflags. simpl. by split_and!.
    + intros f' Hp. destruct (Parsed.m_metadata (m_parsed f)) eqn:Hflag.
      { unfold ParseMetadata in Hp. rewrite Hflag in Hp. by injection Hp as <-. }
      apply ParseMetadata_Ok in Hp as (d & o & meta & _ & _ & _ & _ & ->);
        [|done].
      unfold staged. simpl. by split_and!.
    + intros f' Hp. destruct (Parsed.m_metaIds (m_parsed f)) eqn:Hflag.
      { unfold ParseMetaIds in Hp. rewrite Hflag in Hp. by injection Hp as <-. }
      apply ParseMetaIds_Ok in Hp as (d & o & ids & _ & _ & _ & _ & ->);
        [|done].
      unfold staged. simpl. by split_and!.
Qed.

(** *** Features made from a MapObject *)

(** X14.  The constructor from a MapObject aborts exactly for an undefined
    geometry type or more types than the array holds.  The feature it makes
    has no load info and is marked parsed throughout, so every stage
    returns it as it is, at any scale, without the check of the load info
    being reached, and [ResetGeometry] leaves it alone; its types are the
    object's, its points and triangles those of the object's geometry
    type. *)
Theorem FeatureType_ofMapObject_parsed (emo : MapObject) :
  (emo_GetGeomType emo = Undefined
   \/ (kMaxTypesCount < length (emo_GetTypes emo))%nat <->
   FeatureType_ofMapObject emo = Fail CheckFailed)
  /\ (forall f, FeatureType_ofMapObject emo = Ok f ->
        m_loadInfo f = None
        /\ take (length (emo_GetTypes emo)) (m_types f) = emo_GetTypes emo
        /\ m_points f
           = (if decide (emo_GetGeomType emo = Line) then emo_GetPoints emo else [])
        /\ m_triangles f
           = (if decide (emo_GetGeomType emo = Area)
              then emo_GetTriangesAsPoints emo else [])
        /\ ParseTypes f = Ok f /\ ParseCommon f = Ok f /\ ParseHeader2 f = Ok f
        /\ (forall scale, ParseGeometry scale f = Ok (0, f))
        /\ (forall scale, ParseTriangles scale f = Ok (0, f))
        /\ ParseMetadata f = Ok f /\ ParseMetaIds f = Ok f
        /\ ResetGeometry f = f).
Proof.
  unfold FeatureType_ofMapObject. split.
  - destruct (emo_GetGeomType emo) eqn:Hgeom; simpl.
    + split; [done|]. by left.
    + destruct (Nat.leb_spec (length (emo_GetTypes emo)) kMaxTypesCount);
        (split; [intros [?|?]; (done || lia)|]); [done|]. intros _. right. lia.
    + destruct (Nat.leb_spec (length (emo_GetTypes emo)) kMaxTypesCount);
        (split; [intros [?|?]; (done || lia)|]); [done|]. intros _. right. lia.
    + destruct (Nat.leb_spec (length (emo_GetTypes emo)) kMaxTypesCount);
        (split; [intros [?|?]; (done || lia)|]); [done|]. intros _. right. lia.
  - intros f Hnew.
    apply bind_Ok in Hnew as (x & Hx & Hnew).
    destruct x as [[[[headerGeomType center] points] triangles] limitRect].
    destruct (_ <=? _)%nat; [|done]. injection Hnew as <-. simpl.
    split; [done|]. split; [by rewrite take_app_length|].
    destruct (emo_GetGeomType emo); simplify_eq; done.
Qed.

(** *** Areas *)

(** X15.  An area whose header2 stage stored no triangle (outer geometry):
    [ParseTriangles] decodes the triangles of the level the lookup finds, from
    its offset; when the lookup finds none it leaves the area without
    triangles and does not fall back to another level, as [ParseGeometry]
    does for a line.  An area whose header2 stage stored triangles (inner
    geometry) keeps them at every scale. *)
Theorem ParseTriangles_no_fallback (li : SharedLoadInfo) (scale : Z)
    (f f1 : FeatureType) (h : Z) :
  Parsed.m_triangles (m_parsed f) = false ->
  m_loadInfo f = Some li ->
  ParseHeader2 f = Ok f1 ->
  Header (m_data f1) = Ok h ->
  Z.land h HEADER_MASK_GEOMTYPE = HeaderGeomType_Area ->
  (m_triangles f1 = [] ->
   (GetScaleIndex li scale (Offsets.m_trg (m_offsets f1)) = Ok (-1) ->
    exists f2,
      ParseTriangles scale f = Ok (0, f2)
      /\ m_triangles f2 = []
      /\ Parsed.m_triangles (m_parsed f2) = true)
   /\ (forall ind,
         GetScaleIndex li scale (Offsets.m_trg (m_offsets f1)) = Ok ind ->
         ind <> -1 ->
         exists offset sz f2,
           Offsets.m_trg (m_offsets f1) !! Z.to_nat ind = Some offset
           /\ offset <> kInvalidOffset
           /\ ParseTriangles scale f = Ok (sz, f2)
           /\ m_triangles f2
              = (LoadOuterTriangles (GetTrianglesReader li ind) offset
                   (GetGeometryCodingParams li ind)).1
           /\ Parsed.m_triangles (m_parsed f2) = true))
  /\ (m_triangles f1 <> [] ->
      exists f2,
        ParseTriangles scale f = Ok (0, f2)
        /\ m_triangles f2 = m_triangles f1
        /\ Parsed.m_triangles (m_parsed f2) = true).
Proof.
  intros Hflag Hli Hh2 Hhdr Harea.
  unfold ParseTriangles. rewrite Hflag. unfold CHECK_loadInfo. rewrite Hli.
  cbn [mbind result_bind].
  rewrite (bind_Ok_eq _ _ _ Hh2), (bind_Ok_eq _ _ _ Hhdr).
  rewrite Harea, Z.eqb_refl.
  split.
  - intros Hempty. rewrite Hempty. split.
    + intros Hnone. rewrite Hnone. cbn [mbind result_bind]. rewrite Z.eqb_refl.
      cbn [mbind result_bind].
      eexists. split; [reflexivity|]. simpl. by rewrite Hempty.
    + intros ind Hind Hne. rewrite Hind. cbn [mbind result_bind].
      rewrite (proj2 (Z.eqb_neq _ _) Hne).
      destruct (GetScaleIndex_result li scale _ ind Hind)
        as [?|(Hpos & offset & Hoff & Hvalid)]; [done|].
      unfold deref. rewrite Hoff. cbn [mbind result_bind].
      destruct (LoadOuterTriangles _ _ _) as [trg pos] eqn:Hload.
      cbn [mbind result_bind].
      eexists offset, _, _. split; [done|]. split; [done|].
      split; [reflexivity|]. simpl. by rewrite Hload.
  - intros Hinner. destruct (m_triangles f1) as [|t rest] eqn:Htrg; [done|].
    cbn [mbind result_bind].
    eexists. split; [reflexivity|]. simpl. by rewrite Htrg.
Qed.

(** *** Metadata *)

(** X16.  [GetMetadata] of a feature of a container whose metadata is not
    parsed calls the deserializer once.  When the call returns or throws
    [Reader::OpenException], [GetMetadata] returns the metadata as the call
    left it, which after the exception need not be what the feature had,
    and the stage is marked parsed, so that a later call returns the same
    metadata without asking the deserializer again.  When the call throws
    anything else, the exception leaves [GetMetadata]. *)
Theorem GetMetadata_once (f : FeatureType) (li : SharedLoadInfo)
    (d : MetadataDeserializer) :
  Parsed.m_metadata (m_parsed f) = false ->
  m_loadInfo f = Some li ->
  m_metadataDeserializer f = Some d ->
  let outcome := (Deserializer_Get d (m_id f) (m_metadata f)).1 in
  let meta := (Deserializer_Get d (m_id f) (m_metadata f)).2 in
  (outcome <> OtherException ->
   exists f',
     GetMetadata f = Ok (meta, f')
     /\ m_metadata f' = meta
     /\ Parsed.m_metadata (m_parsed f') = true
     /\ GetMetadata f' = Ok (meta, f'))
  /\ (outcome = OtherException -> GetMetadata f = Fail Thrown).
Proof.
  intros Hflag Hli Hd outcome meta. subst outcome meta.
  unfold GetMetadata, ParseMetadata at 1 3.
  rewrite Hflag. unfold CHECK_loadInfo, deserializer. rewrite Hli, Hd.
  cbn [mbind result_bind].
  destruct (Deserializer_Get d (m_id f) (m_metadata f)) as [outcome meta].
  cbn [fst snd]. split.
  - intros Hcaught.
    destruct outcome; [..|done];
      (eexists; split; [reflexivity|]; simpl; split; [done|]; split; [done|];
       unfold ParseMetadata; done).
  - by intros ->.
Qed.

End StageFacts.

Section LineFacts.
Context `{Externals}.

(** ** Lines *)

Lemma stored_endpoints {A} `{!Inhabited A} (stored : list A) :
  (2 <= length stored)%nat ->
  stored
  = stored !!! 0%nat :: intermediates stored
      ++ [stored !!! (length stored - 1)%nat].
Proof.
  intros Hlen. destruct stored as [|x rest]; [simpl in Hlen; lia|].
  destruct (decide (rest = [])) as [->|Hne]; [simpl in Hlen; lia|].
  destruct (exists_last Hne) as (init & lst & ->).
  unfold intermediates. simpl. rewrite length_app, drop_0. simpl.
  replace (length init + 1 - 1)%nat with (length init) by lia.
  replace (length init + 1 - 0)%nat with (S (length init)) by lia.
  rewrite take_app_length. f_equal. f_equal.
  f_equal. symmetry. apply list_lookup_total_correct. simpl.
  by apply list_lookup_middle.
Qed.

Lemma intermediates_lookup (stored : list PointD) :
  (2 <= length stored)%nat ->
  intermediates stored
  = (fun i => stored !!! i) <$> seq 1 (length stored - 2).
Proof. intros Hlen. unfold intermediates. apply take_drop_lookup_total. lia. Qed.

(** What the two loops of the filter leave between the endpoints. *)
Lemma filterInner_mid (li : SharedLoadInfo) scale (stored : list PointD) mask :
  exists keep : nat -> Prop, exists _ : forall i, Decision (keep i),
    filterInner li scale stored mask
    = stored !!! 0%nat
        :: ((fun i => stored !!! i) <$> filter keep (seq 1 (length stored - 2)))
        ++ [stored !!! (length stored - 1)%nat]
    /\ (filter (fun i => pointScaleAt mask i <= GetScaleIndexNoOffsets li scale)
               (seq 1 (length stored - 2)) <> [] ->
        forall i, keep i <-> pointScaleAt mask i <= GetScaleIndexNoOffsets li scale).
Proof.
  unfold filterInner.
  set (idx := GetScaleIndexNoOffsets li scale).
  set (l := seq 1 (length stored - 2)).
  destruct (foldl (filterInner_step stored mask idx)
              ([stored !!! 0%nat], GetScalesCount li - 1) l)
    as [points minScale] eqn:Hfold.
  pose proof (filterInner_step_points stored mask idx l [stored !!! 0%nat]
                (GetScalesCount li - 1)) as Hpts.
  rewrite Hfold in Hpts. simpl in Hpts. subst points.
  destruct (filter (fun i => pointScaleAt mask i <= idx) l) as [|i0 vis] eqn:Hvis.
  - exists (fun i => pointScaleAt mask i = minScale), _.
    simpl. rewrite filterInner_fallback_points. simpl. done.
  - exists (fun i => pointScaleAt mask i <= idx), _.
    simpl. rewrite Hvis. simpl. done.
Qed.

(** The filter returns the endpoints around a subsequence of the
    intermediate points. *)
Lemma filterInner_between (li : SharedLoadInfo) (scale : Z)
    (stored : list PointD) (mask : Z) :
  (2 <= length stored)%nat ->
  exists mid,
    filterInner li scale stored mask
    = stored !!! 0%nat :: mid ++ [stored !!! (length stored - 1)%nat]
    /\ mid `sublist_of` intermediates stored
    /\ filterInner li scale stored mask `sublist_of` stored
    /\ (2 <= length (filterInner li scale stored mask) <= length stored)%nat.
Proof.
  intros Hlen.
  destruct (filterInner_mid li scale stored mask) as (keep & Hdec & Heq & Hvis).
  assert (((fun i => stored !!! i) <$> filter keep (seq 1 (length stored - 2)))
          `sublist_of` intermediates stored) as Hsub.
  { rewrite intermediates_lookup by done.
    apply fmap_sublist, sublist_filter. }
  assert (filterInner li scale stored mask `sublist_of` stored) as Hsub'.
  { pose proof (stored_endpoints stored Hlen) as Hends.
    assert ((stored !!! 0%nat
             :: ((fun i => stored !!! i)
                   <$> filter keep (seq 1 (length stored - 2)))
             ++ [stored !!! (length stored - 1)%nat])
            `sublist_of`
            (stored !!! 0%nat :: intermediates stored
               ++ [stored !!! (length stored - 1)%nat])) as Hall
      by (apply sublist_skip, sublist_app; done).
    rewrite Heq. by rewrite <- Hends in Hall. }
  eexists. split; [exact Heq|]. split; [done|]. split; [done|].
  split; [|by apply sublist_length].
  rewrite Heq. simpl. rewrite length_app. simpl. lia.
Qed.

(** X17.  The inner-geometry filter, on at least two stored points and for
    any scale, returns the first point, then some of the intermediate
    points in their order, then the last point: a subsequence of the stored
    points with at least two of them.  At [BEST_GEOMETRY], when no marker
    exceeds the last scale index, it returns the stored points unchanged. *)
Theorem filterInner_sublist (li : SharedLoadInfo) (scale : Z)
    (stored : list PointD) (mask : Z) :
  (2 <= length stored)%nat ->
  (exists mid,
     filterInner li scale stored mask
     = stored !!! 0%nat :: mid ++ [stored !!! (length stored - 1)%nat]
     /\ mid `sublist_of` intermediates stored)
  /\ filterInner li scale stored mask `sublist_of` stored
  /\ (2 <= length (filterInner li scale stored mask) <= length stored)%nat
  /\ (clampScale li scale = BEST_GEOMETRY ->
      Forall (fun m => m <= GetScalesCount li - 1) (markers mask (length stored)) ->
      filterInner li scale stored mask = stored).
Proof.
  intros Hlen.
  destruct (filterInner_between li scale stored mask Hlen)
    as (mid & Hmid & Hsub & Hsub' & Hn).
  split; [by exists mid|]. split; [done|]. split; [done|].
  intros Hbest Hbound.
  destruct (filterInner_mid li scale stored mask) as (keep & Hdec & Heq & Hvis).
  assert (GetScaleIndexNoOffsets li scale = GetScalesCount li - 1) as Hidx.
  { unfold GetScaleIndexNoOffsets. rewrite clampScale_eq, Hbest. done. }
  rewrite Heq. etrans; [|symmetry; exact (stored_endpoints stored Hlen)].
  f_equal. f_equal. rewrite intermediates_lookup by done.
  assert (forall i, i ∈ seq 1 (length stored - 2) ->
            pointScaleAt mask i <= GetScaleIndexNoOffsets li scale) as Hall.
  { intros i Hi. rewrite Hidx. unfold markers in Hbound.
    rewrite Forall_fmap, Forall_forall in Hbound. by apply Hbound. }
  destruct (seq 1 (length stored - 2)) as [|i0 l] eqn:Hseq; [done|].
  f_equal. apply DfFacts.filter_all, Forall_forall. intros i Hi.
  apply Hvis; [|by apply Hall].
  rewrite filter_cons_True by (apply Hall; left). done.
Qed.

Lemma FeatureType_new_init li data md id f :
  FeatureType_new (Some li) data md id = Ok f ->
  m_loadInfo f = Some li
  /\ m_data f = data
  /\ Header (m_data f) = Ok (m_header f)
  /\ m_parsed f = Parsed.init
  /\ m_points f = [] /\ m_triangles f = [] /\ m_limitRect f = RectD_empty
  /\ m_offsets f = Offsets.init /\ m_ptsSimpMask f = 0
  /\ m_innerStats f = InnerGeomStat.init.
Proof.
  unfold FeatureType_new. intros Hnew. destruct md as [d|]; [|done].
  apply bind_Ok in Hnew as (h & Hh & Hnew). injection Hnew as <-. simpl.
  by rewrite Hh.
Qed.

(** A line with outer geometry whose offset table covers the scales of the
    container: [ParseGeometry] returns, and keeps the first point. *)
Lemma ParseGeometry_outer_line_Ok (li : SharedLoadInfo) (scale : Z)
    (f g : FeatureType) (h : Z) (p0 : PointD) :
  Parsed.m_points (m_parsed f) = false ->
  m_loadInfo f = Some li ->
  ParseHeader2 f = Ok g ->
  Header (m_data g) = Ok h ->
  Z.land h HEADER_MASK_GEOMTYPE = HeaderGeomType_Line ->
  m_points g = [p0] ->
  GetScalesCount li <= Z.of_nat (length (Offsets.m_pts (m_offsets g))) ->
  exists sz f2 rest,
    ParseGeometry scale f = Ok (sz, f2) /\ m_points f2 = p0 :: rest.
Proof.
  intros Hflag Hli Hg Hhdr Hline Hpts Hlen.
  unfold ParseGeometry. rewrite Hflag. unfold CHECK_loadInfo. rewrite Hli.
  cbn [mbind result_bind].
  rewrite (bind_Ok_eq _ _ _ Hg), (bind_Ok_eq _ _ _ Hhdr).
  rewrite Hline, Z.eqb_refl, Hpts. cbn [length Nat.ltb Nat.leb].
  destruct (GetScaleIndex_returns li scale _ Hlen) as [ind1 Hind1].
  destruct (GetScaleIndex_returns li WORST_GEOMETRY _ Hlen) as [ind2 Hind2].
  rewrite Hind1. cbn [mbind result_bind].
  assert (forall ind,
            ind = -1 \/ populated (Offsets.m_pts (m_offsets g)) ind ->
            exists sz f2 rest,
              ((if ind =? -1 then Ok (0, g)
                else
                  deref (Offsets.m_pts (m_offsets g)) (Z.to_nat ind) ≫= fun offset =>
                  Ok p0 ≫= fun p0 =>
                  let '(pts, pos) :=
                    LoadOuterPath (GetGeometryReader li ind) offset
                      (SetBasePoint (GetGeometryCodingParams li ind) p0) in
                  Ok (to_uint32 (pos - offset), set_m_points ([p0] ++ pts) g))
               ≫= fun '(sz, f) =>
                    Ok (sz, set_m_limitRect (CalcRect (m_points f) (m_limitRect f)) f))
              ≫= (fun '(sz, f) =>
                    Ok (sz, set_m_parsed (Parsed.set_m_points true (m_parsed f)) f))
              = Ok (sz, f2)
              /\ m_points f2 = p0 :: rest) as Hdecode.
  { intros ind [->|(Hpos & offset & Hoff & Hvalid)].
    - simpl. eexists _, _, []. split; [reflexivity|]. simpl. done.
    - destruct (Z.eqb_spec ind (-1)) as [->|Hne]; [lia|].
      unfold deref. rewrite Hoff. cbn [mbind result_bind].
      destruct (LoadOuterPath _ _ _) as [pts pos].
      cbn [mbind result_bind].
      eexists _, _, pts. split; [reflexivity|]. done. }
  destruct (Z.eqb_spec ind1 (-1)) as [->|Hne1].
  - rewrite Hind2. cbn [mbind result_bind].
    by eapply Hdecode, GetScaleIndex_result.
  - cbn [mbind result_bind]. by eapply Hdecode, GetScaleIndex_result.
Qed.

(** X18.  A line read from a container whose header2 stage stored the first
    point only and an offset table that covers the scales of the container:
    at every scale [ParseGeometry] returns, with the stored first point
    still first, whether or not a level has geometry for the scale; hence
    [IsEmptyGeometry] returns false for it at every scale. *)
Theorem IsEmptyGeometry_outer_line (li : SharedLoadInfo) (data : list Z)
    (md : option MetadataDeserializer) (id scale : Z) (f g : FeatureType)
    (p0 : PointD) :
  FeatureType_new (Some li) data md id = Ok f ->
  Z.land (m_header f) HEADER_MASK_GEOMTYPE = HeaderGeomType_Line ->
  HeaderGeomType_Line <> HeaderGeomType_Area ->
  ParseHeader2 f = Ok g ->
  m_points g = [p0] ->
  GetScalesCount li <= Z.of_nat (length (Offsets.m_pts (m_offsets g))) ->
  exists sz f2 f3 rest,
    ParseGeometry scale f = Ok (sz, f2)
    /\ m_points f2 = p0 :: rest
    /\ IsEmptyGeometry scale f = Ok (false, f3)
    /\ m_points f3 = p0 :: rest.
Proof.
  intros Hnew Hline Hdistinct Hg Hpts Hlen.
  apply FeatureType_new_init in Hnew
    as (Hli & _ & Hhdr & Hparsed & _).
  assert (Parsed.m_points (m_parsed f) = false) as Hpflag by (by rewrite Hparsed).
  assert (Parsed.m_header2 (m_parsed f) = false) as Hh2flag by (by rewrite Hparsed).
  destruct (ParseHeader2_frame _ g Hh2flag Hg)
    as (fc & Hfc & Hgli & Hgdata & Hghdr & _).
  pose proof (ParseCommon_frame _ _ Hfc) as (Hcli & Hcdata & Hchdr & _).
  pose proof (ParseHeader2_flags _ _ Hg) as (Hgh2 & _ & _ & _ & _ & _ & Hgtr).
  assert (Header (m_data g) = Ok (m_header f)) as Hhdrg
    by (by rewrite Hgdata, Hcdata).
  destruct (ParseGeometry_outer_line_Ok li scale f g (m_header f) p0)
    as (sz & f2 & rest & Hp & Hpts2); try done.
  destruct (ParseGeometry_flags scale f sz f2 Hpflag Hp)
    as (g' & Hg' & Hflags2 & Hli2 & Hdata2 & Hhdr2 & _).
  assert (g' = g) as -> by congruence.
  exists sz, f2.
  eexists (set_m_parsed (Parsed.set_m_triangles true (m_parsed f2)) f2), rest.
  split; [done|]. split; [done|]. split; [|done].
  unfold IsEmptyGeometry, ParseGeometryAndTriangles.
  rewrite Hp. cbn [mbind result_bind].
  unfold ParseTriangles. rewrite Hflags2. simpl. rewrite Hgtr, Hparsed. simpl.
  unfold CHECK_loadInfo. rewrite Hli2, Hgli, Hcli, Hli. cbn [mbind result_bind].
  unfold ParseHeader2. rewrite Hflags2. simpl. rewrite Hgh2.
  cbn [mbind result_bind].
  rewrite Hdata2, Hhdrg. cbn [mbind result_bind].
  rewrite Hline. rewrite (proj2 (Z.eqb_neq _ _) Hdistinct).
  cbn [mbind result_bind].
  unfold GetGeomType. simpl. rewrite Hhdr2, Hghdr, Hchdr, Hline, Z.eqb_refl.
  by rewrite Hpts2, ?Hflags2.
Qed.

(** X19.  [GetGeometrySize]: on a feature whose points are parsed it reads
    nothing and reports the number of points with, unless there is none,
    the byte size of the inner geometry, whatever the geometry came from.
    On a line with inner geometry not yet parsed it reports, at every
    scale, the byte size of the whole stored path together with the number
    of points the filter keeps for the scale, at least two; a later call
    reports the same at any scale. *)
Theorem GetGeometrySize_spec (li : SharedLoadInfo) (scale scale' : Z)
    (f f1 : FeatureType) (h : Z) :
  (Parsed.m_points (m_parsed f) = true ->
   GetGeometrySize scale f
   = Ok (GeomStat.mk
           (match m_points f with
            | [] => 0
            | _ :: _ => InnerGeomStat.m_points (m_innerStats f)
            end)
           (length (m_points f)), f))
  /\ (Parsed.m_points (m_parsed f) = false ->
      m_loadInfo f = Some li ->
      ParseHeader2 f = Ok f1 ->
      Header (m_data f1) = Ok h ->
      Z.land h HEADER_MASK_GEOMTYPE = HeaderGeomType_Line ->
      (2 <= length (m_points f1))%nat ->
      exists f2 n,
        GetGeometrySize scale f
        = Ok (GeomStat.mk (InnerGeomStat.m_points (m_innerStats f1)) n, f2)
        /\ n = length (filterInner li scale (m_points f1) (m_ptsSimpMask f1))
        /\ (2 <= n <= length (m_points f1))%nat
        /\ GetGeometrySize scale' f2
           = Ok (GeomStat.mk (InnerGeomStat.m_points (m_innerStats f1)) n, f2)).
Proof.
  split.
  - intros Hflag. unfold GetGeometrySize, ParseGeometry. rewrite Hflag.
    cbn [mbind result_bind]. by destruct (m_points f).
  - intros Hflag Hli Hh2 Hhdr Hline Hlen.
    pose proof (inner_line_points_eq li scale f f1 h Hflag Hli Hh2 Hhdr Hline Hlen)
      as Hp. cbn zeta in Hp.
    destruct (filterInner_between li scale (m_points f1) (m_ptsSimpMask f1) Hlen)
      as (_ & _ & _ & _ & Hn).
    unfold GetGeometrySize. rewrite Hp. cbn [mbind result_bind]. simpl.
    destruct (filterInner li scale (m_points f1) (m_ptsSimpMask f1))
      as [|q qs] eqn:Hfilter; [simpl in Hn; lia|].
    simpl. eexists _, _. split; [reflexivity|]. split; [done|]. split; [done|].
    unfold ParseGeometry. simpl. done.
Qed.

End LineFacts.

Section ResetFacts.
Context `{Externals}.

(** ** Parsing again after [ResetGeometry] *)

Ltac fields :=
  cbn [m_loadInfo m_data m_metadataDeserializer m_header m_types m_params m_center m_limitRect
       m_points m_triangles m_metadata m_metaIds m_id m_parsed m_offsets
       m_ptsSimpMask m_innerStats
       set_m_types set_m_params set_m_center set_m_limitRect set_m_points
       set_m_triangles set_m_metadata set_m_metaIds set_m_parsed set_m_offsets
       set_m_ptsSimpMask set_m_innerStats
       Parsed.m_types Parsed.m_common Parsed.m_header2 Parsed.m_points
       Parsed.m_triangles Parsed.m_metadata Parsed.m_metaIds
       Parsed.set_m_types Parsed.set_m_common Parsed.set_m_header2
       Parsed.set_m_points Parsed.set_m_triangles Parsed.set_m_metadata
       Parsed.set_m_metaIds
       Offsets.m_common Offsets.m_header2 Offsets.m_pts Offsets.m_trg
       Offsets.set_m_common Offsets.set_m_header2 Offsets.set_m_pts
       Offsets.set_m_trg
       InnerGeomStat.m_points InnerGeomStat.m_strips InnerGeomStat.m_size
       InnerGeomStat.set_m_points InnerGeomStat.set_m_strips
       InnerGeomStat.set_m_size
       m_ptr m_pos
       mbind result_bind] in *.

Lemma FeatureType_ext (a b : FeatureType) :
  m_loadInfo a = m_loadInfo b -> m_data a = m_data b ->
  m_metadataDeserializer a = m_metadataDeserializer b ->
  m_header a = m_header b -> m_types a = m_types b ->
  m_params a = m_params b -> m_center a = m_center b ->
  m_limitRect a = m_limitRect b -> m_points a = m_points b ->
  m_triangles a = m_triangles b -> m_metadata a = m_metadata b ->
  m_metaIds a = m_metaIds b -> m_id a = m_id b ->
  m_parsed a = m_parsed b -> m_offsets a = m_offsets b ->
  m_ptsSimpMask a = m_ptsSimpMask b -> m_innerStats a = m_innerStats b ->
  a = b.
Proof.
  destruct a, b. simpl.
  by intros -> -> -> -> -> -> -> -> -> -> -> -> -> -> -> -> ->.
Qed.

(** The header2 stage of a feature whose common stage is parsed changes
    the geometry members, the inner statistics and its own flag only. *)
Lemma ParseHeader2_keeps (a a' : FeatureType) :
  Parsed.m_header2 (m_parsed a) = false ->
  Parsed.m_common (m_parsed a) = true ->
  ParseHeader2 a = Ok a' ->
  m_loadInfo a' = m_loadInfo a /\ m_data a' = m_data a
  /\ m_header a' = m_header a /\ m_types a' = m_types a
  /\ m_params a' = m_params a /\ m_center a' = m_center a
  /\ m_limitRect a' = m_limitRect a /\ m_metadata a' = m_metadata a
  /\ m_metaIds a' = m_metaIds a /\ m_id a' = m_id a
  /\ Offsets.m_common (m_offsets a') = Offsets.m_common (m_offsets a)
  /\ Offsets.m_header2 (m_offsets a') = Offsets.m_header2 (m_offsets a)
  /\ m_parsed a' = Parsed.set_m_header2 true (m_parsed a).
Proof.
  intros Hh2 Hc Hp. unfold ParseHeader2, CHECK_loadInfo, ParseCommon in Hp.
  rewrite Hh2, Hc in Hp.
  destruct (m_loadInfo a) eqn:Hli; [|done]. fields.
  unstage; simpl; done.
Qed.

(** Two features that differ in nothing the header2 stage reads get the
    same geometry members from it. *)
Lemma ParseHeader2_same_geometry (a b a' : FeatureType) (li : SharedLoadInfo) :
  Parsed.m_header2 (m_parsed a) = false ->
  Parsed.m_header2 (m_parsed b) = false ->
  Parsed.m_common (m_parsed a) = true ->
  Parsed.m_common (m_parsed b) = true ->
  m_loadInfo a = Some li -> m_loadInfo b = Some li ->
  m_data b = m_data a ->
  Offsets.m_header2 (m_offsets b) = Offsets.m_header2 (m_offsets a) ->
  m_ptsSimpMask b = m_ptsSimpMask a ->
  m_points b = m_points a ->
  m_triangles b = m_triangles a ->
  Offsets.m_pts (m_offsets b) = Offsets.m_pts (m_offsets a) ->
  Offsets.m_trg (m_offsets b) = Offsets.m_trg (m_offsets a) ->
  ParseHeader2 a = Ok a' ->
  exists b',
    ParseHeader2 b = Ok b'
    /\ m_points b' = m_points a'
    /\ m_triangles b' = m_triangles a'
    /\ m_ptsSimpMask b' = m_ptsSimpMask a'
    /\ Offsets.m_pts (m_offsets b') = Offsets.m_pts (m_offsets a')
    /\ Offsets.m_trg (m_offsets b') = Offsets.m_trg (m_offsets a')
    /\ InnerGeomStat.m_size (m_innerStats b')
       = InnerGeomStat.m_size (m_innerStats a')
    /\ (InnerGeomStat.m_points (m_innerStats b')
        = InnerGeomStat.m_points (m_innerStats a')
        \/ (InnerGeomStat.m_points (m_innerStats a')
            = InnerGeomStat.m_points (m_innerStats a)
            /\ InnerGeomStat.m_points (m_innerStats b')
               = InnerGeomStat.m_points (m_innerStats b)))
    /\ (InnerGeomStat.m_strips (m_innerStats b')
        = InnerGeomStat.m_strips (m_innerStats a')
        \/ (InnerGeomStat.m_strips (m_innerStats a')
            = InnerGeomStat.m_strips (m_innerStats a)
            /\ InnerGeomStat.m_strips (m_innerStats b')
               = InnerGeomStat.m_strips (m_innerStats b))).
Proof.
  intros Ha2 Hb2 Hac Hbc Hali Hbli Hdata Hoff Hmask Hpts Htrg Hop Hot Hp.
  unfold ParseHeader2, CHECK_loadInfo, ParseCommon in *.
  rewrite Ha2, Hac, Hali in Hp. rewrite Hb2, Hbc, Hbli.
  fields. rewrite Hdata, Hoff, ?Hmask, ?Hpts, ?Htrg, ?Hop, ?Hot.
  repeat match goal with
    | H : mbind _ ?m = Ok _ |- _ => destruct m eqn:?; fields
    | H : Fail _ = Ok _ |- _ => discriminate H
    | H : context [if ?c then _ else _] |- _ => destruct c eqn:?; fields
    | H : context [match ?x with (_, _) => _ end] |- _ => destruct x eqn:?; fields
    | |- context [m_data b] => rewrite Hdata
    end.
  all: eexists; (split; [reflexivity|]); simplify_eq; fields.
  all: rewrite ?Hpts, ?Htrg, ?Hmask, ?Hop, ?Hot.
  all: split_and!; try done; try (by left); by right.
Qed.

Lemma ResetGeometry_fields (g : FeatureType) (li : SharedLoadInfo) :
  m_loadInfo g = Some li ->
  m_loadInfo (ResetGeometry g) = m_loadInfo g
  /\ m_data (ResetGeometry g) = m_data g
  /\ m_header (ResetGeometry g) = m_header g
  /\ m_types (ResetGeometry g) = m_types g
  /\ m_params (ResetGeometry g) = m_params g
  /\ m_center (ResetGeometry g) = m_center g
  /\ m_limitRect (ResetGeometry g)
     = (if decide (GetGeomType g = Point) then m_limitRect g else RectD_empty)
  /\ m_points (ResetGeometry g) = []
  /\ m_triangles (ResetGeometry g) = []
  /\ m_metadata (ResetGeometry g) = m_metadata g
  /\ m_metaIds (ResetGeometry g) = m_metaIds g
  /\ m_id (ResetGeometry g) = m_id g
  /\ m_parsed (ResetGeometry g)
     = Parsed.set_m_header2 false
         (Parsed.set_m_points false (Parsed.set_m_triangles false (m_parsed g)))
  /\ m_offsets (ResetGeometry g)
     = Offsets.set_m_trg [] (Offsets.set_m_pts [] (m_offsets g))
  /\ m_ptsSimpMask (ResetGeometry g) = 0
  /\ m_innerStats (ResetGeometry g) = m_innerStats g.
Proof.
  intros Hli. unfold ResetGeometry. rewrite Hli.
  assert (GetGeomType (set_m_triangles [] (set_m_points [] g)) = GetGeomType g)
    as -> by done.
  destruct (decide _); simpl; done.
Qed.

(** A geometry-less feature whose common stage is parsed: parsing its
    header2 stage, resetting and parsing it again gives the same feature. *)
Lemma ParseHeader2_restart (fc g : FeatureType) (li : SharedLoadInfo) :
  m_loadInfo fc = Some li ->
  Parsed.m_common (m_parsed fc) = true ->
  Parsed.m_header2 (m_parsed fc) = false ->
  Parsed.m_points (m_parsed fc) = false ->
  Parsed.m_triangles (m_parsed fc) = false ->
  m_points fc = [] -> m_triangles fc = [] ->
  Offsets.m_pts (m_offsets fc) = [] -> Offsets.m_trg (m_offsets fc) = [] ->
  m_ptsSimpMask fc = 0 ->
  (GetGeomType fc <> Point -> m_limitRect fc = RectD_empty) ->
  ParseHeader2 fc = Ok g ->
  ParseHeader2 (ResetGeometry g) = Ok g.
Proof.
  intros Hli Hc Hh2 Hp Ht Hpts Htrg Hop Hot Hmask Hrect Hg.
  pose proof (ParseHeader2_keeps fc g Hh2 Hc Hg)
    as (Kli & Kdata & Khdr & Ktypes & Kparams & Kcenter & Krect & Kmeta & Kids
        & Kid & Koc & Koh & Kparsed).
  assert (m_loadInfo g = Some li) as Hgli by congruence.
  pose proof (ResetGeometry_fields g li Hgli)
    as (Rli & Rdata & Rhdr & Rtypes & Rparams & Rcenter & Rrect & Rpts & Rtrg
        & Rmeta & Rids & Rid & Rparsed & Roffs & Rmask & Rstats).
  assert (GetGeomType g = GetGeomType fc) as Hgeom
    by (unfold GetGeomType; by rewrite Khdr).
  destruct (ParseHeader2_same_geometry fc (ResetGeometry g) g li)
    as (b' & Hb' & Spts & Strg & Smask & Sop & Sot & Ssize & Spoints & Sstrips);
    try done.
  all: rewrite ?Rparsed, ?Rli, ?Rdata, ?Roffs, ?Rmask, ?Rpts, ?Rtrg, ?Kparsed;
    simpl; try congruence.
  rewrite Hb'. f_equal.
  assert (Parsed.m_header2 (m_parsed (ResetGeometry g)) = false) as Hrh2
    by (by rewrite Rparsed).
  assert (Parsed.m_common (m_parsed (ResetGeometry g)) = true) as Hrc
    by (by rewrite Rparsed, Kparsed).
  pose proof (ParseHeader2_keeps (ResetGeometry g) b' Hrh2 Hrc Hb')
    as (Bli & Bdata & Bhdr & Btypes & Bparams & Bcenter & Brect & Bmeta & Bids
        & Bid & Boc & Boh & Bparsed).
  pose proof (ParseHeader2_deserializer _ _ Hb') as Bd.
  pose proof (ResetGeometry_deserializer g) as Rd.
  apply FeatureType_ext; try congruence.
  - rewrite Brect, Rrect, Hgeom, Krect.
    destruct (decide (GetGeomType fc = Point)) as [|Hother]; [done|].
    by rewrite (Hrect Hother).
  - rewrite Bparsed, Rparsed, Kparsed.
    destruct (m_parsed fc); simpl in *. unfold Parsed.set_m_header2,
      Parsed.set_m_points, Parsed.set_m_triangles. simpl. congruence.
  - rewrite Roffs in Boc, Boh. simpl in Boc, Boh.
    destruct (m_offsets b'), (m_offsets g); simpl in *. congruence.
  - rewrite Rstats in Spoints, Sstrips.
    destruct (m_innerStats b'), (m_innerStats g); simpl in *.
    f_equal; [| |done]; tauto.
Qed.

Lemma ResetGeometry_same (a b : FeatureType) (li : SharedLoadInfo) :
  m_loadInfo b = Some li ->
  m_metadataDeserializer a = m_metadataDeserializer b ->
  m_loadInfo a = m_loadInfo b -> m_data a = m_data b ->
  m_header a = m_header b -> m_types a = m_types b ->
  m_params a = m_params b -> m_center a = m_center b ->
  m_metadata a = m_metadata b -> m_metaIds a = m_metaIds b ->
  m_id a = m_id b -> m_innerStats a = m_innerStats b ->
  m_offsets a = m_offsets b ->
  Parsed.m_types (m_parsed a) = Parsed.m_types (m_parsed b) ->
  Parsed.m_common (m_parsed a) = Parsed.m_common (m_parsed b) ->
  Parsed.m_metadata (m_parsed a) = Parsed.m_metadata (m_parsed b) ->
  Parsed.m_metaIds (m_parsed a) = Parsed.m_metaIds (m_parsed b) ->
  (GetGeomType b = Point -> m_limitRect a = m_limitRect b) ->
  ResetGeometry a = ResetGeometry b.
Proof.
  intros Hbli Hd Hli Hdata Hhdr Htypes Hparams Hcenter Hmeta Hids Hid Hstats
    Hoffs Ht Hc Hpm Hpi Hrect.
  pose proof (ResetGeometry_deserializer a) as Ad.
  pose proof (ResetGeometry_deserializer b) as Bd.
  assert (m_loadInfo a = Some li) as Hali by congruence.
  pose proof (ResetGeometry_fields a li Hali)
    as (Ali & Adata & Ahdr & Atypes & Aparams & Acenter & Arect & Apts & Atrg
        & Ameta & Aids & Aid & Aparsed & Aoffs & Amask & Astats).
  pose proof (ResetGeometry_fields b li Hbli)
    as (Bli & Bdata & Bhdr & Btypes & Bparams & Bcenter & Brect & Bpts & Btrg
        & Bmeta & Bids & Bid & Bparsed & Boffs & Bmask & Bstats).
  assert (GetGeomType a = GetGeomType b) as Hgeom
    by (unfold GetGeomType; by rewrite Hhdr).
  apply FeatureType_ext; try congruence.
  - rewrite Arect, Brect, Hgeom.
    destruct (decide (GetGeomType b = Point)) as [Hpoint|]; [|done].
    by apply Hrect.
  - rewrite Aparsed, Bparsed.
    destruct (m_parsed a), (m_parsed b); simpl in *.
    unfold Parsed.set_m_header2, Parsed.set_m_points, Parsed.set_m_triangles.
    simpl. congruence.
Qed.

Lemma ParseCommon_limitRect f fc :
  ParseCommon f = Ok fc ->
  GetGeomType fc <> Point -> m_limitRect fc = m_limitRect f.
Proof.
  unfold ParseCommon. intros Hp.
  destruct (Parsed.m_common (m_parsed f)); [by injection Hp as <-|].
  apply bind_Ok in Hp as (li & Hli & Hp).
  apply bind_Ok in Hp as (ft & Hft & Hp).
  pose proof (ParseTypes_frame _ _ Hft) as (_ & _ & _ & _ & _ & _ & Hrect & _).
  apply bind_Ok in Hp as (h & Hh & Hp).
  destruct (Params_Read _ _ _ _) as [params source].
  destruct (decide (GetGeomType (set_m_params params ft) = Point)) as [Hpoint|Hother].
  - destruct (LoadPoint _ _ _) as [center source']. injection Hp as <-.
    intros Hne. exfalso. by apply Hne.
  - injection Hp as <-. done.
Qed.

Lemma ParseGeometry_same_header2 scale (a b : FeatureType) :
  Parsed.m_points (m_parsed a) = false ->
  Parsed.m_points (m_parsed b) = false ->
  m_loadInfo a = m_loadInfo b ->
  ParseHeader2 a = ParseHeader2 b ->
  ParseGeometry scale a = ParseGeometry scale b.
Proof.
  intros Ha Hb Hli Hh2. unfold ParseGeometry, CHECK_loadInfo.
  by rewrite Ha, Hb, Hli, Hh2.
Qed.

Lemma ParseTriangles_same_header2 scale (a b : FeatureType) :
  Parsed.m_triangles (m_parsed a) = false ->
  Parsed.m_triangles (m_parsed b) = false ->
  m_loadInfo a = m_loadInfo b ->
  ParseHeader2 a = ParseHeader2 b ->
  ParseTriangles scale a = ParseTriangles scale b.
Proof.
  intros Ha Hb Hli Hh2. unfold ParseTriangles, CHECK_loadInfo.
  by rewrite Ha, Hb, Hli, Hh2.
Qed.

(** The header2 stage of a feature just read from a container is the point
    a reset of its geometry returns to. *)
Lemma ResetGeometry_restart (li : SharedLoadInfo) (data : list Z)
    (md : option MetadataDeserializer) (id : Z) (f g f1 : FeatureType) :
  FeatureType_new (Some li) data md id = Ok f ->
  ParseHeader2 f = Ok g ->
  m_metadataDeserializer f1 = m_metadataDeserializer g ->
  m_loadInfo f1 = m_loadInfo g -> m_data f1 = m_data g ->
  m_header f1 = m_header g -> m_types f1 = m_types g ->
  m_params f1 = m_params g -> m_center f1 = m_center g ->
  m_metadata f1 = m_metadata g -> m_metaIds f1 = m_metaIds g ->
  m_id f1 = m_id g -> m_innerStats f1 = m_innerStats g ->
  m_offsets f1 = m_offsets g ->
  Parsed.m_types (m_parsed f1) = Parsed.m_types (m_parsed g) ->
  Parsed.m_common (m_parsed f1) = Parsed.m_common (m_parsed g) ->
  Parsed.m_metadata (m_parsed f1) = Parsed.m_metadata (m_parsed g) ->
  Parsed.m_metaIds (m_parsed f1) = Parsed.m_metaIds (m_parsed g) ->
  (GetGeomType g = Point -> m_limitRect f1 = m_limitRect g) ->
  ParseHeader2 (ResetGeometry f1) = Ok g
  /\ m_loadInfo (ResetGeometry f1) = Some li
  /\ Parsed.m_points (m_parsed (ResetGeometry f1)) = false
  /\ Parsed.m_triangles (m_parsed (ResetGeometry f1)) = false.
Proof.
  intros Hnew Hg Hd Hli Hdata Hhdr Htypes Hparams Hcenter Hmeta Hids Hid Hstats
    Hoffs Ht Hc Hpm Hpi Hrect.
  apply FeatureType_new_init in Hnew
    as (Fli & _ & Fhdr & Fparsed & Fpts & Ftrg & Frect & Foffs & Fmask & _).
  assert (Parsed.m_header2 (m_parsed f) = false) as Fh2 by (by rewrite Fparsed).
  destruct (ParseHeader2_frame _ g Fh2 Hg) as (fc & Hfc & Gli & _).
  pose proof (ParseCommon_frame _ _ Hfc)
    as (Cli & Cdata & Chdr & Cmask & Cpts & Ctrg & Cop & Cot & Ch2 & Cp).
  pose proof (ParseCommon_flags _ _ Hfc) as (Cc & _ & _ & _ & _ & Ctr).
  pose proof (ParseCommon_limitRect _ _ Hfc) as Crect.
  assert (ParseHeader2 fc = Ok g) as Hfcg
    by (erewrite ParseHeader2_after_common; [exact Hg|done|exact Hfc]).
  assert (m_loadInfo g = Some li) as Ggli by congruence.
  assert (ResetGeometry f1 = ResetGeometry g) as ->
    by (by apply (ResetGeometry_same f1 g li)).
  pose proof (ResetGeometry_fields g li Ggli)
    as (Rli & _ & _ & _ & _ & _ & _ & _ & _ & _ & _ & _ & Rparsed & _).
  rewrite Rli, Rparsed. split; [|done].
  apply (ParseHeader2_restart fc g li); try congruence.
  - by rewrite Cp, Fparsed.
  - by rewrite Ctr, Fparsed.
  - by rewrite Cop, Foffs.
  - by rewrite Cot, Foffs.
  - intros Hother. by rewrite Crect, Frect.
Qed.

(** X20.  [ResetGeometry] takes a feature read from a container back to
    where its geometry was not parsed: whatever scale its geometry, its
    triangles or both were parsed at, parsing them after [ResetGeometry] at
    any scale returns exactly what parsing the feature as first read
    returns at that scale, the same size and the same feature. *)
Theorem ResetGeometry_reparse (li : SharedLoadInfo) (data : list Z)
    (md : option MetadataDeserializer) (id scale scale' : Z)
    (f f1 : FeatureType) :
  FeatureType_new (Some li) data md id = Ok f ->
  (exists sz, ParseGeometry scale f = Ok (sz, f1))
  \/ (exists sz, ParseTriangles scale f = Ok (sz, f1))
  \/ ParseGeometryAndTriangles scale f = Ok f1 ->
  ParseGeometry scale' (ResetGeometry f1) = ParseGeometry scale' f
  /\ ParseTriangles scale' (ResetGeometry f1) = ParseTriangles scale' f
  /\ ParseGeometryAndTriangles scale' (ResetGeometry f1)
     = ParseGeometryAndTriangles scale' f.
Proof.
  intros Hnew Hparsed.
  pose proof (FeatureType_new_init _ _ _ _ _ Hnew)
    as (Fli & _ & Fhdr & Fparsed & _).
  assert (Parsed.m_points (m_parsed f) = false) as Fp by (by rewrite Fparsed).
  assert (Parsed.m_triangles (m_parsed f) = false) as Ftr by (by rewrite Fparsed).
  assert (Parsed.m_header2 (m_parsed f) = false) as Fh2 by (by rewrite Fparsed).
  assert (exists g,
            ParseHeader2 f = Ok g
            /\ ParseHeader2 (ResetGeometry f1) = Ok g
            /\ m_loadInfo (ResetGeometry f1) = Some li
            /\ Parsed.m_points (m_parsed (ResetGeometry f1)) = false
            /\ Parsed.m_triangles (m_parsed (ResetGeometry f1)) = false)
    as (g & Hg & Hrg & Rli & Rp & Rtr).
  { assert (forall g, ParseHeader2 f = Ok g ->
              Header (m_data g) = Ok (m_header g)
              /\ Parsed.m_header2 (m_parsed g) = true) as Hhdr.
    { intros g Hg. split; [|by eapply ParseHeader2_parsed].
      destruct (ParseHeader2_frame _ g Fh2 Hg) as (fc & Hfc & _ & Gdata & Ghdr & _).
      pose proof (ParseCommon_frame _ _ Hfc) as (_ & Cdata & Chdr & _).
      by rewrite Gdata, Ghdr, Cdata, Chdr. }
    assert (forall g h, Header (m_data g) = Ok (m_header g) ->
              GetGeomType g = Point -> Header (m_data g) = Ok h ->
              Z.land h HEADER_MASK_GEOMTYPE <> HeaderGeomType_Line
              /\ Z.land h HEADER_MASK_GEOMTYPE <> HeaderGeomType_Area) as Hpoint.
    { intros g h Hgh Hgeom Hh. rewrite Hgh in Hh. injection Hh as <-.
      unfold GetGeomType in Hgeom.
      destruct (Z.eqb_spec (Z.land (m_header g) HEADER_MASK_GEOMTYPE)
                  HeaderGeomType_Line); [done|].
      destruct (Z.eqb_spec (Z.land (m_header g) HEADER_MASK_GEOMTYPE)
                  HeaderGeomType_Area); done. }
    destruct Hparsed as [[sz Hp]|[[sz Hp]|Hp]].
    - destruct (ParseGeometry_flags _ _ _ _ Fp Hp)
        as (g & Hg & Gparsed & Gli & Gdata & Ghdr & Gtrg & Goffs & Gstats
            & Gtypes & Gparams & Gcenter & Gmeta & Gids & Gid & Gmask & Grect).
      destruct (Hhdr g Hg) as [Hgh _].
      assert (m_metadataDeserializer f1 = m_metadataDeserializer g) as Hd
        by (by rewrite (ParseGeometry_deserializer _ _ _ _ Hp),
                       (ParseHeader2_deserializer _ _ Hg)).
      exists g. split; [done|].
      apply (ResetGeometry_restart li data md id f g f1); try done.
      all: try (by rewrite Gparsed).
      intros Hgeom. apply (Grect _ Hgh). by apply (Hpoint g _ Hgh Hgeom Hgh).
    - destruct (ParseTriangles_flags _ _ _ _ Ftr Hp)
        as (g & Hg & Gparsed & Gli & Gdata & Ghdr & Gpts & Goffs & Gstats
            & Gtypes & Gparams & Gcenter & Gmeta & Gids & Gid & Gmask & Grect).
      destruct (Hhdr g Hg) as [Hgh _].
      assert (m_metadataDeserializer f1 = m_metadataDeserializer g) as Hd
        by (by rewrite (ParseTriangles_deserializer _ _ _ _ Hp),
                       (ParseHeader2_deserializer _ _ Hg)).
      exists g. split; [done|].
      apply (ResetGeometry_restart li data md id f g f1); try done.
      all: try (by rewrite Gparsed).
      intros Hgeom. apply (Grect _ Hgh). by apply (Hpoint g _ Hgh Hgeom Hgh).
    - unfold ParseGeometryAndTriangles in Hp.
      apply bind_Ok in Hp as ([sz1 f0] & Hp0 & Hp).
      apply bind_Ok in Hp as ([sz2 f2] & Hp2 & Hp). injection Hp as ->.
      destruct (ParseGeometry_flags _ _ _ _ Fp Hp0)
        as (g & Hg & Gparsed & Gli & Gdata & Ghdr & Gtrg & Goffs & Gstats
            & Gtypes & Gparams & Gcenter & Gmeta & Gids & Gid & Gmask & Grect).
      destruct (Hhdr g Hg) as [Hgh Hgh2].
      pose proof (ParseHeader2_flags _ _ Hg) as (_ & _ & _ & _ & _ & _ & Gtr).
      assert (Parsed.m_triangles (m_parsed f0) = false) as F0tr
        by (by rewrite Gparsed; simpl; rewrite Gtr).
      destruct (ParseTriangles_flags _ _ _ _ F0tr Hp2)
        as (g0 & Hg0 & G0parsed & G0li & G0data & G0hdr & G0pts & G0offs & G0stats
            & G0types & G0params & G0center & G0meta & G0ids & G0id & G0mask
            & G0rect).
      assert (g0 = f0) as ->.
      { unfold ParseHeader2 in Hg0. rewrite Gparsed in Hg0. simpl in Hg0.
        rewrite Hgh2 in Hg0. by injection Hg0 as <-. }
      assert (Header (m_data f0) = Ok (m_header g)) as Hf0h
        by (by rewrite Gdata).
      pose proof (ParseGeometry_deserializer _ _ _ _ Hp0) as D0.
      pose proof (ParseTriangles_deserializer _ _ _ _ Hp2) as D2.
      pose proof (ParseHeader2_deserializer _ _ Hg) as Dg.
      exists g. split; [done|].
      apply (ResetGeometry_restart li data md id f g f1); try congruence.
      all: try (by rewrite G0parsed, Gparsed).
      intros Hgeom. destruct (Hpoint g _ Hgh Hgeom Hgh) as [Hnl Hna].
      rewrite (G0rect _ Hf0h Hna). by apply (Grect _ Hgh). }
  assert (ParseGeometry scale' (ResetGeometry f1) = ParseGeometry scale' f) as Hgeo.
  { apply ParseGeometry_same_header2; congruence. }
  assert (ParseTriangles scale' (ResetGeometry f1) = ParseTriangles scale' f) as Htri.
  { apply ParseTriangles_same_header2; congruence. }
  split; [done|]. split; [done|].
  unfold ParseGeometryAndTriangles. by rewrite Hgeo.
Qed.

End ResetFacts.

Section CheckFacts.
Context `{Externals}.

(** ** The checks *)










(** *** The stages keep the load info, the buffer and the deserializer *)






















End CheckFacts.

Section MaskFacts.
Context `{Externals}.

(** ** The simplification mask *)

Lemma testbit_small a k j : 0 <= a < 2 ^ k -> k <= j -> Z.testbit a j = false.
Proof.
  intros Ha Hj. destruct (decide (a = 0)) as [->|Hne]; [apply Z.bits_0|].
  apply Z.bits_above_log2; [lia|].
  assert (Z.log2 a < k); [|lia]. apply Z.log2_lt_pow2; lia.
Qed.

(** The loop reads [n] bytes and puts byte [k] at the bits [8 (i + k)] and
    above; with at most four bytes in all nothing is cut off. *)
Lemma ParseHeader2_mask_bits data n i src acc :
  0 <= i -> i + Z.of_nat n <= 4 -> 0 <= acc < 2 ^ (8 * i) ->
  (forall k, (k < n)%nat -> exists b, data !! (src + k)%nat = Some b /\ 0 <= b < 256) ->
  exists m,
    ParseHeader2_mask data n i src acc = Ok ((src + n)%nat, m)
    /\ 0 <= m < 2 ^ (8 * (i + Z.of_nat n))
    /\ (forall j, 0 <= j < 8 * i -> Z.testbit m j = Z.testbit acc j)
    /\ (forall (k : nat) b j, (k < n)%nat -> data !! (src + k)%nat = Some b ->
          0 <= j < 8 ->
          Z.testbit m (8 * (i + Z.of_nat k) + j) = Z.testbit b j).
Proof.
  revert i src acc. induction n as [|n IH]; intros i src acc Hi Hn Hacc Hbytes.
  - exists acc. simpl. rewrite Nat.add_0_r, Z.add_0_r.
    split; [done|]. split; [done|]. split; [done|]. intros; lia.
  - destruct (Hbytes 0%nat ltac:(lia)) as (b0 & Hb0 & Hrange).
    rewrite Nat.add_0_r in Hb0.
    simpl. unfold ReadByte, deref. rewrite Hb0. cbn [mbind result_bind].
    assert (Z.shiftl i 3 = 8 * i) as -> by (rewrite Z.shiftl_mul_pow2; lia).
    assert (0 < 2 ^ (8 * i)) as Hpow by (apply Z.pow_pos_nonneg; lia).
    assert (2 ^ (8 * (i + 1)) = 256 * 2 ^ (8 * i)) as Hnext.
    { replace (8 * (i + 1)) with (8 + 8 * i) by lia.
      rewrite Z.pow_add_r by lia. done. }
    assert (2 ^ (8 * (i + 1)) <= 4294967296) as Htop.
    { change 4294967296 with (2 ^ 32). apply Z.pow_le_mono_r; lia. }
    assert (Z.shiftl b0 (8 * i) = b0 * 2 ^ (8 * i)) as Hshift
      by (rewrite Z.shiftl_mul_pow2; lia).
    assert (0 <= acc + b0 * 2 ^ (8 * i) < 2 ^ (8 * (i + 1))) as Hsum by nia.
    assert (to_uint32 (acc + to_uint32 (Z.shiftl b0 (8 * i)))
            = acc + b0 * 2 ^ (8 * i)) as ->.
    { unfold to_uint32. rewrite Hshift.
      rewrite (Z.mod_small (b0 * _)) by nia. apply Z.mod_small. lia. }
    assert (Z.land acc (Z.shiftl b0 (8 * i)) = 0) as Hdisjoint.
    { apply Z.bits_inj'. intros j Hj. rewrite Z.land_spec, Z.bits_0.
      destruct (Z.lt_ge_cases j (8 * i)) as [Hlow|Hhigh].
      - rewrite Z.shiftl_spec_low by done. apply andb_false_r.
      - by rewrite (testbit_small acc (8 * i) j). }
    assert (acc + b0 * 2 ^ (8 * i) = Z.lor acc (Z.shiftl b0 (8 * i))) as Hlor.
    { rewrite <- Hshift. rewrite Z.add_nocarry_lxor by done.
      by apply Z.lxor_lor. }
    destruct (IH (i + 1) (S src) (acc + b0 * 2 ^ (8 * i)))
      as (m & Hm & Hmrange & Hlow & Hhigh); [lia|lia|lia| |].
    { intros k Hk. destruct (Hbytes (S k) ltac:(lia)) as (b & Hb & Hbr).
      exists b. split; [|done]. rewrite <- Hb. f_equal. lia. }
    exists m. split; [rewrite Hm; do 2 f_equal; lia|].
    split; [by replace (i + Z.of_nat (S n)) with (i + 1 + Z.of_nat n) by lia|].
    split.
    + intros j Hj. rewrite Hlow by lia. rewrite Hlor, Z.lor_spec.
      rewrite Z.shiftl_spec_low by lia. apply orb_false_r.
    + intros k b j Hk Hb Hj. destruct k as [|k].
      * rewrite Nat.add_0_r in Hb. assert (b = b0) as -> by congruence.
        rewrite Z.add_0_r, Hlow by lia. rewrite Hlor, Z.lor_spec.
        rewrite (testbit_small acc (8 * i)) by lia.
        rewrite Z.shiftl_spec by lia. simpl. f_equal. lia.
      * replace (8 * (i + Z.of_nat (S k)) + j)
          with (8 * (i + 1 + Z.of_nat k) + j) by lia.
        apply Hhigh; [lia| |done]. rewrite <- Hb. f_equal. lia.
Qed.

(** X22.  The mask bytes of a line with inner geometry and the markers the
    filter reads agree.  [ParseHeader2] reads [(ptsCount + 1) / 4] mask
    bytes, which cover every intermediate point: at most four as
    [ptsCount] has four bits, and fewer than four, as the assertion of the
    source has it, exactly up to 14 points; the loop puts them into [m_ptsSimpMask] without
    losing a bit, so that the marker of the intermediate point [i] is the
    2-bit field [(i - 1) mod 4] of the mask byte [(i - 1) / 4].  With fewer
    bytes left in the buffer the loop reads past its end. *)
Theorem ParseHeader2_mask_markers (data : list Z) (src : nat) (ptsCount : Z) :
  0 < ptsCount < 16 ->
  let n := Z.to_nat (Z.quot (ptsCount - 2 + 4 - 1) 4) in
  (n <= 4)%nat /\ ((n < 4)%nat <-> ptsCount <= 14)
  /\ ptsCount - 2 <= 4 * Z.of_nat n
  /\ ((forall k, (k < n)%nat ->
         exists b, data !! (src + k)%nat = Some b /\ 0 <= b < 256) ->
      exists m,
        ParseHeader2_mask data n 0 src 0 = Ok ((src + n)%nat, m)
        /\ 0 <= m < 4294967296
        /\ forall (i : nat) b,
             1 <= Z.of_nat i <= 4 * Z.of_nat n ->
             data !! (src + (i - 1) / 4)%nat = Some b ->
             pointScaleAt m i
             = Z.land (Z.shiftr b (2 * ((Z.of_nat i - 1) mod 4))) 3)
  /\ ((src <= length data < src + n)%nat ->
      ParseHeader2_mask data n 0 src 0 = Fail OutOfRange).
Proof.
  intros Hcount n.
  assert (Z.of_nat n = (ptsCount + 1) / 4) as Hn.
  { unfold n. replace (ptsCount - 2 + 4 - 1) with (ptsCount + 1) by lia.
    rewrite Z.quot_div_nonneg by lia. rewrite Z2Nat.id; [done|].
    apply Z.div_pos; lia. }
  assert (Z.of_nat n <= 4) as Hn4.
  { rewrite Hn. apply Z.div_le_upper_bound; lia. }
  pose proof (Z.div_mod (ptsCount + 1) 4 ltac:(lia)) as Hdiv.
  pose proof (Z.mod_pos_bound (ptsCount + 1) 4 ltac:(lia)) as Hrem.
  split; [lia|]. split; [lia|]. split; [lia|].
  split.
  - intros Hbytes.
    destruct (ParseHeader2_mask_bits data n 0 src 0)
      as (m & Hm & Hrange & _ & Hbits); [lia|lia|simpl; lia|done|].
    exists m. split; [done|]. split.
    { split; [lia|]. eapply Z.lt_le_trans; [apply Hrange|].
      change 4294967296 with (2 ^ 32). apply Z.pow_le_mono_r; lia. }
    intros i b Hi Hb. unfold pointScaleAt.
    assert (Z.of_nat ((i - 1) / 4) = (Z.of_nat i - 1) / 4) as Hk.
    { rewrite Nat2Z.inj_div, Nat2Z.inj_sub by lia. done. }
    pose proof (Z.div_mod (Z.of_nat i - 1) 4 ltac:(lia)) as Hdm.
    pose proof (Z.mod_pos_bound (Z.of_nat i - 1) 4 ltac:(lia)) as Hmod.
    assert (((i - 1) / 4 < n)%nat) as Hlt.
    { apply Nat2Z.inj_lt. rewrite Hk. apply Z.div_lt_upper_bound; lia. }
    apply Z.bits_inj'. intros j Hj. rewrite !Z.land_spec.
    destruct (Z.lt_ge_cases j 2) as [Hsmall|Hbig].
    + rewrite !Z.shiftr_spec by lia. f_equal.
      rewrite <- (Hbits ((i - 1) / 4)%nat b (j + 2 * ((Z.of_nat i - 1) mod 4)))
        by (done || lia).
      f_equal. rewrite Hk. lia.
    + rewrite (testbit_small 3 2 j) by (done || lia). by rewrite !andb_false_r.
  - intros Hshort.
    assert (forall k i0 s acc, (s <= length data < s + k)%nat ->
              ParseHeader2_mask data k i0 s acc = Fail OutOfRange) as Hfail.
    { induction k as [|k IH]; intros i0 s acc Hlen; [lia|simpl].
      unfold ReadByte, deref.
      destruct (data !! s) as [b|] eqn:Hb; [|done].
      apply lookup_lt_Some in Hb.
      cbn [mbind result_bind]. apply IH. lia. }
    by apply Hfail.
Qed.

End MaskFacts.

(** ** The further properties on the example container *)


Lemma BitSource_Read_bits_witness :
  BitSource_Read outerLineData (mkBitSource 2 0) 4 = Ok (0, mkBitSource 2 4)
  /\ BitSource_Read outerLineData (mkBitSource 2 4) 4 = Ok (6, mkBitSource 3 0)
  /\ BitSource_Read outerLineData (mkBitSource 6 0) 4 = Fail OutOfRange.
Proof.
  destruct (BitSource_Read_bits outerLineData 2) as [_ Hread].
  destruct (BitSource_Read_bits outerLineData 6) as [Hout _].
  destruct (Hread 96 0 4 eq_refl) as (bs1 & -> & -> & _); [lia..|].
  destruct (Hread 96 4 4 eq_refl) as (bs2 & -> & -> & _); [lia..|].
  split; [reflexivity|]. split; [reflexivity|]. by apply Hout.
Defined.


Lemma GetScaleIndex_populated_witness :
  GetScaleIndex loadInfo4 11 offsets12 = Ok 1
  /\ populated offsets12 1
  /\ first_covering loadInfo4 (clampScale loadInfo4 11) 1
  /\ GetScaleIndex loadInfo4 11 [kInvalidOffset] = Fail OutOfRange.
Proof.
  assert (first_covering loadInfo4 (clampScale loadInfo4 11) 1) as Hfirst.
  { split; [simpl; lia|]. split; [vm_compute; discriminate|].
    intros j Hj. assert (j = 0) as -> by lia. vm_compute. reflexivity. }
  destruct (GetScaleIndex_populated loadInfo4 11 offsets12) as (Hres & _ & _).
  destruct (GetScaleIndex_populated loadInfo4 11 [kInvalidOffset])
    as (_ & _ & Hshort).
  destruct (Hres 1 eq_refl) as [[?|Hpop] _]; [done|].
  split; [reflexivity|]. split; [exact Hpop|]. split; [exact Hfirst|].
  apply (Hshort ltac:(discriminate) ltac:(discriminate) 1 Hfirst).
  simpl. lia.
Defined.

Lemma GetScaleIndexNoOffsets_spec_witness :
  first_covering loadInfo4 (clampScale loadInfo4 11) 1
  /\ GetScaleIndexNoOffsets loadInfo4 11 = 1
  /\ GetScaleIndexNoOffsets loadInfo4 BEST_GEOMETRY = 3
  /\ GetScaleIndexNoOffsets loadInfo4 WORST_GEOMETRY = 0.
Proof.
  assert (first_covering loadInfo4 (clampScale loadInfo4 11) 1) as Hfirst.
  { split; [simpl; lia|]. split; [vm_compute; discriminate|].
    intros j Hj. assert (j = 0) as -> by lia. vm_compute. reflexivity. }
  destruct (GetScaleIndexNoOffsets_spec loadInfo4 11) as (_ & _ & Hfor & _).
  destruct (GetScaleIndexNoOffsets_spec loadInfo4 BEST_GEOMETRY) as (_ & Hbest & _).
  destruct (GetScaleIndexNoOffsets_spec loadInfo4 WORST_GEOMETRY) as (Hworst & _).
  destruct (Hfor ltac:(discriminate) ltac:(discriminate)) as (Hcover & _).
  split; [exact Hfirst|]. split; [by apply Hcover|].
  split; [by apply Hbest|by apply Hworst].
Defined.


Lemma ParseTriangles_no_fallback_witness :
  Parsed.m_triangles (m_parsed (loaded outerAreaData)) = false
  /\ m_loadInfo (loaded outerAreaData) = Some loadInfo4
  /\ GetScaleIndex loadInfo4 5 offsets12 = Ok (-1)
  /\ triangles_of (ParseTriangles 5 (loaded outerAreaData)) = Ok []
  /\ triangles_of (ParseTriangles 11 (loaded outerAreaData)) = Ok [107; 108; 109].
Proof.
  do 3 (split; [reflexivity|]).
  destruct (ParseHeader2 (loaded outerAreaData)) as [g|e] eqn:Hh2;
    [|vm_compute in Hh2; discriminate].
  assert (Header (m_data g) = Ok 2) as Hhdr by from_run Hh2.
  assert (m_triangles g = []) as Hempty by from_run Hh2.
  assert (Offsets.m_trg (m_offsets g) = offsets12) as Hoffs by from_run Hh2.
  destruct (ParseTriangles_no_fallback loadInfo4 5 (loaded outerAreaData)
              g 2 eq_refl eq_refl Hh2 Hhdr eq_refl) as [Houter5 _].
  destruct (ParseTriangles_no_fallback loadInfo4 11 (loaded outerAreaData)
              g 2 eq_refl eq_refl Hh2 Hhdr eq_refl) as [Houter11 _].
  destruct (Houter5 Hempty) as [Hnone _].
  destruct (Houter11 Hempty) as [_ Hfound].
  rewrite Hoffs in Hnone, Hfound.
  destruct (Hnone eq_refl) as (f2 & Hp5 & Htrg & _).
  destruct (Hfound 1 eq_refl ltac:(discriminate))
    as (offset & sz & f3 & Hoff & _ & Hp11 & Htrg3 & _).
  injection Hoff as <-. unfold triangles_of. rewrite Hp5, Hp11.
  cbn [fmap result_fmap snd]. rewrite Htrg, Htrg3. split; reflexivity.
Defined.

Lemma GetMetadata_once_witness :
  Parsed.m_metadata (m_parsed (loaded_in loadInfo4 7 innerLineData)) = false
  /\ m_loadInfo (loaded_in loadInfo4 7 innerLineData) = Some loadInfo4
  /\ m_metadataDeserializer (loaded_in loadInfo4 7 innerLineData) = Some tt
  /\ Deserializer_Get tt 7 0 = (OpenException, 1)
  /\ (exists f',
        GetMetadata (loaded_in loadInfo4 7 innerLineData) = Ok (1, f')
        /\ Parsed.m_metadata (m_parsed f') = true
        /\ GetMetadata f' = Ok (1, f'))
  /\ fst <$> GetMetadata (loaded innerLineData) = Ok 100
  /\ GetMetadata (loaded_in loadInfo4 8 innerLineData) = Fail Thrown.
Proof.
  do 4 (split; [reflexivity|]).
  destruct (GetMetadata_once (loaded_in loadInfo4 7 innerLineData) loadInfo4 tt
              eq_refl eq_refl eq_refl) as [Hcaught _].
  destruct (GetMetadata_once (loaded innerLineData) loadInfo4 tt
              eq_refl eq_refl eq_refl) as [Hreturned _].
  destruct (GetMetadata_once (loaded_in loadInfo4 8 innerLineData) loadInfo4 tt
              eq_refl eq_refl eq_refl) as [_ Hthrown].
  split; [|split].
  - destruct (Hcaught ltac:(discriminate)) as (f' & Hget & _ & Hflag & Hagain).
    exists f'. split; [exact Hget|]. split; [exact Hflag|exact Hagain].
  - destruct (Hreturned ltac:(discriminate)) as (f' & -> & _). reflexivity.
  - by apply Hthrown.
Defined.

Lemma filterInner_sublist_witness :
  (2 <= length [10; 11; 12; 13])%nat
  /\ filterInner loadInfo4 11 [10; 11; 12; 13] 9 = [10; 11; 13]
  /\ filterInner loadInfo4 11 [10; 11; 12; 13] 9 `sublist_of` [10; 11; 12; 13]
  /\ clampScale loadInfo4 BEST_GEOMETRY = BEST_GEOMETRY
  /\ filterInner loadInfo4 BEST_GEOMETRY [10; 11; 12; 13] 9 = [10; 11; 12; 13].
Proof.
  assert (2 <= length [10; 11; 12; 13])%nat as Hlen by (simpl; lia).
  destruct (filterInner_sublist loadInfo4 11 [10; 11; 12; 13] 9 Hlen)
    as (_ & Hsub & _).
  destruct (filterInner_sublist loadInfo4 BEST_GEOMETRY [10; 11; 12; 13] 9 Hlen)
    as (_ & _ & _ & Hbest).
  split; [exact Hlen|]. split; [reflexivity|]. split; [exact Hsub|].
  split; [reflexivity|]. apply Hbest; [reflexivity|].
  repeat constructor; vm_compute; discriminate.
Defined.

Lemma IsEmptyGeometry_outer_line_witness :
  FeatureType_new (Some loadInfo4) outerLineData (Some tt) 0
    = Ok (loaded outerLineData)
  /\ Z.land (m_header (loaded outerLineData)) HEADER_MASK_GEOMTYPE
     = HeaderGeomType_Line
  /\ fst <$> IsEmptyGeometry 5 (loaded outerLineData) = Ok false
  /\ fst <$> IsEmptyGeometry 20 (loaded outerLineData) = Ok false.
Proof.
  do 2 (split; [reflexivity|]).
  destruct (ParseHeader2 (loaded outerLineData)) as [g|e] eqn:Hh2;
    [|vm_compute in Hh2; discriminate].
  assert (m_points g = [10]) as Hpts by from_run Hh2.
  assert (length (Offsets.m_pts (m_offsets g)) = 4%nat) as Hlen
    by from_run Hh2.
  destruct (IsEmptyGeometry_outer_line loadInfo4 outerLineData (Some tt) 0 5
              (loaded outerLineData) g 10 eq_refl eq_refl
              ltac:(discriminate) Hh2 Hpts ltac:(rewrite Hlen; simpl; lia))
    as (sz & f2 & f3 & rest & _ & _ & Hempty & _).
  destruct (IsEmptyGeometry_outer_line loadInfo4 outerLineData (Some tt) 0 20
              (loaded outerLineData) g 10 eq_refl eq_refl
              ltac:(discriminate) Hh2 Hpts ltac:(rewrite Hlen; simpl; lia))
    as (sz' & f2' & f3' & rest' & _ & _ & Hempty' & _).
  rewrite Hempty, Hempty'. split; reflexivity.
Defined.

Lemma GetGeometrySize_spec_witness :
  Parsed.m_points (m_parsed (loaded innerLineData12)) = false
  /\ m_loadInfo (loaded innerLineData12) = Some loadInfo4
  /\ fst <$> GetGeometrySize 11 (loaded innerLineData12) = Ok (GeomStat.mk 4 3)
  /\ fst <$> (r ← GetGeometrySize 11 (loaded innerLineData12);
              GetGeometrySize 13 r.2) = Ok (GeomStat.mk 4 3).
Proof.
  do 2 (split; [reflexivity|]).
  destruct (ParseHeader2 (loaded innerLineData12)) as [g|e] eqn:Hh2;
    [|vm_compute in Hh2; discriminate].
  assert (Header (m_data g) = Ok 1) as Hhdr by from_run Hh2.
  assert (length (m_points g) = 4%nat) as Hlen by from_run Hh2.
  assert (InnerGeomStat.m_points (m_innerStats g) = 4) as Hsize
    by from_run Hh2.
  assert (length (filterInner loadInfo4 11 (m_points g) (m_ptsSimpMask g))
          = 3%nat) as Hcount by from_run Hh2.
  destruct (GetGeometrySize_spec loadInfo4 11 13 (loaded innerLineData12) g 1)
    as [_ Hparse].
  destruct (Hparse eq_refl eq_refl Hh2 Hhdr eq_refl ltac:(rewrite Hlen; lia))
    as (f2 & n & Hget & Hn & _ & Hagain).
  rewrite Hget. cbn [mbind result_bind snd]. rewrite Hagain.
  cbn [fmap result_fmap fst]. rewrite Hn, Hcount, Hsize. split; reflexivity.
Defined.

Lemma ResetGeometry_reparse_witness :
  FeatureType_new (Some loadInfo4) outerLineData (Some tt) 0
    = Ok (loaded outerLineData)
  /\ points_of (ParseGeometry 13 (loaded outerLineData)) = Ok [10; 209; 210; 211]
  /\ points_of (r ← ParseGeometry 13 (loaded outerLineData);
                ParseGeometry 17 (ResetGeometry r.2))
     = points_of (ParseGeometry 17 (loaded outerLineData)).
Proof.
  split; [reflexivity|]. split; [vm_compute; reflexivity|].
  destruct (ParseGeometry 13 (loaded outerLineData)) as [[sz f1]|e] eqn:Hp;
    [|vm_compute in Hp; discriminate].
  destruct (ResetGeometry_reparse loadInfo4 outerLineData (Some tt) 0 13 17
              (loaded outerLineData) f1 eq_refl
              (or_introl (ex_intro _ sz Hp))) as (Hgeo & _).
  cbn [mbind result_bind snd]. rewrite Hgeo. reflexivity.
Defined.

Lemma ParseHeader2_mask_markers_witness :
  0 < 4 < 16
  /\ exists m,
       ParseHeader2_mask innerLineData12 1 0 3 0 = Ok (4%nat, m)
       /\ pointScaleAt m 1 = 1 /\ pointScaleAt m 2 = 2.
Proof.
  assert (0 < 4 < 16) as Hcount by lia.
  split; [exact Hcount|].
  destruct (ParseHeader2_mask_markers innerLineData12 3 4 Hcount)
    as (_ & _ & _ & Hread & _).
  destruct Hread as (m & Hm & _ & Hmarkers).
  { intros k Hk. assert (k = 0%nat) as -> by (vm_compute in Hk; lia).
    exists 9. split; [reflexivity|lia]. }
  exists m. split; [exact Hm|].
  split; [apply (Hmarkers 1%nat 9)|apply (Hmarkers 2%nat 9)];
    (reflexivity || (vm_compute; split; discriminate)).
Defined.

End FeatureFacts.
